(** * spinner.py: a supervisor that runs one child command behind a spinner

    A shallow embedding of [src/spinner.py] (class [Spinner], method [spin])
    and the properties of its exit-code contract, of its signal and timeout
    paths and of its terminal/handler clean-up.

    The operating system is modelled as far as [spin] can observe it:
    - the child process is [Running], a [Zombie] holding its wait status, or
      [Gone] (no process to signal or to wait for);
    - everything that happens asynchronously (the child terminating, signals
      reaching the supervisor, the clock advancing) comes from a script of
      [tick]s, one consumed in front of every system call or print of the
      parent;
    - the standard output, the standard error and the system calls issued
      are logged in a trace of [event]s, oldest first;
    - a signal that arrives while the caller's own handler is in place is
      logged ([EvOutside]) and is otherwise the caller's business: the
      handler is taken to return.  One that raises (Python's default
      handler of SIGINT raises [KeyboardInterrupt]) cuts the real run short
      at that event; statements that depend on it are about runs without
      such an event, or about runs that return;
    - [fork] returns on both sides or raises [OSError], and [signal] raises
      [ValueError] in a thread other than the main one: these are
      circumstances of the call ([role]); [kill] and [waitpid] fail exactly
      when there is no child process left ([ProcessLookupError],
      [ChildProcessError]); the prints succeed.

    Platform constants are those of Linux: SIGINT 2, SIGQUIT 3, SIGKILL 9,
    SIGTERM 15, WNOHANG 1, and the wait-status macros of glibc.  The float
    returned by [time.monotonic] is a rational number of seconds. *)

From Stdlib Require Import ZArith QArith List String Ascii Bool Lia Arith.
From Stdlib Require Import DecimalString.
Import ListNotations.

Local Open Scope string_scope.
Local Open Scope Z_scope.

(* ================================================================== *)
(** ** Wait statuses ([os.WIFEXITED] and friends, as glibc defines them) *)

Module WaitStatus.

(** [__WTERMSIG(s) = s & 0x7f] *)
Definition WTERMSIG (status : Z) : Z := Z.land status 127.

(** [__WIFEXITED(s) = (__WTERMSIG(s) == 0)] *)
Definition WIFEXITED (status : Z) : bool := WTERMSIG status =? 0.

(** [__WEXITSTATUS(s) = (s & 0xff00) >> 8] *)
Definition WEXITSTATUS (status : Z) : Z := Z.shiftr (Z.land status 65280) 8.

(** The cast to [signed char] of [__WIFSIGNALED], wrap-around written out. *)
Definition signed_char (x : Z) : Z :=
  let b := Z.land x 255 in if 128 <=? b then b - 256 else b.

(** [__WIFSIGNALED(s) = (((signed char) ((s & 0x7f) + 1) >> 1) > 0)] *)
Definition WIFSIGNALED (status : Z) : bool :=
  0 <? Z.shiftr (signed_char (Z.land status 127 + 1)) 1.

(** [__W_EXITCODE(ret, sig) = ret << 8 | sig] *)
Definition W_EXITCODE (ret sig : Z) : Z := Z.lor (Z.shiftl ret 8) sig.

End WaitStatus.
Export WaitStatus.

(* ================================================================== *)
(** ** Constants of [signal] and [os] *)

Definition SIGINT : Z := 2.
Definition SIGQUIT : Z := 3.
Definition SIGKILL : Z := 9.
Definition SIGTERM : Z := 15.
Definition WNOHANG : Z := 1.

(* ================================================================== *)
(** ** Text written by the program *)

Definition chr (n : nat) : string := String (ascii_of_nat n) EmptyString.

Definition NL : string := chr 10.
Definition BS : string := chr 8.
Definition ESC : string := chr 27.

(** ["\033[?25l"] and ["\033[?25h"] *)
Definition HIDE_CURSOR : string := ESC ++ "[?25l".
Definition SHOW_CURSOR : string := ESC ++ "[?25h".

(** [str(n)] for an [int] *)
Definition str_int (n : Z) : string := NilZero.string_of_int (Z.to_int n).

(* ================================================================== *)
(** ** Data model *)

(** [self.command] is annotated [list[str]], and [spin] also accepts a
    plain [str] (the [isinstance] test of its first statement). *)
Inductive command : Type :=
| CmdStr (s : string)
| CmdList (l : list string).

(** The frozen dataclass, after [__post_init__] has filled [wait_text]. *)
Record Spinner : Type := mkSpinner {
  sp_command : command;
  wait_text : string;
  max_duration : option Z
}.

(** [Spinner(command, wait_text, max_duration)]: the generated [__init__]
    followed by [__post_init__].  [render] stands for Python's formatting
    of [self.command] inside the f-string. *)
Definition new_Spinner (render : command -> string) (cmd : command)
           (text : option string) (limit : option Z) : Spinner :=
  mkSpinner cmd
    (match text with
     | Some t => t
     | None => "Please wait, running command: " ++ render cmd
     end)
    limit.

(** A signal disposition: the closure [sig_handler] of the running [spin],
    or whatever the caller had installed (a value [signal] accepts back;
    the [None] it reports for a handler not installed from Python is
    outside this type).  What a handler of the caller does is not part of
    the model: [deliver] logs that it ran and goes on as if it had
    returned. *)
Inductive handler : Type :=
| Caller (h : nat)
| SigHandler.

(** [OSError]: [fork] found no room for a process; [ValueError]: [signal]
    was called off the main thread. *)
Inductive exn : Type :=
| ProcessLookupError
| ChildProcessError
| TypeError
| OSError
| ValueError.

(** The child as the kernel sees it.  [Running (Some st)]: the child still
    runs the child branch of [spin] after a failed launch and will end with
    wait status [st]; [Running None]: it runs the launched program. *)
Inductive child_state : Type :=
| Running (own : option Z)
| Zombie (status : Z)
| Gone.

Inductive event : Type :=
| EvStdout (s : string)
| EvStderr (s : string)
| EvFork (pid : Z)
| EvExec (file : string) (argv : list string)
| EvClock (t : Q)
| EvSignalSet (signum : Z) (h : handler)
| EvSleep (d : Q)
| EvKill (signum : Z)
| EvWait (options : Z) (finished_pid status : Z)
| EvWaitFailed (options : Z)
| EvDelivered (signum : Z)
| EvForward (signum : Z) (delivered : bool)
| EvOutside (signum : Z).

(** One step of the environment's script. *)
Record tick : Type := mkTick {
  tk_child : option Z;      (* the child terminates now, with this status *)
  tk_signals : list Z;      (* signals that reach the supervisor now *)
  tk_now : Q                (* what [monotonic()] reads now *)
}.

Record Env : Type := mkEnv {
  env_pid : positive;                               (* pid of the child *)
  env_execvp : string -> list string -> option string;
      (* [None]: the process image is replaced; [Some msg]: [execvp]
         raises an exception [e] with [str(e) = msg] *)
  env_ticks : nat -> tick;
  env_handlers : Z -> handler   (* the dispositions the caller left *)
}.

(** The state of the supervising process. *)
Record World : Type := mkWorld {
  w_child : child_state;
  w_interrupted : bool;                 (* [interrupted] *)
  w_signal_received : option Z;         (* [signal_received] *)
  w_handlers : Z -> handler;            (* signal number to disposition *)
  w_time : nat;                         (* ticks consumed so far *)
  w_trace : list event
}.

Inductive result (A : Type) : Type :=
| Ok (a : A)
| Raise (e : exn).
Arguments Ok {A} a.
Arguments Raise {A} e.

(** A computation of the parent: [None] when it is still running (or
    blocked) once the fuel is spent. *)
Definition M (A : Type) : Type := World -> option (result A * World).

Definition ret {A : Type} (a : A) : M A := fun w => Some (Ok a, w).

Definition raise {A : Type} (e : exn) : M A := fun w => Some (Raise e, w).

Definition bind {A B : Type} (m : M A) (k : A -> M B) : M B :=
  fun w =>
    match m w with
    | None => None
    | Some (Ok a, w1) => k a w1
    | Some (Raise e, w1) => Some (Raise e, w1)
    end.

Declare Scope spin_scope.
Delimit Scope spin_scope with spin.
Notation "x <- m ;; k" := (bind m (fun x => k))
  (at level 100, m at next level, right associativity) : spin_scope.
Notation "m ;;; k" := (bind m (fun _ => k))
  (at level 100, right associativity) : spin_scope.
Local Open Scope spin_scope.

(** [try: m  finally: f] *)
Definition try_finally {A : Type} (m : M A) (f : M unit) : M A :=
  fun w =>
    match m w with
    | None => None
    | Some (r, w1) =>
        match f w1 with
        | None => None
        | Some (Ok _, w2) => Some (r, w2)
        | Some (Raise e, w2) => Some (Raise e, w2)
        end
    end.

(** [try: m  except ProcessLookupError: pass] *)
Definition except_ProcessLookupError (m : M unit) : M unit :=
  fun w =>
    match m w with
    | Some (Raise ProcessLookupError, w1) => Some (Ok tt, w1)
    | r => r
    end.

(* ================================================================== *)
(** ** The operating system, as the parent observes it *)

Definition emit (e : event) (w : World) : World :=
  mkWorld (w_child w) (w_interrupted w) (w_signal_received w)
          (w_handlers w) (w_time w)
          (w_trace w ++ [e]).

Definition set_child (c : child_state) (w : World) : World :=
  mkWorld c (w_interrupted w) (w_signal_received w)
          (w_handlers w) (w_time w) (w_trace w).

(** The two assignments that open [sig_handler]. *)
Definition record_signal (signum : Z) (w : World) : World :=
  mkWorld (w_child w) true (Some signum)
          (w_handlers w) (w_time w) (w_trace w).

(** [interrupted = False; signal_received = None] *)
Definition init_flags (w : World) : World :=
  mkWorld (w_child w) false None
          (w_handlers w) (w_time w) (w_trace w).

Definition set_handler (signum : Z) (h : handler) (w : World) : World :=
  mkWorld (w_child w) (w_interrupted w) (w_signal_received w)
          (fun s => if s =? signum then h else w_handlers w s)
          (w_time w) (w_trace w).

(** The kernel's part of [kill(pid, signum)]: there must be a process (a
    zombie still counts); SIGKILL ends a running child, every other signal
    is the child's to answer (the script says when and how it ends). *)
Definition signal_child (signum : Z) (c : child_state) : child_state :=
  match c with
  | Running _ => if signum =? SIGKILL then Zombie SIGKILL else c
  | _ => c
  end.

(** [sig_handler(signum, _)] *)
Definition sig_handler (signum : Z) (w : World) : World :=
  let w1 := record_signal signum w in
  match w_child w1 with
  | Gone => emit (EvForward signum false) w1     (* ProcessLookupError: pass *)
  | c => emit (EvForward signum true) (set_child (signal_child signum c) w1)
  end.

(** A signal reaches the supervisor.  Under a handler of the caller the
    model goes on as after a handler that returns; [EvOutside] marks the
    place where one that raises would cut the run. *)
Definition deliver (w : World) (signum : Z) : World :=
  match w_handlers w signum with
  | SigHandler => sig_handler signum (emit (EvDelivered signum) w)
  | Caller _ => emit (EvOutside signum) w
  end.

Definition child_update (t : tick) (c : child_state) : child_state :=
  match c, tk_child t with
  | Running (Some own), Some _ => Zombie own
  | Running None, Some st => Zombie st
  | _, _ => c
  end.

Section Parent.

Variable env : Env.

Definition pid : Z := Zpos (env_pid env).

(** What happens between two actions of the parent. *)
Definition async (w : World) : World :=
  let t := env_ticks env (w_time w) in
  fold_left deliver (tk_signals t)
    (mkWorld (child_update t (w_child w)) (w_interrupted w)
             (w_signal_received w) (w_handlers w)
             (S (w_time w)) (w_trace w)).

(** [print(s, end="", flush=True)] *)
Definition print_out (s : string) : M unit :=
  fun w => Some (Ok tt, emit (EvStdout s) (async w)).

(** [print(s, file=stderr)] *)
Definition print_err (s : string) : M unit :=
  fun w => Some (Ok tt, emit (EvStderr (s ++ NL)) (async w)).

Definition sleep (d : Q) : M unit :=
  fun w => Some (Ok tt, emit (EvSleep d) (async w)).

Definition monotonic : M Q :=
  fun w =>
    let now := tk_now (env_ticks env (w_time w)) in
    Some (Ok now, emit (EvClock now) (async w)).

(** [signal(signum, h)]; the result is the previous handler. *)
Definition signal (signum : Z) (h : handler) : M handler :=
  fun w =>
    let w1 := async w in
    Some (Ok (w_handlers w1 signum),
          emit (EvSignalSet signum h) (set_handler signum h w1)).

(** [kill(pid, signum)] in the main line of [spin] *)
Definition kill (signum : Z) : M unit :=
  fun w =>
    let w1 := async w in
    match w_child w1 with
    | Gone => Some (Raise ProcessLookupError, w1)
    | c => Some (Ok tt, emit (EvKill signum) (set_child (signal_child signum c) w1))
    end.

(** What a wait finds once the asynchronous events have been taken in. *)
Definition reap (options : Z) (w : World) : option (result (Z * Z) * World) :=
  match w_child w with
  | Zombie st => Some (Ok (pid, st), emit (EvWait options pid st) (set_child Gone w))
  | Gone => Some (Raise ChildProcessError, emit (EvWaitFailed options) w)
  | Running _ => None
  end.

(** [waitpid(pid, WNOHANG)] *)
Definition waitpid_nohang : M (Z * Z) :=
  fun w =>
    let w1 := async w in
    match reap WNOHANG w1 with
    | Some r => Some r
    | None => Some (Ok (0, 0), emit (EvWait WNOHANG 0 0) w1)
    end.

(** [waitpid(pid, 0)]: blocked for as long as the child runs; a signal
    handled meanwhile does not end the call (PEP 475). *)
Fixpoint waitpid_block (fuel : nat) : M (Z * Z) :=
  fun w =>
    match fuel with
    | O => None
    | S fuel' =>
        let w1 := async w in
        match reap 0 w1 with
        | Some r => Some r
        | None => waitpid_block fuel' w1
        end
    end.

(* ................................................................ *)
(** *** [Spinner.spin], the parent after [fork] *)

Variable sp : Spinner.

(** [spinner = "-\\|/"] *)
Definition spinner : string := "-\|/".

(** [spinner[i % len(spinner)]] *)
Definition glyph (i : nat) : string :=
  match String.get (Nat.modulo i (String.length spinner)) spinner with
  | Some c => String c EmptyString
  | None => EmptyString
  end.

(** [signal_names.get(signal_received, f"signal {signal_received}")] *)
Definition signal_name (signum : Z) : string :=
  if signum =? SIGINT then "SIGINT"
  else if signum =? SIGTERM then "SIGTERM"
  else if signum =? SIGQUIT then "SIGQUIT"
  else "signal " ++ str_int signum.

(** How the [while True] loop is left. *)
Inductive loop_exit : Type :=
| Break (status : Z)
| Return (code : Z).

(** Lines 93-109: the report and the code of the interrupted path.
    [signal_received] is read when the branch is chosen and the name is
    looked up, and read again, after the print, for the returned sum
    ([128 + None] would be a [TypeError]). *)
Definition report : M loop_exit :=
  fun w =>
    match w_signal_received w with
    | Some n =>
        (print_err (NL ++ "Interrupted by " ++ signal_name n ++ ".") ;;;
         fun w' =>
           match w_signal_received w' with
           | Some n' => ret (Return (128 + n')) w'
           | None => raise TypeError w'
           end) w
    | None =>
        (print_err (NL ++ "Interrupted.") ;;; ret (Return 130)) w
    end.

(** Lines 88-109: the loop has seen [interrupted]. *)
Definition interrupted_path (fuel : nat) : M loop_exit :=
  sleep (1 # 10) ;;;
  _ <- waitpid_block fuel ;;
  report.

(** Lines 117-129: the timeout has been reached. *)
Definition timeout_path (fuel : nat) : M loop_exit :=
  print_err (NL ++ "Process timed out.") ;;;
  kill SIGTERM ;;;
  sleep 1 ;;;
  except_ProcessLookupError
    (r <- waitpid_nohang ;;
     if fst r =? 0
     then (kill SIGKILL ;;; _ <- waitpid_block fuel ;; ret tt)
     else ret tt) ;;;
  ret (Return 124).

(** Lines 131-134 *)
Definition animate (i : nat) : M unit :=
  print_out (glyph i) ;;;
  sleep (1 # 5) ;;;
  print_out BS.

(** [monotonic() - start >= self.max_duration] *)
Definition timed_out (start now : Q) (m : Z) : bool :=
  Qle_bool (inject_Z m) (now - start).

(** Lines 85-134, from the top of an iteration. *)
Fixpoint spin_loop (fuel : nat) (i : nat) (start : Q) : M loop_exit :=
  match fuel with
  | O => fun _ => None
  | S fuel' =>
      fun w =>
        if w_interrupted w then interrupted_path fuel' w
        else
          (r <- waitpid_nohang ;;
           if negb (fst r =? 0) then ret (Break (snd r))
           else
             match max_duration sp with
             | Some m =>
                 now <- monotonic ;;
                 if timed_out start now m then timeout_path fuel'
                 else (animate i ;;; spin_loop fuel' (S i) start)
             | None => animate i ;;; spin_loop fuel' (S i) start
             end) w
  end.

(** Lines 137-143 *)
Definition exit_code (status : Z) : Z :=
  if WIFEXITED status then WEXITSTATUS status
  else if WIFSIGNALED status then 128 + WTERMSIG status
  else 128.

(** The body of the [try] (lines 85-143), from the top of iteration [i]. *)
Definition guarded_body (fuel : nat) (i : nat) (start : Q) : M Z :=
  r <- spin_loop fuel i start ;;
  match r with
  | Return code => ret code
  | Break status => ret (exit_code status)
  end.

(** Lines 147-151 *)
Definition restore (old_sigint old_sigterm old_sigquit : handler) : M unit :=
  signal SIGINT old_sigint ;;;
  signal SIGTERM old_sigterm ;;;
  signal SIGQUIT old_sigquit ;;;
  print_out SHOW_CURSOR ;;;
  print_out NL.

(** Lines 84-151, from the top of iteration [i]. *)
Definition guarded (fuel : nat) (i : nat) (start : Q)
           (old_sigint old_sigterm old_sigquit : handler) : M Z :=
  try_finally (guarded_body fuel i start)
              (restore old_sigint old_sigterm old_sigquit).

(** Lines 62-151 *)
Definition supervise (fuel : nat) : M Z :=
  start <- monotonic ;;
  (fun w => ret tt (init_flags w)) ;;;
  old_sigint <- signal SIGINT SigHandler ;;
  old_sigterm <- signal SIGTERM SigHandler ;;
  old_sigquit <- signal SIGQUIT SigHandler ;;
  guarded fuel 0 start old_sigint old_sigterm old_sigquit.

(** [signal(signum, h)] in a thread other than the main one: CPython
    raises [ValueError] before it touches the disposition. *)
Definition signal_refused : M handler := raise ValueError.

(** Lines 62-151 off the main thread: the first [signal] call (line 80)
    raises, ahead of the [try]. *)
Definition supervise_off_main (fuel : nat) : M Z :=
  start <- monotonic ;;
  (fun w => ret tt (init_flags w)) ;;;
  old_sigint <- signal_refused ;;
  old_sigterm <- signal_refused ;;
  old_sigquit <- signal_refused ;;
  guarded fuel 0 start old_sigint old_sigterm old_sigquit.

End Parent.

(* ================================================================== *)
(** ** [Spinner.spin], both sides of the [fork] *)

(** [[self.command] if isinstance(self.command, str) else self.command] *)
Definition normalize (c : command) : list string :=
  match c with
  | CmdStr s => [s]
  | CmdList l => l
  end.

(** How a process leaves [spin]: by [return], by an exception, by
    [_exit], or because [execvp] replaced its image. *)
Inductive outcome : Type :=
| Returned (code : Z)
| Raised (e : exn)
| Exited (code : Z)
| Replaced.

Definition exec_failed (msg : string) (w : World) : outcome * World :=
  (Exited 127, emit (EvStderr (NL ++ "exec failed: " ++ msg ++ NL)) w).

(** Lines 54-59, the child.  [argv[0]] of an empty list raises
    [IndexError], which the [except Exception] clause takes as well. *)
Definition child_branch (env : Env) (argv : list string) (w : World)
  : outcome * World :=
  match argv with
  | [] => exec_failed "list index out of range" w
  | file :: _ =>
      let w1 := emit (EvExec file argv) w in
      match env_execvp env file argv with
      | None => (Replaced, w1)
      | Some msg => exec_failed msg w1
      end
  end.

(** The wait status the child is bound to end with when it never leaves
    the code of [spin]. *)
Definition own_status (env : Env) (argv : list string) (w : World) : option Z :=
  match fst (child_branch env argv w) with
  | Exited code => Some (W_EXITCODE code 0)
  | _ => None
  end.

(** The circumstances of a call of [spin]: the process is the parent or
    the child of a [fork] made on the main thread; or [fork] fails
    ([Unforked]); or the call is made in a thread other than the main one
    and the process is the parent ([Worker]). *)
Inductive role : Type := Parent | Child | Unforked | Worker.

(** What [fork()] does in each of them. *)
Definition fork_result (env : Env) (r : role) : result Z :=
  match r with
  | Parent | Worker => Ok (Zpos (env_pid env))
  | Child => Ok 0
  | Unforked => Raise OSError
  end.

Definition initial (env : Env) : World :=
  mkWorld Gone false None (env_handlers env) 0 [].

(** [self._hide_cursor()] *)
Definition hide_cursor (w : World) : World := emit (EvStdout HIDE_CURSOR) w.

(** Lines 45-50 *)
Definition prologue (sp : Spinner) (w : World) : World :=
  hide_cursor (emit (EvStdout (wait_text sp ++ " ")) w).

Definition spin (fuel : nat) (env : Env) (sp : Spinner) (r : role)
  : option (outcome * World) :=
  let argv := normalize (sp_command sp) in
  let w := prologue sp (initial env) in
  match fork_result env r with
  | Raise e => Some (Raised e, w)
  | Ok p =>
      if p =? 0 then Some (child_branch env argv w)
      else
        let w1 :=
          emit (EvFork p) (set_child (Running (own_status env argv w)) w) in
        match
          match r with
          | Worker => supervise_off_main env sp fuel w1
          | _ => supervise env sp fuel w1
          end
        with
        | None => None
        | Some (Ok code, w2) => Some (Returned code, w2)
        | Some (Raise e, w2) => Some (Raised e, w2)
        end
  end.

(* ================================================================== *)
(** ** Reading a trace *)

(** Events that come from signal delivery, not from the main line. *)
Definition is_async (e : event) : bool :=
  match e with
  | EvDelivered _ | EvForward _ _ | EvOutside _ => true
  | _ => false
  end.

(** The system calls and prints of the main line, in order. *)
Definition mainline (tr : list event) : list event :=
  filter (fun e => negb (is_async e)) tr.

(** Output of the animation: one of the four glyphs, or the backspace. *)
Definition is_animation (e : event) : bool :=
  match e with
  | EvStdout s => existsb (String.eqb s) ["-"; "\"; "|"; "/"; BS]
  | _ => false
  end.

(** A reading of the clock; the timeout test is the only one in the loop. *)
Definition is_timeout_check (e : event) : bool :=
  match e with
  | EvClock _ => true
  | _ => false
  end.

(** Neither animation, nor a timeout test, nor a signal sent by the
    escalation of the timeout. *)
Definition draining (e : event) : bool :=
  negb (is_animation e) && negb (is_timeout_check e) &&
  match e with EvKill _ => false | _ => true end.

Definition cursor_step (visible : bool) (e : event) : bool :=
  match e with
  | EvStdout s =>
      if String.eqb s HIDE_CURSOR then false
      else if String.eqb s SHOW_CURSOR then true
      else visible
  | _ => visible
  end.

(** Whether the terminal shows its cursor after the given output. *)
Definition cursor_visible (tr : list event) : bool :=
  fold_left cursor_step tr true.

(** [w'] carries the trace of [w], extended by events that satisfy [P]. *)
Definition trace_ext (P : event -> bool) (w w' : World) : Prop :=
  exists l, w_trace w' = (w_trace w ++ l)%list /\ forallb P l = true.

(** How the kernel's view of the child can change behind the parent's
    back: a running child may end, nothing else moves. *)
Definition evolves (c c' : child_state) : Prop :=
  match c with
  | Gone => c' = Gone
  | Zombie st => c' = Zombie st
  | Running _ => c' <> Gone
  end.

(* ================================================================== *)
(** ** Vocabulary of the statements *)

(** [w'] is [w] after events the main line does not control: handlers are
    untouched, the child only moves forward, the trace only grows, the
    interruption flags are only ever set. *)
Record drift (w w' : World) : Prop := mkDrift {
  drift_handlers : w_handlers w' = w_handlers w;
  drift_child : evolves (w_child w) (w_child w');
  drift_trace : exists l, w_trace w' = (w_trace w ++ l)%list;
  drift_interrupted : w_interrupted w = true -> w_interrupted w' = true;
  drift_signal : w_signal_received w <> None -> w_signal_received w' <> None
}.

(** [w'] extends the trace of [w] by a stretch whose main line is [ev]. *)
Definition emits (ev : list event) (w w' : World) : Prop :=
  exists l, w_trace w' = (w_trace w ++ l)%list /\ mainline l = ev.

(** What the loop never undoes: the handler table, a child that is gone,
    the trace so far, the interruption flags once set. *)
Record frame (w w' : World) : Prop := mkFrame {
  frame_handlers : w_handlers w' = w_handlers w;
  frame_gone : w_child w = Gone -> w_child w' = Gone;
  frame_trace : exists l, w_trace w' = (w_trace w ++ l)%list;
  frame_interrupted : w_interrupted w = true -> w_interrupted w' = true;
  frame_signal : w_signal_received w <> None -> w_signal_received w' <> None
}.

Definition respects {A : Type} (R : World -> World -> Prop) (m : M A) : Prop :=
  forall w r w', m w = Some (r, w') -> R w w'.

(** The child has been collected by a [waitpid] of the parent. *)
Definition reaped (env : Env) (w : World) : Prop :=
  w_child w = Gone /\
  exists options st, In (EvWait options (pid env) st) (w_trace w).

(** What the main line does first once the timeout is reached. *)
Definition timeout_events : list event :=
  [EvStderr ((NL ++ "Process timed out.") ++ NL); EvKill SIGTERM; EvSleep 1].

(** How it ends: the re-check collects the child, or the child is still
    there, is killed and is waited for. *)
Definition escalation (env : Env) (tail : list event) : Prop :=
  (exists st, tail = [EvWait WNOHANG (pid env) st]) \/
  (exists st, tail = [EvWait WNOHANG 0 0; EvKill SIGKILL;
                      EvWait 0 (pid env) st]).

(** What no step of [spin] undoes, the clean-up included: a collected
    child stays collected and the trace only grows. *)
Record keeps (w w' : World) : Prop := mkKeeps {
  keeps_gone : w_child w = Gone -> w_child w' = Gone;
  keeps_trace : exists l, w_trace w' = (w_trace w ++ l)%list
}.

(** The main line of the [finally] clause. *)
Definition restore_events (old_sigint old_sigterm old_sigquit : handler)
  : list event :=
  [EvSignalSet SIGINT old_sigint; EvSignalSet SIGTERM old_sigterm;
   EvSignalSet SIGQUIT old_sigquit; EvStdout SHOW_CURSOR; EvStdout NL].

(** The main line of lines 63-82. *)
Definition install_events (start : Q) : list event :=
  [EvClock start; EvSignalSet SIGINT SigHandler;
   EvSignalSet SIGTERM SigHandler; EvSignalSet SIGQUIT SigHandler].

(** No signal ever reaches the supervisor. *)
Definition quiet (env : Env) : Prop :=
  forall k, tk_signals (env_ticks env k) = [].

(** The timeout test never succeeds ([start] is read at the first tick). *)
Definition never_times_out (env : Env) (sp : Spinner) : Prop :=
  forall m k, max_duration sp = Some m ->
    timed_out (tk_now (env_ticks env 0)) (tk_now (env_ticks env k)) m = false.

(** The child terminates at tick [n], not before, and the script gives
    [s] as its wait status. *)
Definition terminates_at (env : Env) (n : nat) (s : Z) : Prop :=
  tk_child (env_ticks env n) = Some s /\
  forall k, (k < n)%nat -> tk_child (env_ticks env k) = None.

(** The status the parent will collect: the one the child branch of
    [spin] fixed, or else the one of the launched program. *)
Definition final_status (own : option Z) (s : Z) : Z :=
  match own with
  | Some o => o
  | None => s
  end.

(** The run is on its way to a normal end: nothing has interrupted it,
    and the child has ended with the expected status or has yet to. *)
Definition on_course (n : nat) (s : Z) (own : option Z) (w : World) : Prop :=
  w_interrupted w = false /\
  (w_child w = Zombie (final_status own s) \/
   (w_child w = Running own /\ (w_time w <= n)%nat)).

(** The child is a zombie already, or it runs and the script ends it at
    tick [n]. *)
Definition child_ends (env : Env) (w : World) (n : nat) : Prop :=
  (exists st, w_child w = Zombie st) \/
  (exists own, w_child w = Running own /\ (w_time w <= n)%nat /\
               tk_child (env_ticks env n) <> None).

(** What the [try] block of the child runs into: [None] when [execvp]
    replaces the process image, the text of the exception otherwise. *)
Definition launch_error (env : Env) (argv : list string) : option string :=
  match argv with
  | [] => Some "list index out of range"
  | file :: _ => env_execvp env file argv
  end.

(** The [execvp] call the child makes, if it gets that far. *)
Definition exec_attempt (argv : list string) : list event :=
  match argv with
  | [] => []
  | file :: _ => [EvExec file argv]
  end.

(** The status the parent collects in a run of [spin]. *)
Definition child_status (env : Env) (sp : Spinner) (s : Z) : Z :=
  final_status
    (own_status env (normalize (sp_command sp)) (prologue sp (initial env))) s.

(** "The hide sequence is emitted first and the wait message after it",
    read on the trace a run leaves. *)
Definition hide_then_message (sp : Spinner) (tr : list event) : Prop :=
  nth_error tr 0 = Some (EvStdout HIDE_CURSOR) /\
  nth_error tr 1 = Some (EvStdout (wait_text sp ++ " ")).

(** The order the code has: the wait message, then the hide sequence. *)
Definition message_then_hide (sp : Spinner) (tr : list event) : Prop :=
  nth_error tr 0 = Some (EvStdout (wait_text sp ++ " ")) /\
  nth_error tr 1 = Some (EvStdout HIDE_CURSOR).

(** Whether [kill(pid, signum)] finds a process to signal. *)
Definition child_exists (c : child_state) : bool :=
  match c with
  | Gone => false
  | _ => true
  end.

(* ================================================================== *)
(** ** Vocabulary of the whole-trace properties *)

(** What one delivery adds to the trace. *)
Definition delivery (w : World) (signum : Z) : list event :=
  match w_handlers w signum with
  | SigHandler => [EvDelivered signum; EvForward signum (child_exists (w_child w))]
  | Caller _ => [EvOutside signum]
  end.

(** [w'] extends the trace of [w] by a stretch with property [T]. *)
Definition stretch (T : list event -> Prop) (w w' : World) : Prop :=
  exists l, w_trace w' = (w_trace w ++ l)%list /\ T l.

(** [self.max_duration is not None] *)
Definition has_timeout (sp : Spinner) : bool :=
  match max_duration sp with
  | Some _ => true
  | None => false
  end.

(** The main-line events of the polling loop: waits, sleeps, lines on the
    error stream, animation output and, with a maximum duration only,
    readings of the clock and SIGTERM or SIGKILL for the child. *)
Definition loop_alphabet (timeout : bool) (e : event) : bool :=
  match e with
  | EvWait _ _ _ | EvWaitFailed _ | EvSleep _ | EvStderr _ => true
  | EvStdout _ => is_animation e
  | EvClock _ => timeout
  | EvKill signum => timeout && ((signum =? SIGTERM) || (signum =? SIGKILL))
  | _ => false
  end.

(** The main-line events of the parent after the fork: those of the loop,
    the reading of [start], the [signal] calls and the two prints of the
    [finally] clause. *)
Definition parent_alphabet (timeout : bool) (e : event) : bool :=
  loop_alphabet timeout e ||
  match e with
  | EvClock _ => true
  | EvSignalSet signum _ =>
      (signum =? SIGINT) || (signum =? SIGTERM) || (signum =? SIGQUIT)
  | EvStdout s => String.eqb s SHOW_CURSOR || String.eqb s NL
  | _ => false
  end.

(** How often a string is written to the standard output. *)
Definition count_stdout (s : string) (tr : list event) : nat :=
  List.length (filter (fun e => match e with
                                | EvStdout s' => String.eqb s' s
                                | _ => false
                                end) tr).

(** Reading a trace for the forwarding discipline: [Some None] when every
    delivery to [sig_handler] so far was followed at once by the [kill] of
    the same signal, [Some (Some n)] when the [kill] for [n] is due next,
    [None] when the discipline was broken. *)
Definition forward_step (st : option (option Z)) (e : event)
  : option (option Z) :=
  match st, e with
  | None, _ => None
  | Some None, EvDelivered n => Some (Some n)
  | Some None, EvForward _ _ => None
  | Some None, _ => Some None
  | Some (Some n), EvForward n' _ => if n =? n' then Some None else None
  | Some (Some _), _ => None
  end.

Definition forwarding (tr : list event) : option (option Z) :=
  fold_left forward_step tr (Some None).

(** [count] turns of the animation, from turn [i] on: each a poll that
    finds the child running, a glyph, a sleep of 0.2 s and a backspace. *)
Fixpoint frames (i count : nat) : list event :=
  match count with
  | O => []
  | S c =>
      [EvWait WNOHANG 0 0; EvStdout (glyph i); EvSleep (1 # 5); EvStdout BS]
        ++ frames (S i) c
  end.

(** A stretch of trace without cursor sequences. *)
Definition no_cursor (l : list event) : Prop :=
  count_stdout HIDE_CURSOR l = 0%nat /\ count_stdout SHOW_CURSOR l = 0%nat.

(** The signals [spin] installs [sig_handler] for (lines 80-82). *)
Definition handled (signum : Z) : bool :=
  (signum =? SIGINT) || (signum =? SIGTERM) || (signum =? SIGQUIT).

(** [interrupted] is not set without [signal_received]. *)
Definition flags_agree (w : World) : Prop :=
  w_interrupted w = true -> w_signal_received w <> None.

(** [sig_handler] answers the three signals only, and has recorded no
    other. *)
Definition own_signals (w : World) : Prop :=
  flags_agree w /\
  (forall signum, w_handlers w signum = SigHandler -> handled signum = true) /\
  (forall n, w_signal_received w = Some n -> handled n = true).

(** A property of the supervisor's state that the step from [w] to [w']
    keeps. *)
Definition preserves (J : World -> Prop) (w w' : World) : Prop := J w -> J w'.

(** Where the loop's way out comes from: a status collected by the poll,
    the timeout, or a signal recorded in a state where [J] holds. *)
Definition loop_origin (env : Env) (J : World -> Prop)
           (r : result loop_exit) (w' : World) : Prop :=
  (exists st, r = Ok (Break st) /\
              In (EvWait WNOHANG (pid env) st) (w_trace w')) \/
  r = Ok (Return 124) \/
  (exists w n, J w /\ w_signal_received w = Some n /\
               r = Ok (Return (128 + n))).

(** The same for the value [spin] returns. *)
Definition code_origin (env : Env) (J : World -> Prop)
           (code : Z) (w' : World) : Prop :=
  (exists st, code = exit_code st /\
              In (EvWait WNOHANG (pid env) st) (w_trace w')) \/
  code = 124 \/
  (exists w n, J w /\ w_signal_received w = Some n /\ code = 128 + n).

(** A run that nothing interrupts, seen between two actions of the
    parent: the child runs up to tick [n] of the script and is a zombie
    from then on. *)
Definition in_step (n : nat) (s : Z) (own : option Z) (w : World) : Prop :=
  w_interrupted w = false /\
  ((w_time w <= n)%nat /\ w_child w = Running own \/
   (n < w_time w)%nat /\ w_child w = Zombie (final_status own s)).

(** The report of an interruption for which no signal is recorded
    (line 108). *)
Definition unnamed_report : event := EvStderr ((NL ++ "Interrupted.") ++ NL).

Definition named (e : event) : bool :=
  match e with
  | EvStderr s => negb (String.eqb s ((NL ++ "Interrupted.") ++ NL))
  | _ => true
  end.

(** Every event of a stretch of trace passes [P]. *)
Definition all_pass (P : event -> bool) (l : list event) : Prop :=
  forallb P l = true.

Definition is_stderr (e : event) : bool :=
  match e with
  | EvStderr _ => true
  | _ => false
  end.

(** What [print(..., file=stderr)] writes for the two messages of the
    loop. *)
Definition timeout_line : string := (NL ++ "Process timed out.") ++ NL.

Definition interrupt_line (signum : Z) : string :=
  (NL ++ "Interrupted by " ++ signal_name signum ++ ".") ++ NL.

(** The lines the parent can be seen to write to stderr. *)
Definition stderr_line (timeout : bool) (e : event) : bool :=
  match e with
  | EvStderr s =>
      (timeout && String.eqb s timeout_line)
      || String.eqb s (interrupt_line SIGINT)
      || String.eqb s (interrupt_line SIGTERM)
      || String.eqb s (interrupt_line SIGQUIT)
  | _ => true
  end.

(** A run that nothing has interrupted and whose child has yet to end,
    [t] ticks into the script. *)
Definition still_running (own : option Z) (t : nat) (w : World) : Prop :=
  w_interrupted w = false /\ w_child w = Running own /\ w_time w = t.

(** Anything but output of the animation. *)
Definition still (e : event) : bool := negb (is_animation e).

(** One signal, delivered once, at tick [k] of the script. *)
Definition one_signal (env : Env) (k : nat) (sig : Z) : Prop :=
  forall t,
    tk_signals (env_ticks env t) = if (t =? k)%nat then [sig] else [].

(** The flags after [sig_handler] has taken [sig]. *)
Definition recorded (sig : Z) (w : World) : Prop :=
  w_interrupted w = true /\ w_signal_received w = Some sig.

(** A run in which [sig] arrives at tick [k] and the child ends at tick
    [n]: [sig_handler] is installed for [sig]; the flags are set, or else
    tick [k] is still to come; the child runs up to tick [n]. *)
Definition awaiting (k n : nat) (sig : Z) (own : option Z) (s : Z)
           (w : World) : Prop :=
  w_handlers w sig = SigHandler /\
  (if w_interrupted w then w_signal_received w = Some sig
   else (w_time w <= k)%nat) /\
  ((w_time w <= n)%nat /\ w_child w = Running own \/
   (n < w_time w)%nat /\ w_child w = Zombie (final_status own s)).

(** The text holds no escape character, so that no control sequence of
    the terminal starts in it. *)
Definition plain (s : string) : bool :=
  forallb (fun c => negb (Ascii.eqb c (ascii_of_nat 27)))
          (list_ascii_of_string s).

(** No handler of the caller has been invoked in this stretch of trace
    (so that it does not matter what such a handler would have done). *)
Definition undisturbed (l : list event) : Prop :=
  forall signum, ~ In (EvOutside signum) l.

(** What the loop hands to the code after it, as a return value. *)
Definition code_of (x : loop_exit) : Z :=
  match x with
  | Return code => code
  | Break status => exit_code status
  end.

(* ================================================================== *)
(** ** Sample spinners, scripts and states *)

(** The spinner of the [__main__] block. *)
Definition demo_spinner : Spinner :=
  mkSpinner (CmdList ["sleep"; "5"]) "Hehe Waitin" None.

Definition idle (t : Q) : tick := mkTick None [] t.

(** A quiet script in which the child ends at tick 9 with status [st]. *)
Definition ends_at_9 (st : Z) (k : nat) : tick :=
  match k with
  | 9%nat => mkTick (Some st) [] 0
  | _ => idle 0
  end.

Definition caller_handlers (signum : Z) : handler := Caller (Z.to_nat signum).

(** The launched program calls [exit(3)]. *)
Definition demo_env : Env :=
  mkEnv 4242 (fun _ _ => None) (ends_at_9 (W_EXITCODE 3 0)) caller_handlers.

(** The launched program is killed by SIGTERM. *)
Definition killed_env : Env :=
  mkEnv 4242 (fun _ _ => None) (ends_at_9 (W_EXITCODE 0 SIGTERM)) caller_handlers.

(** The executable does not exist. *)
Definition missing_env : Env :=
  mkEnv 4242 (fun _ _ => Some "[Errno 2] No such file or directory")
        (ends_at_9 0) caller_handlers.

(** [Spinner("true")]: the command is one string. *)
Definition string_spinner : Spinner := mkSpinner (CmdStr "true") "Working" None.

(** [Spinner(["sleep", "5"], max_duration=2)] under a clock that reads
    [k / 2] seconds at tick [k], with a child that ignores SIGTERM. *)
Definition slow_spinner : Spinner :=
  mkSpinner (CmdList ["sleep"; "5"]) "Hehe Waitin" (Some 2).

Definition slow_env : Env :=
  mkEnv 4242 (fun _ _ => None)
        (fun k => mkTick None [] (Z.of_nat k # 2)) caller_handlers.

(** [Spinner(["sleep", "5"], max_duration=0)] *)
Definition impatient_spinner : Spinner :=
  mkSpinner (CmdList ["sleep"; "5"]) "Hehe Waitin" (Some 0).

(** The same child under a clock that reads [k / 4] seconds at tick [k]:
    the limit of two seconds is reached at the second reading. *)
Definition crawl_env : Env :=
  mkEnv 4242 (fun _ _ => None)
        (fun k => mkTick None [] (Z.of_nat k # 4)) caller_handlers.

(** The user presses Ctrl-C during the first sleep of the animation (tick
    6); the child dies of the forwarded SIGINT at tick 7. *)
Definition ctrl_c_env : Env :=
  mkEnv 4242 (fun _ _ => None)
        (fun k => match k with
                  | 6%nat => mkTick None [SIGINT] 0
                  | 7%nat => mkTick (Some (W_EXITCODE 0 SIGINT)) [] 0
                  | _ => idle 0
                  end)
        caller_handlers.

(** A state at the top of the loop: the child runs, [sig_handler] is
    installed, four ticks have gone by. *)
Definition at_loop (interrupted : bool) (signal_received : option Z) : World :=
  mkWorld (Running None) interrupted signal_received (fun _ => SigHandler) 4 [].

(** A state at the top of the loop in which the child has ended with
    status [st] and waits to be collected. *)
Definition ended_at_loop (st : Z) : World :=
  mkWorld (Zombie st) false None (fun _ => SigHandler) 4 [].

(** A stopped child ([WIFSTOPPED]): neither exited nor signaled. *)
Definition stopped_env : Env :=
  mkEnv 4242 (fun _ _ => None) (ends_at_9 4991) caller_handlers.


(* ================================================================== *)
(** ** What asynchronous events can and cannot change *)

Lemma evolves_refl c : evolves c c.
Proof. destruct c; simpl; congruence. Qed.

Lemma evolves_trans c1 c2 c3 : evolves c1 c2 -> evolves c2 c3 -> evolves c1 c3.
Proof.
  destruct c1; simpl; intros H12 H23; subst; auto.
  destruct c2; simpl in *; subst; congruence.
Qed.

Lemma drift_refl w : drift w w.
Proof.
  constructor; auto using evolves_refl.
  exists []. now rewrite app_nil_r.
Qed.

Lemma drift_trans w1 w2 w3 : drift w1 w2 -> drift w2 w3 -> drift w1 w3.
Proof.
  intros [h1 c1 [l1 t1] i1 s1] [h2 c2 [l2 t2] i2 s2]. constructor.
  - congruence.
  - eauto using evolves_trans.
  - exists (l1 ++ l2)%list. now rewrite t2, t1, app_assoc.
  - auto.
  - auto.
Qed.

Lemma drift_emit e w : drift w (emit e w).
Proof.
  constructor; simpl; auto using evolves_refl. now exists [e].
Qed.

Lemma mainline_app l1 l2 : mainline (l1 ++ l2) = (mainline l1 ++ mainline l2)%list.
Proof. apply filter_app. Qed.

Lemma emits_refl w : emits [] w w.
Proof. exists []. now rewrite app_nil_r. Qed.

Lemma emits_trans ev1 ev2 w1 w2 w3 :
  emits ev1 w1 w2 -> emits ev2 w2 w3 -> emits (ev1 ++ ev2) w1 w3.
Proof.
  intros [l1 [t1 m1]] [l2 [t2 m2]]. exists (l1 ++ l2)%list.
  now rewrite t2, t1, app_assoc, mainline_app, m1, m2.
Qed.

Lemma emits_emit e w : is_async e = false -> emits [e] w (emit e w).
Proof. intros H. exists [e]. simpl. unfold mainline. simpl. now rewrite H. Qed.

Lemma emits_emit_async e w : is_async e = true -> emits [] w (emit e w).
Proof. intros H. exists [e]. simpl. unfold mainline. simpl. now rewrite H. Qed.

Lemma emits_mainline ev w w' :
  emits ev w w' -> mainline (w_trace w') = (mainline (w_trace w) ++ ev)%list.
Proof. intros [l [t m]]. now rewrite t, mainline_app, m. Qed.

Lemma emits_trace_ext (P : event -> bool) ev w w' :
  (forall e, is_async e = true -> P e = true) ->
  forallb P ev = true -> emits ev w w' -> trace_ext P w w'.
Proof.
  intros HA HP [l [t m]]. exists l. split; [exact t|].
  rewrite forallb_forall in *. intros e He.
  destruct (is_async e) eqn:A; [auto|].
  apply HP. rewrite <- m. unfold mainline. apply filter_In. now rewrite A.
Qed.

Lemma trace_ext_trans P w1 w2 w3 :
  trace_ext P w1 w2 -> trace_ext P w2 w3 -> trace_ext P w1 w3.
Proof.
  intros [l1 [t1 f1]] [l2 [t2 f2]]. exists (l1 ++ l2)%list.
  now rewrite t2, t1, app_assoc, forallb_app, f1, f2.
Qed.

Lemma sig_handler_drift signum w : drift w (sig_handler signum w).
Proof.
  unfold sig_handler. simpl.
  destruct (w_child w) eqn:C; constructor; simpl; rewrite ?C; simpl;
    try congruence; eauto.
  destruct (signum =? SIGKILL); congruence.
Qed.

Lemma sig_handler_emits signum w : emits [] w (sig_handler signum w).
Proof.
  unfold sig_handler. simpl.
  destruct (w_child w); (eexists; split; [simpl; reflexivity | reflexivity]).
Qed.

Lemma deliver_drift w signum : drift w (deliver w signum).
Proof.
  unfold deliver. destruct (w_handlers w signum).
  - apply drift_emit.
  - eapply drift_trans; [apply drift_emit | apply sig_handler_drift].
Qed.

Lemma deliver_emits w signum : emits [] w (deliver w signum).
Proof.
  unfold deliver. destruct (w_handlers w signum).
  - now apply emits_emit_async.
  - change (@nil event) with (@nil event ++ [])%list.
    eapply emits_trans;
      [apply (emits_emit_async (EvDelivered signum)); reflexivity
      | apply sig_handler_emits].
Qed.

Lemma deliver_time w signum : w_time (deliver w signum) = w_time w.
Proof.
  unfold deliver, sig_handler. destruct (w_handlers w signum); simpl; auto.
  destruct (w_child w); reflexivity.
Qed.


Lemma deliveries_drift sigs : forall w, drift w (fold_left deliver sigs w).
Proof.
  induction sigs as [|s sigs IH]; simpl; intros w.
  - apply drift_refl.
  - eapply drift_trans; [apply deliver_drift | apply IH].
Qed.

Lemma deliveries_emits sigs : forall w, emits [] w (fold_left deliver sigs w).
Proof.
  induction sigs as [|s sigs IH]; simpl; intros w.
  - apply emits_refl.
  - change (@nil event) with (@nil event ++ [])%list.
    eapply emits_trans; [apply deliver_emits | apply IH].
Qed.

Lemma deliveries_time sigs : forall w, w_time (fold_left deliver sigs w) = w_time w.
Proof.
  induction sigs as [|s sigs IH]; simpl; intros w; auto.
  now rewrite IH, deliver_time.
Qed.

Lemma child_update_evolves t c : evolves c (child_update t c).
Proof.
  unfold child_update. destruct c as [[own|]| |]; simpl; auto;
    destruct (tk_child t); congruence.
Qed.

Section AsyncFacts.

Variable env : Env.

Lemma async_drift w : drift w (async env w).
Proof.
  unfold async. eapply drift_trans; [|apply deliveries_drift].
  constructor; simpl; auto using child_update_evolves.
  exists []. now rewrite app_nil_r.
Qed.

Lemma async_emits w : emits [] w (async env w).
Proof.
  unfold async.
  destruct (deliveries_emits (tk_signals (env_ticks env (w_time w)))
    (mkWorld (child_update (env_ticks env (w_time w)) (w_child w))
       (w_interrupted w) (w_signal_received w) (w_handlers w)
       (S (w_time w)) (w_trace w))) as [l [t m]].
  exists l. split; [exact t | exact m].
Qed.

Lemma async_time w : w_time (async env w) = S (w_time w).
Proof. unfold async. now rewrite deliveries_time. Qed.

End AsyncFacts.

(* ================================================================== *)
(** ** Relations every step of a computation keeps *)

Lemma frame_refl w : frame w w.
Proof. constructor; auto. exists []. now rewrite app_nil_r. Qed.

Lemma frame_trans w1 w2 w3 : frame w1 w2 -> frame w2 w3 -> frame w1 w3.
Proof.
  intros [h1 c1 [l1 t1] i1 s1] [h2 c2 [l2 t2] i2 s2]. constructor; auto.
  - congruence.
  - exists (l1 ++ l2)%list. now rewrite t2, t1, app_assoc.
Qed.

Lemma drift_frame w w' : drift w w' -> frame w w'.
Proof.
  intros [h c t i s]. constructor; auto.
  intros G. rewrite G in c. exact c.
Qed.

Section Respects.

Variable R : World -> World -> Prop.
Hypothesis R_refl : forall w, R w w.
Hypothesis R_trans : forall w1 w2 w3, R w1 w2 -> R w2 w3 -> R w1 w3.

Lemma respects_ret {A : Type} (a : A) : respects R (ret a).
Proof. intros w r w' H. inversion H. auto. Qed.

Lemma respects_raise {A : Type} (e : exn) : respects R (@raise A e).
Proof. intros w r w' H. inversion H. auto. Qed.

Lemma respects_bind {A B : Type} (m : M A) (k : A -> M B) :
  respects R m -> (forall a, respects R (k a)) -> respects R (bind m k).
Proof.
  intros Hm Hk w r w' H. unfold bind in H.
  destruct (m w) as [[[a|e] w1]|] eqn:E; try discriminate.
  - eapply R_trans; [eapply Hm; eauto | eapply Hk; eauto].
  - inversion H; subst. eapply Hm; eauto.
Qed.

Lemma respects_try_finally {A : Type} (m : M A) (f : M unit) :
  respects R m -> respects R f -> respects R (try_finally m f).
Proof.
  intros Hm Hf w r w' H. unfold try_finally in H.
  destruct (m w) as [[r1 w1]|] eqn:E; try discriminate.
  destruct (f w1) as [[[u|e] w2]|] eqn:F; try discriminate;
    inversion H; subst; eapply R_trans; eauto.
Qed.

Lemma respects_except (m : M unit) :
  respects R m -> respects R (except_ProcessLookupError m).
Proof.
  intros Hm w r w' H. unfold except_ProcessLookupError in H.
  destruct (m w) as [[[u|e] w1]|] eqn:E; try discriminate.
  - inversion H; subst. eauto.
  - destruct e; inversion H; subst; eauto.
Qed.

End Respects.

Section PrimitiveFacts.

Variable env : Env.

Lemma tick_emit_drift e w : drift w (emit e (async env w)).
Proof. eapply drift_trans; [apply async_drift | apply drift_emit]. Qed.

Lemma tick_emit_time e w : w_time (emit e (async env w)) = S (w_time w).
Proof. exact (async_time env w). Qed.

Lemma tick_emit_emits e w :
  is_async e = false -> emits [e] w (emit e (async env w)).
Proof.
  intros H. change [e] with ([] ++ [e])%list.
  eapply emits_trans; [apply async_emits | now apply emits_emit].
Qed.

Lemma tick_emit_trace_ext (P : event -> bool) e w :
  (forall a, is_async a = true -> P a = true) -> P e = true ->
  is_async e = false -> trace_ext P w (emit e (async env w)).
Proof.
  intros HA HP HE. eapply emits_trace_ext; [exact HA| |now apply tick_emit_emits].
  simpl. now rewrite HP.
Qed.

Lemma kill_ok signum w :
  w_child (async env w) <> Gone ->
  exists w', kill env signum w = Some (Ok tt, w') /\
             drift w w' /\ emits [EvKill signum] w w' /\
             w_time w' = S (w_time w) /\
             (signum = SIGKILL -> exists st, w_child w' = Zombie st).
Proof.
  intros NG. unfold kill.
  pose proof (async_drift env w) as D.
  pose proof (async_emits env w) as E.
  pose proof (async_time env w) as T.
  set (w1 := async env w) in *.
  assert (D2 : drift w1 (emit (EvKill signum)
                (set_child (signal_child signum (w_child w1)) w1))).
  { constructor; simpl; auto.
    - destruct (w_child w1); simpl; auto.
      destruct (signum =? SIGKILL); congruence.
    - now exists [EvKill signum]. }
  assert (E2 : emits [EvKill signum] w
                 (emit (EvKill signum)
                    (set_child (signal_child signum (w_child w1)) w1))).
  { destruct E as [l [t m]]. exists (l ++ [EvKill signum])%list. simpl.
    rewrite t, app_assoc, mainline_app, m. auto. }
  assert (K : signum = SIGKILL -> exists st,
            signal_child signum (w_child w1) = Zombie st).
  { intros ->. destruct (w_child w1); simpl; eauto. congruence. }
  destruct (w_child w1) eqn:C; try congruence;
    (eexists; split; [reflexivity|];
     split; [eapply drift_trans; eassumption|];
     split; [exact E2|]; split; [exact T|];
     intros Hk; destruct (K Hk) as [st Hst]; exists st; simpl; exact Hst).
Qed.

Lemma kill_frame signum : respects frame (kill env signum).
Proof.
  intros w r w' H. unfold kill in H.
  pose proof (async_drift env w) as D. set (w1 := async env w) in *.
  destruct (w_child w1) eqn:C; inversion H; subst; clear H;
    try (apply drift_frame; exact D);
    (eapply frame_trans; [apply drift_frame; exact D|]);
    constructor; simpl; auto; try congruence;
    now exists [EvKill signum].
Qed.

Lemma reap_frame options w r w' :
  reap env options w = Some (r, w') -> frame w w'.
Proof.
  unfold reap. destruct (w_child w) eqn:C; intros H; inversion H; subst;
    constructor; simpl; auto; eauto.
Qed.

Lemma waitpid_nohang_frame : respects frame (waitpid_nohang env).
Proof.
  intros w r w' H. unfold waitpid_nohang in H.
  pose proof (async_drift env w) as D. set (w1 := async env w) in *.
  eapply frame_trans; [apply drift_frame; exact D|].
  destruct (reap env WNOHANG w1) as [[r1 w2]|] eqn:Rp.
  - inversion H; subst. eapply reap_frame; eauto.
  - inversion H; subst. apply drift_frame, drift_emit.
Qed.

Lemma waitpid_block_frame fuel : respects frame (waitpid_block env fuel).
Proof.
  induction fuel as [|fuel IH]; intros w r w' H; simpl in H; [discriminate|].
  pose proof (async_drift env w) as D. set (w1 := async env w) in *.
  eapply frame_trans; [apply drift_frame; exact D|].
  destruct (reap env 0 w1) as [[r1 w2]|] eqn:Rp.
  - inversion H; subst. eapply reap_frame; eauto.
  - eapply IH; eauto.
Qed.

Lemma print_err_frame s : respects frame (print_err env s).
Proof.
  intros w r w' H. inversion H; subst. apply drift_frame, tick_emit_drift.
Qed.

Lemma sleep_frame d : respects frame (sleep env d).
Proof.
  intros w r w' H. inversion H; subst. apply drift_frame, tick_emit_drift.
Qed.

Lemma monotonic_frame : respects frame (monotonic env).
Proof.
  intros w r w' H. inversion H; subst. apply drift_frame, tick_emit_drift.
Qed.

End PrimitiveFacts.

Lemma bind_ok {A B : Type} (m : M A) (k : A -> M B) w a w1 :
  m w = Some (Ok a, w1) -> bind m k w = k a w1.
Proof. intros H. unfold bind. now rewrite H. Qed.

Lemma drift_alive w w' : drift w w' -> w_child w <> Gone -> w_child w' <> Gone.
Proof.
  intros [_ c _ _ _] NG. destruct (w_child w); simpl in c; congruence.
Qed.

Lemma drift_zombie w w' st :
  drift w w' -> w_child w = Zombie st -> w_child w' = Zombie st.
Proof. intros [_ c _ _ _] Z. rewrite Z in c. exact c. Qed.

Section WaitFacts.

Variable env : Env.

Lemma reaped_frame w w' : reaped env w -> frame w w' -> reaped env w'.
Proof.
  intros [G [o [st I]]] [_ g [l t] _ _]. split; [auto|].
  exists o, st. rewrite t. apply in_or_app. now left.
Qed.

Lemma reap_zombie options w st :
  w_child w = Zombie st ->
  let w' := emit (EvWait options (pid env) st) (set_child Gone w) in
  reap env options w = Some (Ok (pid env, st), w') /\
  reaped env w' /\ frame w w' /\ emits [EvWait options (pid env) st] w w' /\
  w_time w' = w_time w.
Proof.
  intros Z. unfold reap. rewrite Z. simpl. split; [reflexivity|].
  split; [|split; [|split]].
  - split; [reflexivity|]. exists options, st. simpl.
    apply in_or_app. right. now left.
  - constructor; simpl; auto; eauto.
  - exists [EvWait options (pid env) st]. split; reflexivity.
  - reflexivity.
Qed.

(** The three things a non-blocking wait can find. *)
Lemma waitpid_nohang_cases w :
  (exists st w', waitpid_nohang env w = Some (Ok (pid env, st), w') /\
      w_child (async env w) = Zombie st /\
      reaped env w' /\ frame w w' /\ emits [EvWait WNOHANG (pid env) st] w w' /\
      w_time w' = S (w_time w)) \/
  (exists w', waitpid_nohang env w = Some (Raise ChildProcessError, w') /\
      w_child (async env w) = Gone) \/
  (exists own w', waitpid_nohang env w = Some (Ok (0, 0), w') /\
      w_child w' = Running own /\
      drift w w' /\ emits [EvWait WNOHANG 0 0] w w' /\
      w_time w' = S (w_time w)).
Proof.
  unfold waitpid_nohang.
  pose proof (async_drift env w) as D.
  pose proof (async_emits env w) as E.
  pose proof (async_time env w) as T.
  set (w1 := async env w) in *.
  destruct (w_child w1) as [own|st|] eqn:C.
  - right; right. exists own. eexists. unfold reap. rewrite C.
    split; [reflexivity|]. split; [exact C|]. split; [|split].
    + eapply drift_trans; [exact D | apply drift_emit].
    + change [EvWait WNOHANG 0 0] with ([] ++ [EvWait WNOHANG 0 0])%list.
      eapply emits_trans; [exact E | now apply emits_emit].
    + exact T.
  - left. exists st. eexists.
    destruct (reap_zombie WNOHANG w1 st C) as [Rp [Rd [F [Em Tm]]]].
    rewrite Rp. split; [reflexivity|]. split; [reflexivity|].
    split; [exact Rd|]. split; [|split].
    + eapply frame_trans; [apply drift_frame; exact D | exact F].
    + change [EvWait WNOHANG (pid env) st]
        with ([] ++ [EvWait WNOHANG (pid env) st])%list.
      eapply emits_trans; [exact E | exact Em].
    + rewrite Tm. exact T.
  - right; left. eexists. unfold reap. rewrite C. split; reflexivity.
Qed.

(** A blocking wait that comes back with a result has collected the
    child. *)
Lemma waitpid_block_reaps fuel : forall w r w',
  waitpid_block env fuel w = Some (Ok r, w') ->
  reaped env w' /\ fst r = pid env /\ emits [EvWait 0 (pid env) (snd r)] w w'.
Proof.
  induction fuel as [|fuel IH]; intros w r w' H; simpl in H; [discriminate|].
  pose proof (async_emits env w) as E. set (w1 := async env w) in *.
  unfold reap in H. destruct (w_child w1) as [own|st|] eqn:C.
  - destruct (IH _ _ _ H) as [Rd [P Em]]. split; [exact Rd|].
    split; [exact P|].
    change [EvWait 0 (pid env) (snd r)]
      with ([] ++ [EvWait 0 (pid env) (snd r)])%list.
    eapply emits_trans; eauto.
  - destruct (reap_zombie 0 w1 st C) as [_ [Rd [_ [Em _]]]].
    inversion H; subst; clear H. simpl. split; [exact Rd|].
    split; [reflexivity|].
    change [EvWait 0 (pid env) st] with ([] ++ [EvWait 0 (pid env) st])%list.
    eapply emits_trans; eauto.
  - discriminate.
Qed.

(** Once the child is a zombie a blocking wait returns at its first try. *)
Lemma waitpid_block_zombie fuel w st :
  w_child w = Zombie st ->
  exists w', waitpid_block env (S fuel) w = Some (Ok (pid env, st), w') /\
             reaped env w' /\ frame w w' /\ emits [EvWait 0 (pid env) st] w w' /\
             w_time w' = S (w_time w).
Proof.
  intros Z. simpl.
  pose proof (async_drift env w) as D.
  pose proof (async_emits env w) as E.
  pose proof (async_time env w) as T.
  set (w1 := async env w) in *.
  assert (C : w_child w1 = Zombie st) by (eapply drift_zombie; eauto).
  destruct (reap_zombie 0 w1 st C) as [Rp [Rd [F [Em Tm]]]].
  rewrite Rp. eexists. split; [reflexivity|]. split; [exact Rd|].
  split; [|split].
  - eapply frame_trans; [apply drift_frame; exact D | exact F].
  - change [EvWait 0 (pid env) st] with ([] ++ [EvWait 0 (pid env) st])%list.
    eapply emits_trans; eauto.
  - rewrite Tm. exact T.
Qed.

End WaitFacts.

Section LoopFacts.

Variable env : Env.
Variable sp : Spinner.

Lemma timeout_path_spec fuel w :
  w_child w <> Gone ->
  (exists w' tail,
      timeout_path env fuel w = Some (Ok (Return 124), w') /\
      reaped env w' /\ frame w w' /\
      emits (timeout_events ++ tail) w w' /\ escalation env tail) \/
  (fuel = 0%nat /\ timeout_path env fuel w = None).
Proof.
  intros NG. unfold timeout_path.
  (* print *)
  set (w1 := emit (EvStderr ((NL ++ "Process timed out.") ++ NL)) (async env w)).
  assert (D1 : drift w w1) by apply tick_emit_drift.
  assert (E1 : emits [EvStderr ((NL ++ "Process timed out.") ++ NL)] w w1)
    by now apply tick_emit_emits.
  rewrite (bind_ok (print_err env (NL ++ "Process timed out.")) _ w tt w1 eq_refl).
  (* kill SIGTERM *)
  destruct (kill_ok env SIGTERM w1) as [w2 [K2 [D2 [E2 _]]]].
  { eapply drift_alive; [apply async_drift|]. eapply drift_alive; eauto. }
  rewrite (bind_ok _ _ w1 tt w2 K2).
  (* sleep *)
  set (w3 := emit (EvSleep 1) (async env w2)).
  assert (D3 : drift w2 w3) by apply tick_emit_drift.
  assert (E3 : emits [EvSleep 1] w2 w3) by now apply tick_emit_emits.
  rewrite (bind_ok (sleep env 1) _ w2 tt w3 eq_refl).
  assert (D03 : drift w w3) by eauto using drift_trans.
  assert (E03 : emits timeout_events w w3).
  { change timeout_events with
      (([EvStderr ((NL ++ "Process timed out.") ++ NL)] ++ [EvKill SIGTERM])
         ++ [EvSleep 1])%list.
    eapply emits_trans; [|exact E3]. eapply emits_trans; eassumption. }
  assert (A3 : w_child w3 <> Gone) by (eapply drift_alive; eauto).
  (* the re-check *)
  destruct (waitpid_nohang_cases env w3)
    as [[st [w4 [W4 [_ [R4 [F4 [E4 _]]]]]]]
       |[[w4 [_ G4]]
        |[own [w4 [W4 [C4 [D4 [E4 _]]]]]]]].
  - left. exists w4, [EvWait WNOHANG (pid env) st].
    split; [|split; [exact R4|split; [|split]]].
    + unfold bind at 1, except_ProcessLookupError, bind at 1.
      rewrite W4. reflexivity.
    + eapply frame_trans; [apply drift_frame; exact D03 | exact F4].
    + exact (emits_trans _ _ _ _ _ E03 E4).
    + left. eauto.
  - exfalso. eapply drift_alive; [apply async_drift| |exact G4]. exact A3.
  - destruct (kill_ok env SIGKILL w4) as [w5 [K5 [D5 [E5 [_ Z5]]]]].
    { eapply drift_alive; [apply async_drift|]. congruence. }
    destruct (Z5 eq_refl) as [st C5].
    assert (E05 : emits (timeout_events ++ [EvWait WNOHANG 0 0; EvKill SIGKILL])
                    w w5).
    { change [EvWait WNOHANG 0 0; EvKill SIGKILL]
        with ([EvWait WNOHANG 0 0] ++ [EvKill SIGKILL])%list.
      eapply emits_trans; [exact E03|]. eapply emits_trans; eassumption. }
    destruct fuel as [|fuel].
    + right. split; [reflexivity|].
      unfold bind at 1, except_ProcessLookupError, bind at 1.
      rewrite W4. simpl. unfold bind at 1. rewrite K5. reflexivity.
    + left.
      destruct (waitpid_block_zombie env fuel w5 st C5)
        as [w6 [W6 [R6 [F6 [E6 _]]]]].
      exists w6, [EvWait WNOHANG 0 0; EvKill SIGKILL; EvWait 0 (pid env) st].
      split; [|split; [exact R6|split; [|split]]].
      * unfold bind at 1, except_ProcessLookupError, bind at 1.
        rewrite W4. cbn [fst Z.eqb]. unfold bind at 1. rewrite K5.
        unfold bind at 1. rewrite W6. reflexivity.
      * eapply frame_trans; [apply drift_frame; exact D03|].
        eapply frame_trans; [apply drift_frame; exact D4|].
        eapply frame_trans; [apply drift_frame; exact D5 | exact F6].
      * change [EvWait WNOHANG 0 0; EvKill SIGKILL; EvWait 0 (pid env) st]
          with ([EvWait WNOHANG 0 0; EvKill SIGKILL]
                  ++ [EvWait 0 (pid env) st])%list.
        rewrite app_assoc. exact (emits_trans _ _ _ _ _ E05 E6).
      * right. eauto.
Qed.

Lemma animate_ok i w :
  exists w', animate env i w = Some (Ok tt, w') /\ drift w w' /\
             emits [EvStdout (glyph i); EvSleep (1 # 5); EvStdout BS] w w' /\
             w_time w' = S (S (S (w_time w))).
Proof.
  unfold animate.
  set (w1 := emit (EvStdout (glyph i)) (async env w)).
  set (w2 := emit (EvSleep (1 # 5)) (async env w1)).
  set (w3 := emit (EvStdout BS) (async env w2)).
  exists w3. split; [reflexivity|]. split; [|split].
  - eapply drift_trans; [apply tick_emit_drift|].
    eapply drift_trans; apply tick_emit_drift.
  - change [EvStdout (glyph i); EvSleep (1 # 5); EvStdout BS]
      with ([EvStdout (glyph i)] ++ [EvSleep (1 # 5)] ++ [EvStdout BS])%list.
    apply (emits_trans _ _ w w1 w3); [apply tick_emit_emits; reflexivity|].
    apply (emits_trans _ _ w1 w2 w3); apply tick_emit_emits; reflexivity.
  - unfold w3, w2, w1. now rewrite !tick_emit_time.
Qed.

Lemma monotonic_ok w :
  let now := tk_now (env_ticks env (w_time w)) in
  let w' := emit (EvClock now) (async env w) in
  monotonic env w = Some (Ok now, w') /\ drift w w' /\
  emits [EvClock now] w w' /\ w_time w' = S (w_time w).
Proof.
  simpl. split; [reflexivity|]. split; [apply tick_emit_drift|].
  split; [now apply tick_emit_emits|]. exact (async_time env w).
Qed.

Lemma interrupted_path_unfold fuel :
  interrupted_path env fuel =
  (sleep env (1 # 10) ;;; _ <- waitpid_block env fuel ;; report env).
Proof. reflexivity. Qed.

Lemma report_frame : respects frame (report env).
Proof.
  intros w r w' H. unfold report in H.
  destruct (w_signal_received w).
  - revert H. apply (respects_bind frame frame_trans);
      [apply print_err_frame|].
    intros _ w1 r1 w1' H1. destruct (w_signal_received w1);
      inversion H1; apply frame_refl.
  - revert H. apply (respects_bind frame frame_trans);
      [apply print_err_frame|].
    intros _. apply respects_ret, frame_refl.
Qed.

Lemma interrupted_path_frame fuel : respects frame (interrupted_path env fuel).
Proof.
  rewrite interrupted_path_unfold.
  apply (respects_bind frame frame_trans); [apply sleep_frame|]. intros _.
  apply (respects_bind frame frame_trans); [apply waitpid_block_frame|].
  intros _. apply report_frame.
Qed.

Lemma timeout_path_frame fuel : respects frame (timeout_path env fuel).
Proof.
  unfold timeout_path.
  apply (respects_bind frame frame_trans); [apply print_err_frame|]. intros _.
  apply (respects_bind frame frame_trans); [apply kill_frame|]. intros _.
  apply (respects_bind frame frame_trans); [apply sleep_frame|]. intros _.
  apply (respects_bind frame frame_trans).
  - apply respects_except.
    apply (respects_bind frame frame_trans); [apply waitpid_nohang_frame|].
    intros r. destruct (fst r =? 0).
    + apply (respects_bind frame frame_trans); [apply kill_frame|]. intros _.
      apply (respects_bind frame frame_trans); [apply waitpid_block_frame|].
      intros _. apply respects_ret, frame_refl.
    + apply respects_ret, frame_refl.
  - intros _. apply respects_ret, frame_refl.
Qed.

Lemma animate_frame i : respects frame (animate env i).
Proof.
  intros w r w' H. destruct (animate_ok i w) as [w1 [A [D _]]].
  rewrite A in H. inversion H; subst. now apply drift_frame.
Qed.

Lemma spin_loop_frame fuel : forall i start,
  respects frame (spin_loop env sp fuel i start).
Proof.
  induction fuel as [|fuel IH]; intros i start w r w' H; simpl in H;
    [discriminate|].
  destruct (w_interrupted w).
  - eapply interrupted_path_frame; eauto.
  - revert H. apply (respects_bind frame frame_trans);
      [apply waitpid_nohang_frame|].
    intros r0. destruct (negb (fst r0 =? 0)).
    + apply respects_ret, frame_refl.
    + destruct (max_duration sp) as [m|].
      * apply (respects_bind frame frame_trans); [apply monotonic_frame|].
        intros now. destruct (timed_out start now m).
        -- apply timeout_path_frame.
        -- apply (respects_bind frame frame_trans); [apply animate_frame|].
           intros _. apply IH.
      * apply (respects_bind frame frame_trans); [apply animate_frame|].
        intros _. apply IH.
Qed.

Lemma guarded_body_frame fuel i start :
  respects frame (guarded_body env sp fuel i start).
Proof.
  unfold guarded_body.
  apply (respects_bind frame frame_trans); [apply spin_loop_frame|].
  intros [st|code]; apply respects_ret, frame_refl.
Qed.

(** Whenever the loop is left, by [break] or by [return], the child has
    been collected. *)
Lemma spin_loop_reaps fuel : forall i start w x w',
  spin_loop env sp fuel i start w = Some (Ok x, w') -> reaped env w'.
Proof.
  induction fuel as [|fuel IH]; intros i start w x w' H; simpl in H;
    [discriminate|].
  destruct (w_interrupted w).
  - rewrite interrupted_path_unfold in H. unfold bind at 1 in H.
    simpl in H. unfold bind at 1 in H.
    destruct (waitpid_block env fuel _) as [[[r|e] w2]|] eqn:W;
      try discriminate.
    apply waitpid_block_reaps in W. destruct W as [Rd _].
    eapply reaped_frame; [exact Rd|]. eapply report_frame; eauto.
  - unfold bind at 1 in H.
    destruct (waitpid_nohang_cases env w)
      as [[st [w4 [W4 [_ [R4 _]]]]]
         |[[w4 [W4 _]]
          |[own [w4 [W4 [C4 [D4 _]]]]]]]; rewrite W4 in H.
    + simpl in H. inversion H; subst. exact R4.
    + discriminate.
    + cbn [fst snd Z.eqb negb] in H.
      assert (Go : forall w5, drift w4 w5 ->
                (animate env i ;;; spin_loop env sp fuel (S i) start) w5
                  = Some (Ok x, w') -> reaped env w').
      { intros w5 D5 H5. destruct (animate_ok i w5) as [w6 [A _]].
        rewrite (bind_ok _ _ _ _ _ A) in H5. eapply IH; eauto. }
      destruct (max_duration sp) as [m|].
      * destruct (monotonic_ok w4) as [Mo [D5 _]].
        rewrite (bind_ok _ _ _ _ _ Mo) in H.
        destruct (timed_out start _ m).
        -- destruct (timeout_path_spec fuel
                      (emit (EvClock (tk_now (env_ticks env (w_time w4))))
                         (async env w4)))
             as [[w7 [tail [T7 [R7 _]]]]|[_ T7]].
           ++ eapply drift_alive; [exact D5|]. congruence.
           ++ rewrite T7 in H. inversion H; subst. exact R7.
           ++ rewrite T7 in H. discriminate.
        -- eapply Go; eauto.
      * eapply Go; [apply drift_refl | eauto].
Qed.

End LoopFacts.

(* ================================================================== *)
(** ** The clean-up of the [finally] clause *)

Lemma keeps_refl w : keeps w w.
Proof. constructor; auto. exists []. now rewrite app_nil_r. Qed.

Lemma keeps_trans w1 w2 w3 : keeps w1 w2 -> keeps w2 w3 -> keeps w1 w3.
Proof.
  intros [g1 [l1 t1]] [g2 [l2 t2]]. constructor; auto.
  exists (l1 ++ l2)%list. now rewrite t2, t1, app_assoc.
Qed.

Lemma frame_keeps w w' : frame w w' -> keeps w w'.
Proof. intros [_ g t _ _]. now constructor. Qed.

Lemma reaped_keeps env w w' : reaped env w -> keeps w w' -> reaped env w'.
Proof.
  intros [G [o [st I]]] [g [l t]]. split; [auto|].
  exists o, st. rewrite t. apply in_or_app. now left.
Qed.

Lemma cursor_step_async e b : is_async e = true -> cursor_step b e = b.
Proof. destruct e; simpl; congruence. Qed.

Lemma cursor_fold_mainline l : forall b,
  fold_left cursor_step l b = fold_left cursor_step (mainline l) b.
Proof.
  induction l as [|e l IH]; intros b; simpl; [reflexivity|].
  destruct (is_async e) eqn:A; simpl.
  - rewrite cursor_step_async by exact A. apply IH.
  - apply IH.
Qed.

Lemma cursor_visible_emits ev w w' :
  emits ev w w' ->
  cursor_visible (w_trace w') = fold_left cursor_step ev (cursor_visible (w_trace w)).
Proof.
  intros [l [t m]]. unfold cursor_visible.
  now rewrite t, fold_left_app, (cursor_fold_mainline l), m.
Qed.

Section CleanUp.

Variable env : Env.
Variable sp : Spinner.

Lemma signal_ok signum h w :
  exists w', signal env signum h w = Some (Ok (w_handlers w signum), w') /\
             w_handlers w' = (fun s => if s =? signum then h else w_handlers w s) /\
             emits [EvSignalSet signum h] w w' /\
             evolves (w_child w) (w_child w') /\
             w_time w' = S (w_time w).
Proof.
  unfold signal.
  pose proof (async_drift env w) as [Dh Dc _ _ _].
  pose proof (async_emits env w) as E.
  pose proof (async_time env w) as T.
  set (w1 := async env w) in *.
  eexists. split; [rewrite Dh; reflexivity|]. simpl. rewrite Dh.
  split; [reflexivity|]. split; [|split; [exact Dc | exact T]].
  destruct E as [l [t m]]. exists (l ++ [EvSignalSet signum h])%list.
  simpl. now rewrite t, app_assoc, mainline_app, m.
Qed.

Lemma restore_spec oi ot oq w :
  exists w', restore env oi ot oq w = Some (Ok tt, w') /\
    w_handlers w' =
      (fun s => if s =? SIGQUIT then oq else if s =? SIGTERM then ot
                else if s =? SIGINT then oi else w_handlers w s) /\
    emits (restore_events oi ot oq) w w' /\
    keeps w w' /\
    cursor_visible (w_trace w') = true.
Proof.
  unfold restore.
  destruct (signal_ok SIGINT oi w) as [w1 [S1 [H1 [E1 [C1 _]]]]].
  destruct (signal_ok SIGTERM ot w1) as [w2 [S2 [H2 [E2 [C2 _]]]]].
  destruct (signal_ok SIGQUIT oq w2) as [w3 [S3 [H3 [E3 [C3 _]]]]].
  set (w4 := emit (EvStdout SHOW_CURSOR) (async env w3)).
  set (w5 := emit (EvStdout NL) (async env w4)).
  assert (E : emits (restore_events oi ot oq) w w5).
  { change (restore_events oi ot oq) with
      ([EvSignalSet SIGINT oi] ++ [EvSignalSet SIGTERM ot] ++
       [EvSignalSet SIGQUIT oq] ++ [EvStdout SHOW_CURSOR] ++ [EvStdout NL])%list.
    apply (emits_trans _ _ w w1 w5 E1).
    apply (emits_trans _ _ w1 w2 w5 E2).
    apply (emits_trans _ _ w2 w3 w5 E3).
    apply (emits_trans _ _ w3 w4 w5); apply tick_emit_emits; reflexivity. }
  assert (D45 : drift w3 w5).
  { eapply drift_trans; apply tick_emit_drift. }
  exists w5. split; [|split; [|split; [exact E|split]]].
  - rewrite (bind_ok _ _ _ _ _ S1), (bind_ok _ _ _ _ _ S2),
      (bind_ok _ _ _ _ _ S3). reflexivity.
  - rewrite (drift_handlers _ _ D45), H3, H2, H1. reflexivity.
  - constructor.
    + intros G. rewrite G in C1. rewrite C1 in C2. rewrite C2 in C3.
      pose proof (drift_child _ _ D45) as C5. rewrite C3 in C5. exact C5.
    + destruct E as [l [t _]]. eauto.
  - rewrite (cursor_visible_emits _ _ _ E). reflexivity.
Qed.

(** How the guarded block ends, given how its body ends. *)
Lemma guarded_finish fuel i start oi ot oq w r w1 :
  guarded_body env sp fuel i start w = Some (r, w1) ->
  exists w2, guarded env sp fuel i start oi ot oq w = Some (r, w2) /\
    w_handlers w2 =
      (fun s => if s =? SIGQUIT then oq else if s =? SIGTERM then ot
                else if s =? SIGINT then oi else w_handlers w s) /\
    emits (restore_events oi ot oq) w1 w2 /\
    keeps w1 w2 /\
    cursor_visible (w_trace w2) = true.
Proof.
  intros B. destruct (restore_spec oi ot oq w1) as [w2 [Rs [H [E [K V]]]]].
  exists w2. unfold guarded, try_finally. rewrite B, Rs.
  split; [reflexivity|]. split; [|auto].
  rewrite H. now rewrite (frame_handlers _ _ (guarded_body_frame env sp fuel i start _ _ _ B)).
Qed.

Lemma guarded_inv fuel i start oi ot oq w r w2 :
  guarded env sp fuel i start oi ot oq w = Some (r, w2) ->
  exists w1, guarded_body env sp fuel i start w = Some (r, w1) /\
             restore env oi ot oq w1 = Some (Ok tt, w2).
Proof.
  unfold guarded, try_finally. intros H.
  destruct (guarded_body env sp fuel i start w) as [[r1 w1]|]; [|discriminate].
  destruct (restore_spec oi ot oq w1) as [w2' [Rs _]]. rewrite Rs in *.
  inversion H; subst. eauto.
Qed.

End CleanUp.

(** An iteration that finds no interruption, a running child and no
    timeout hands over to the next one: the guarded block "from the top of
    iteration [i]" is what remains of a run at that point. *)
Lemma guarded_next_iteration env sp fuel i start oi ot oq w own :
  w_interrupted w = false ->
  w_child (async env w) = Running own ->
  (forall m, max_duration sp = Some m ->
     timed_out start (tk_now (env_ticks env (S (w_time w)))) m = false) ->
  exists w1,
    drift w w1 /\
    guarded env sp (S fuel) i start oi ot oq w =
    guarded env sp fuel (S i) start oi ot oq w1.
Proof.
  intros I C NT.
  set (w0 := emit (EvWait WNOHANG 0 0) (async env w)).
  assert (D0 : drift w w0) by apply tick_emit_drift.
  assert (Step : forall w', drift w w' ->
            (animate env i ;;; spin_loop env sp fuel (S i) start) w' =
            spin_loop env sp (S fuel) i start w ->
            exists w1, drift w w1 /\
              guarded env sp (S fuel) i start oi ot oq w =
              guarded env sp fuel (S i) start oi ot oq w1).
  { intros w' D' L. destruct (animate_ok env i w') as [w1 [A [D1 _]]].
    rewrite (bind_ok _ _ _ _ _ A) in L. exists w1.
    split; [eapply drift_trans; eauto|].
    unfold guarded, try_finally, guarded_body, bind. now rewrite <- L. }
  assert (P : spin_loop env sp (S fuel) i start w =
              match max_duration sp with
              | Some m =>
                  (now <- monotonic env ;;
                   if timed_out start now m then timeout_path env fuel
                   else (animate env i ;;; spin_loop env sp fuel (S i) start)) w0
              | None => (animate env i ;;; spin_loop env sp fuel (S i) start) w0
              end).
  { cbn [spin_loop]. rewrite I. unfold bind at 1, waitpid_nohang, reap.
    rewrite C. cbn [fst snd Z.eqb negb]. now destruct (max_duration sp). }
  destruct (max_duration sp) as [m|] eqn:MD.
  - unfold bind at 1, monotonic in P.
    change (w_time w0) with (w_time (async env w)) in P.
    rewrite (async_time env w), (NT m eq_refl) in P.
    eapply Step; [|symmetry; exact P].
    eapply drift_trans; [exact D0 | apply tick_emit_drift].
  - eapply Step; [exact D0 | symmetry; exact P].
Qed.

Section Supervise.

Variable env : Env.
Variable sp : Spinner.

(** [supervise] is the guarded block, entered with the three handlers
    installed and the caller's handlers remembered. *)
Lemma supervise_unfold fuel w :
  let start := tk_now (env_ticks env (w_time w)) in
  exists w3,
    supervise env sp fuel w =
      guarded env sp fuel 0 start (w_handlers w SIGINT)
        (w_handlers w SIGTERM) (w_handlers w SIGQUIT) w3 /\
    w_handlers w3 =
      (fun s => if s =? SIGQUIT then SigHandler
                else if s =? SIGTERM then SigHandler
                else if s =? SIGINT then SigHandler else w_handlers w s) /\
    emits (install_events start) w w3 /\
    evolves (w_child w) (w_child w3) /\
    w_time w3 = (4 + w_time w)%nat.
Proof.
  intros start. unfold supervise.
  destruct (monotonic_ok env w) as [Mo [D0 [E0 T0]]].
  fold start in Mo, D0, E0, T0.
  set (w0 := emit (EvClock start) (async env w)) in *.
  destruct (signal_ok env SIGINT SigHandler (init_flags w0))
    as [w1 [S1 [H1 [E1 [C1 T1]]]]].
  destruct (signal_ok env SIGTERM SigHandler w1) as [w2 [S2 [H2 [E2 [C2 T2]]]]].
  destruct (signal_ok env SIGQUIT SigHandler w2) as [w3 [S3 [H3 [E3 [C3 T3]]]]].
  assert (Hw0 : w_handlers (init_flags w0) = w_handlers w)
    by exact (drift_handlers _ _ D0).
  exists w3. split; [|split; [|split; [|split]]].
  - rewrite (bind_ok _ _ _ _ _ Mo). unfold bind at 1. cbn [ret].
    rewrite (bind_ok _ _ _ _ _ S1), (bind_ok _ _ _ _ _ S2),
      (bind_ok _ _ _ _ _ S3).
    rewrite H2, H1, Hw0. reflexivity.
  - rewrite H3, H2, H1, Hw0. reflexivity.
  - change (install_events start) with
      ([EvClock start] ++ [EvSignalSet SIGINT SigHandler] ++
       [EvSignalSet SIGTERM SigHandler] ++ [EvSignalSet SIGQUIT SigHandler])%list.
    apply (emits_trans _ _ w w0 w3 E0).
    apply (emits_trans _ _ w0 w1 w3); [exact E1|].
    apply (emits_trans _ _ w1 w2 w3 E2 E3).
  - eapply evolves_trans; [exact (drift_child _ _ D0)|].
    eapply evolves_trans; [exact C1|].
    eapply evolves_trans; [exact C2 | exact C3].
  - rewrite T3, T2, T1. change (w_time (init_flags w0)) with (w_time w0).
    rewrite T0. reflexivity.
Qed.

Lemma emits_keeps_trace ev w w' :
  emits ev w w' -> exists l, w_trace w' = (w_trace w ++ l)%list.
Proof. intros [l [t _]]. eauto. Qed.

Lemma guarded_keeps fuel i start oi ot oq :
  respects keeps (guarded env sp fuel i start oi ot oq).
Proof.
  intros w r w2 H. destruct (guarded_inv env sp _ _ _ _ _ _ _ _ _ H)
    as [w1 [B Rs]].
  destruct (restore_spec env oi ot oq w1) as [w2' [Rs' [_ [_ [K _]]]]].
  rewrite Rs in Rs'. inversion Rs'; subst.
  eapply keeps_trans; [|exact K].
  apply frame_keeps. eapply guarded_body_frame; eauto.
Qed.

Lemma supervise_keeps fuel : respects keeps (supervise env sp fuel).
Proof.
  intros w r w' H.
  destruct (supervise_unfold fuel w) as [w3 [U [_ [E [C _]]]]].
  rewrite U in H. eapply keeps_trans; [|eapply guarded_keeps; eauto].
  constructor.
  - intros G. rewrite G in C. exact C.
  - eapply emits_keeps_trace; eauto.
Qed.


(** A code handed back by [supervise] means the child was collected. *)
Lemma supervise_reaps fuel w code w' :
  supervise env sp fuel w = Some (Ok code, w') -> reaped env w'.
Proof.
  intros H. destruct (supervise_unfold fuel w) as [w3 [U _]].
  rewrite U in H.
  destruct (guarded_inv env sp _ _ _ _ _ _ _ _ _ H) as [w1 [B Rs]].
  destruct (restore_spec env (w_handlers w SIGINT) (w_handlers w SIGTERM)
              (w_handlers w SIGQUIT) w1) as [w2 [Rs' [_ [_ [[g [l t]] _]]]]].
  rewrite Rs in Rs'. inversion Rs'; subst.
  unfold guarded_body, bind in B.
  destruct (spin_loop env sp fuel 0 _ w3) as [[[x|e] w4]|] eqn:L;
    try discriminate.
  apply spin_loop_reaps in L.
  assert (w4 = w1) by (destruct x; inversion B; reflexivity). subst w4.
  destruct L as [G [o [st I]]]. split; [auto|].
  exists o, st. rewrite t. apply in_or_app. now left.
Qed.

End Supervise.

(* ================================================================== *)
(** ** Runs without interruption and without timeout *)

Section QuietRun.

Variable env : Env.
Variable sp : Spinner.
Variable n : nat.
Variable s : Z.
Variable own : option Z.

Hypothesis env_quiet : quiet env.
Hypothesis env_patient : never_times_out env sp.
Hypothesis env_ends : terminates_at env n s.

Lemma async_quiet w :
  async env w =
  mkWorld (child_update (env_ticks env (w_time w)) (w_child w))
          (w_interrupted w) (w_signal_received w) (w_handlers w)
          (S (w_time w)) (w_trace w).
Proof. unfold async. now rewrite env_quiet. Qed.

Lemma async_on_course w : on_course n s own w -> on_course n s own (async env w).
Proof.
  intros [I C]. rewrite async_quiet. split; [exact I|]. simpl.
  destruct env_ends as [En Eb].
  destruct C as [Z|[R T]].
  - left. rewrite Z. reflexivity.
  - rewrite R. destruct (Nat.eq_dec (w_time w) n) as [->|NE].
    + left. unfold child_update. rewrite En. now destruct own.
    + right. unfold child_update. rewrite Eb by lia.
      split; [now destruct own | lia].
Qed.

Lemma tick_emit_on_course e w : on_course n s own w -> on_course n s own (emit e (async env w)).
Proof. intros H. exact (async_on_course w H). Qed.

Lemma animate_on_course i w :
  on_course n s own w ->
  exists w', animate env i w = Some (Ok tt, w') /\ on_course n s own w' /\
             (w_time w < w_time w')%nat.
Proof.
  intros H. destruct (animate_ok env i w) as [w' [A [_ [_ T]]]].
  exists w'. split; [exact A|]. split; [|lia].
  unfold animate, bind, print_out, sleep in A. inversion A; subst.
  now repeat apply tick_emit_on_course.
Qed.

(** Left alone, the loop polls until the child has ended and breaks
    with its status. *)
Lemma spin_loop_quiet fuel : forall i w,
  on_course n s own w -> (n - w_time w < fuel)%nat ->
  exists w', spin_loop env sp fuel i (tk_now (env_ticks env 0)) w
             = Some (Ok (Break (final_status own s)), w').
Proof.
  induction fuel as [|fuel IH]; intros i w OC F; [lia|].
  pose proof (async_on_course w OC) as [I1 C1].
  pose proof (async_time env w) as T1.
  simpl. rewrite (proj1 OC). unfold bind at 1, waitpid_nohang, reap.
  destruct C1 as [Z1|[R1 L1]].
  - rewrite Z1. simpl. eexists. reflexivity.
  - rewrite R1. cbn [fst snd Z.eqb negb].
    set (w1 := emit (EvWait WNOHANG 0 0) (async env w)).
    assert (OC1 : on_course n s own w1) by (split; [exact I1 | right; auto]).
    assert (Go : forall w2, on_course n s own w2 -> (w_time w < w_time w2)%nat ->
              exists w', (animate env i ;;;
                          spin_loop env sp fuel (S i) (tk_now (env_ticks env 0))) w2
                         = Some (Ok (Break (final_status own s)), w')).
    { intros w2 OC2 T2. destruct (animate_on_course i w2 OC2) as [w3 [A [OC3 T3]]].
      rewrite (bind_ok _ _ _ _ _ A). apply IH; [exact OC3 | lia]. }
    destruct (max_duration sp) as [m|] eqn:MD.
    + unfold bind at 1, monotonic.
      rewrite (env_patient m _ MD).
      apply Go; [now apply tick_emit_on_course|].
      rewrite tick_emit_time. unfold w1. simpl. lia.
    + apply Go; [exact OC1 | unfold w1; simpl; lia].
Qed.

(** So does the whole parent: it returns what the status translates to. *)
Lemma supervise_quiet fuel w :
  on_course n s own w -> w_time w = 0%nat -> (n < fuel)%nat ->
  exists w', supervise env sp fuel w
             = Some (Ok (exit_code (final_status own s)), w').
Proof.
  intros OC T0 F. unfold supervise.
  rewrite (bind_ok _ _ _ _ _ (proj1 (monotonic_ok env w))).
  unfold bind at 1. cbn [ret]. unfold bind at 1, signal.
  unfold bind at 1, signal. unfold bind at 1, signal.
  pose proof (async_on_course w OC) as OC0.
  set (w0 := init_flags (emit (EvClock (tk_now (env_ticks env (w_time w))))
                           (async env w))) in *.
  assert (OC0' : on_course n s own w0) by (split; [reflexivity | exact (proj2 OC0)]).
  pose proof (async_on_course w0 OC0') as OC1.
  set (w1 := emit (EvSignalSet SIGINT SigHandler)
               (set_handler SIGINT SigHandler (async env w0))) in *.
  pose proof (async_on_course w1 OC1) as OC2.
  set (w2 := emit (EvSignalSet SIGTERM SigHandler)
               (set_handler SIGTERM SigHandler (async env w1))) in *.
  pose proof (async_on_course w2 OC2) as OC3.
  set (w3 := emit (EvSignalSet SIGQUIT SigHandler)
               (set_handler SIGQUIT SigHandler (async env w2))) in *.
  rewrite T0.
  destruct (spin_loop_quiet fuel 0 w3 OC3) as [w4 L]; [lia|].
  assert (B : guarded_body env sp fuel 0 (tk_now (env_ticks env 0)) w3
              = Some (Ok (exit_code (final_status own s)), w4)).
  { unfold guarded_body. rewrite (bind_ok _ _ _ _ _ L). reflexivity. }
  destruct (guarded_finish env sp _ _ _ (w_handlers (async env w0) SIGINT)
              (w_handlers (async env w1) SIGTERM)
              (w_handlers (async env w2) SIGQUIT) _ _ _ B) as [w5 [G _]].
  exists w5. exact G.
Qed.

End QuietRun.

(** A run of [spin] that nothing interrupts and that does not time out
    returns the translation of the child's wait status, as soon as the
    fuel covers the ticks until the child ends. *)
Lemma spin_quiet_run env sp n s fuel :
  quiet env -> never_times_out env sp -> terminates_at env n s ->
  (n < fuel)%nat ->
  let own := own_status env (normalize (sp_command sp))
               (prologue sp (initial env)) in
  exists w', spin fuel env sp Parent
             = Some (Returned (exit_code (final_status own s)), w').
Proof.
  intros Q P E F own. unfold spin. fold own. cbn [fork_result Z.eqb].
  set (w1 := emit _ _).
  destruct (supervise_quiet env sp n s own Q P E fuel w1) as [w' S'];
    [|reflexivity|exact F|].
  - split; [reflexivity|]. right. split; [reflexivity | simpl; lia].
  - exists w'. now rewrite S'.
Qed.

(* ================================================================== *)
(** ** Facts about wait statuses *)

Lemma exit_code_exited_small :
  forallb (fun c => exit_code (W_EXITCODE c 0) =? c)
          (map Z.of_nat (seq 0 256)) = true.
Proof. vm_compute. reflexivity. Qed.

(** [exit(c)] with [0 <= c <= 255] is reported as [c]. *)
Lemma exit_code_exited c :
  0 <= c <= 255 -> exit_code (W_EXITCODE c 0) = c.
Proof.
  intros H. pose proof exit_code_exited_small as F.
  rewrite forallb_forall in F. apply Z.eqb_eq, F.
  apply in_map_iff. exists (Z.to_nat c). split; [lia|].
  apply in_seq. lia.
Qed.

Lemma signaled_not_exited st : WIFSIGNALED st = true -> WIFEXITED st = false.
Proof.
  unfold WIFSIGNALED, WIFEXITED, WTERMSIG.
  destruct (Z.eqb_spec (Z.land st 127) 0) as [E|NE]; [|reflexivity].
  rewrite E. vm_compute. auto.
Qed.

(** A status that says "ended by signal [sig]" is reported as [128 + sig]. *)
Lemma exit_code_signaled st :
  WIFSIGNALED st = true -> exit_code st = 128 + WTERMSIG st.
Proof.
  intros H. unfold exit_code. now rewrite (signaled_not_exited st H), H.
Qed.

Lemma exit_code_other st :
  WIFEXITED st = false -> WIFSIGNALED st = false -> exit_code st = 128.
Proof. intros H1 H2. unfold exit_code. now rewrite H1, H2. Qed.

Lemma signaled_small :
  forallb (fun sig =>
             WIFSIGNALED (W_EXITCODE 0 sig) && (WTERMSIG (W_EXITCODE 0 sig) =? sig)
             && WIFSIGNALED (Z.lor (W_EXITCODE 0 sig) 128)
             && (WTERMSIG (Z.lor (W_EXITCODE 0 sig) 128) =? sig))
          (map Z.of_nat (seq 1 126)) = true.
Proof. vm_compute. reflexivity. Qed.

(** The status of a child killed by signal [sig], with or without the
    core-dump flag, says so. *)
Lemma signaled_status sig core :
  1 <= sig <= 126 -> core = 0 \/ core = 128 ->
  WIFSIGNALED (Z.lor (W_EXITCODE 0 sig) core) = true /\
  WTERMSIG (Z.lor (W_EXITCODE 0 sig) core) = sig.
Proof.
  intros H C. pose proof signaled_small as F. rewrite forallb_forall in F.
  assert (I : In sig (map Z.of_nat (seq 1 126))).
  { apply in_map_iff. exists (Z.to_nat sig). split; [lia|]. apply in_seq. lia. }
  specialize (F sig I). rewrite !andb_true_iff in F.
  destruct F as [[[F1 F2] F3] F4]. apply Z.eqb_eq in F2, F4.
  destruct C as [->| ->].
  - now rewrite Z.lor_0_r.
  - auto.
Qed.

(* ================================================================== *)
(** ** The interrupted path *)

Lemma trace_ext_refl P w : trace_ext P w w.
Proof. exists []. now rewrite app_nil_r. Qed.

Lemma async_draining a : is_async a = true -> draining a = true.
Proof. destruct a; simpl; intros H; try discriminate H; reflexivity. Qed.

Section Draining.

Variable env : Env.
Variable sp : Spinner.

Lemma async_child_exit w own :
  w_child w = Running own ->
  tk_child (env_ticks env (w_time w)) <> None ->
  exists st, w_child (async env w) = Zombie st.
Proof.
  intros R E. unfold async.
  set (w0 := mkWorld _ _ _ _ _ _).
  assert (Z0 : exists st, w_child w0 = Zombie st).
  { unfold w0. simpl. rewrite R. unfold child_update.
    destruct (tk_child (env_ticks env (w_time w))) as [s0|]; [|now elim E].
    destruct own; eauto. }
  destruct Z0 as [st Z0]. exists st.
  eapply drift_zombie; [apply deliveries_drift | exact Z0].
Qed.

Lemma async_child_ends w n : child_ends env w n -> child_ends env (async env w) n.
Proof.
  pose proof (async_drift env w) as D.
  pose proof (async_time env w) as T.
  intros [[st Z]|[own [R [L E]]]].
  - left. exists st. eapply drift_zombie; eauto.
  - destruct (w_child (async env w)) as [own'|st|] eqn:C.
    + right. exists own'. split; [exact C|]. split; [|exact E].
      destruct (Nat.eq_dec (w_time w) n) as [EQ|NE]; [|lia].
      subst n. destruct (async_child_exit w own R E) as [st Z]. congruence.
    + left. eauto.
    + exfalso. eapply drift_alive; [exact D| |exact C]. congruence.
Qed.

(** A blocking wait returns once the child has ended. *)
Lemma waitpid_block_returns n fuel : forall w,
  child_ends env w n -> (n - w_time w < fuel)%nat ->
  exists st w', waitpid_block env fuel w = Some (Ok (pid env, st), w') /\
                reaped env w' /\ frame w w' /\
                emits [EvWait 0 (pid env) st] w w'.
Proof.
  induction fuel as [|fuel IH]; intros w CE F; [lia|].
  pose proof (async_child_ends w n CE) as CE1.
  pose proof (async_drift env w) as D.
  pose proof (async_emits env w) as E.
  pose proof (async_time env w) as T.
  simpl. set (w1 := async env w) in *.
  destruct CE1 as [[st Z]|[own [R [L _]]]].
  - destruct (reap_zombie env 0 w1 st Z) as [Rp [Rd [Fr [Em _]]]].
    rewrite Rp. exists st. eexists. split; [reflexivity|].
    split; [exact Rd|]. split.
    + eapply frame_trans; [apply drift_frame; exact D | exact Fr].
    + change [EvWait 0 (pid env) st] with ([] ++ [EvWait 0 (pid env) st])%list.
      exact (emits_trans _ _ _ _ _ E Em).
  - unfold reap. rewrite R.
    destruct (IH w1) as [st [w' [W [Rd [Fr Em]]]]].
    + right. exists own. split; [exact R|]. split; [exact L|].
      destruct CE as [[st Z]|[own0 [_ [_ E0]]]]; [|exact E0].
      exfalso. pose proof (drift_zombie _ _ _ D Z). congruence.
    + lia.
    + exists st, w'. split; [exact W|]. split; [exact Rd|]. split.
      * eapply frame_trans; [apply drift_frame; exact D | exact Fr].
      * change [EvWait 0 (pid env) st] with ([] ++ [EvWait 0 (pid env) st])%list.
        exact (emits_trans _ _ _ _ _ E Em).
Qed.

Lemma tick_emit_draining e w :
  draining e = true -> is_async e = false ->
  trace_ext draining w (emit e (async env w)).
Proof. intros. apply tick_emit_trace_ext; auto using async_draining. Qed.

Lemma waitpid_block_draining fuel :
  respects (trace_ext draining) (waitpid_block env fuel).
Proof.
  induction fuel as [|fuel IH]; intros w r w' H; simpl in H; [discriminate|].
  assert (A : trace_ext draining w (async env w)).
  { exact (emits_trace_ext draining [] _ _ async_draining eq_refl
             (async_emits env w)). }
  set (w1 := async env w) in *. unfold reap in H.
  eapply trace_ext_trans; [exact A|].
  destruct (w_child w1).
  - eapply IH; eauto.
  - inversion H; subst. eexists. simpl. split; reflexivity.
  - inversion H; subst. eexists. simpl. split; reflexivity.
Qed.

Lemma report_draining : respects (trace_ext draining) (report env).
Proof.
  intros w r w' H. unfold report in H.
  destruct (w_signal_received w).
  - unfold bind, print_err in H.
    destruct (w_signal_received (emit _ (async env w))); inversion H; subst;
      now apply tick_emit_draining.
  - unfold bind, print_err in H. inversion H; subst.
    now apply tick_emit_draining.
Qed.

Lemma interrupted_path_draining fuel :
  respects (trace_ext draining) (interrupted_path env fuel).
Proof.
  rewrite interrupted_path_unfold.
  apply (respects_bind _ (trace_ext_trans draining)).
  - intros w r w' H. inversion H; subst. now apply tick_emit_draining.
  - intros _. apply (respects_bind _ (trace_ext_trans draining));
      [apply waitpid_block_draining | intros _; apply report_draining].
Qed.

Lemma restore_draining oi ot oq :
  respects (trace_ext draining) (restore env oi ot oq).
Proof.
  intros w r w' H. destruct (restore_spec env oi ot oq w) as [w2 [Rs [_ [E _]]]].
  rewrite Rs in H. inversion H; subst.
  exact (emits_trace_ext draining (restore_events oi ot oq) _ _
           async_draining eq_refl E).
Qed.

(** The drain, step by step: a short sleep, a blocking wait that collects
    the child, the report, and the code built from the recorded signal. *)
Lemma interrupted_path_returns fuel w n :
  child_ends env w n -> (n - w_time w < fuel)%nat ->
  exists code st msg w',
    interrupted_path env fuel w = Some (Ok (Return code), w') /\
    reaped env w' /\ frame w w' /\
    emits [EvSleep (1 # 10); EvWait 0 (pid env) st; EvStderr msg] w w' /\
    (w_signal_received w <> None ->
       exists k, w_signal_received w' = Some k /\ code = 128 + k) /\
    (w_signal_received w' = None -> code = 130).
Proof.
  intros CE F.
  set (w1 := emit (EvSleep (1 # 10)) (async env w)).
  assert (D1 : drift w w1) by apply tick_emit_drift.
  assert (E1 : emits [EvSleep (1 # 10)] w w1) by now apply tick_emit_emits.
  assert (CE1 : child_ends env w1 n) by exact (async_child_ends w n CE).
  assert (T1 : w_time w1 = S (w_time w)) by apply tick_emit_time.
  destruct (waitpid_block_returns n fuel w1 CE1) as [st [w2 [W [R2 [F2 E2]]]]];
    [lia|].
  rewrite interrupted_path_unfold.
  rewrite (bind_ok (sleep env (1 # 10)) _ w tt w1 eq_refl).
  rewrite (bind_ok _ _ _ _ _ W). unfold report.
  assert (E02 : emits [EvSleep (1 # 10); EvWait 0 (pid env) st] w w2)
    by exact (emits_trans _ _ _ _ _ E1 E2).
  assert (F02 : frame w w2).
  { eapply frame_trans; [apply drift_frame; exact D1 | exact F2]. }
  destruct (w_signal_received w2) as [k2|] eqn:S2.
  - set (msg := (NL ++ "Interrupted by " ++ signal_name k2 ++ ".") ++ NL).
    set (w3 := emit (EvStderr msg) (async env w2)).
    assert (D3 : drift w2 w3) by apply tick_emit_drift.
    assert (E3 : emits [EvStderr msg] w2 w3) by now apply tick_emit_emits.
    rewrite (bind_ok (print_err env _) _ w2 tt w3 eq_refl).
    destruct (w_signal_received w3) as [k3|] eqn:S3.
    + exists (128 + k3), st, msg, w3. split; [reflexivity|].
      split; [eapply reaped_frame; [exact R2 | apply drift_frame; exact D3]|].
      split; [eapply frame_trans; [exact F02 | apply drift_frame; exact D3]|].
      split; [|split].
      * change [EvSleep (1 # 10); EvWait 0 (pid env) st; EvStderr msg]
          with ([EvSleep (1 # 10); EvWait 0 (pid env) st] ++ [EvStderr msg])%list.
        exact (emits_trans _ _ _ _ _ E02 E3).
      * intros _. exists k3. split; [exact S3 | reflexivity].
      * congruence.
    + exfalso. apply (drift_signal _ _ D3); [congruence | exact S3].
  - set (msg := (NL ++ "Interrupted.") ++ NL).
    set (w3 := emit (EvStderr msg) (async env w2)).
    assert (D3 : drift w2 w3) by apply tick_emit_drift.
    assert (E3 : emits [EvStderr msg] w2 w3) by now apply tick_emit_emits.
    rewrite (bind_ok (print_err env _) _ w2 tt w3 eq_refl).
    exists 130, st, msg, w3. split; [reflexivity|].
    split; [eapply reaped_frame; [exact R2 | apply drift_frame; exact D3]|].
    split; [eapply frame_trans; [exact F02 | apply drift_frame; exact D3]|].
    split; [|split].
    + change [EvSleep (1 # 10); EvWait 0 (pid env) st; EvStderr msg]
        with ([EvSleep (1 # 10); EvWait 0 (pid env) st] ++ [EvStderr msg])%list.
      exact (emits_trans _ _ _ _ _ E02 E3).
    + intros NN. exfalso. apply (frame_signal _ _ F02 NN). exact S2.
    + reflexivity.
Qed.

End Draining.

(* ================================================================== *)
(** ** The opening of [spin] and the child's side *)

Lemma child_branch_trace env argv w :
  exists l, w_trace (snd (child_branch env argv w)) = (w_trace w ++ l)%list.
Proof.
  unfold child_branch, exec_failed. destruct argv as [|file rest]; simpl.
  - eauto.
  - destruct (env_execvp env file (file :: rest)); simpl.
    + rewrite <- app_assoc. eauto.
    + eauto.
Qed.

(** Off the main thread the parent reads the clock, initialises its flags
    and is refused by [signal]. *)
Lemma supervise_off_main_run env sp fuel w :
  supervise_off_main env sp fuel w =
  Some (Raise ValueError,
        init_flags (emit (EvClock (tk_now (env_ticks env (w_time w))))
                      (async env w))).
Proof. reflexivity. Qed.

(** Every run of [spin], on either side of the fork, opens with the wait
    message followed by the hide sequence. *)
Lemma spin_opening fuel env sp r o w :
  spin fuel env sp r = Some (o, w) ->
  exists rest,
    w_trace w = EvStdout (wait_text sp ++ " ") :: EvStdout HIDE_CURSOR :: rest.
Proof.
  unfold spin. destruct r; cbn [fork_result Z.eqb].
  - set (w1 := emit _ _).
    destruct (supervise env sp fuel w1) as [[[c|e] w2]|] eqn:S; intros H;
      inversion H; subst;
      destruct (supervise_keeps env sp fuel _ _ _ S) as [_ [l t]];
      rewrite t; simpl; eauto.
  - intros H.
    assert (CB : child_branch env (normalize (sp_command sp))
                   (prologue sp (initial env)) = (o, w)) by congruence.
    destruct (child_branch_trace env (normalize (sp_command sp))
                (prologue sp (initial env))) as [l t].
    rewrite CB in t. simpl in t. rewrite t. eauto.
  - intros H. inversion H; subst. simpl. eauto.
  - set (w1 := emit _ _). rewrite supervise_off_main_run.
    intros H. inversion H; subst. simpl.
    destruct (async_emits env w1) as [l [t _]]. rewrite t. simpl. eauto.
Qed.

(** A failed launch ends the child at once, after one line on the error
    stream. *)
Lemma child_launch_failure fuel env sp msg :
  launch_error env (normalize (sp_command sp)) = Some msg ->
  exists w,
    spin fuel env sp Child = Some (Exited 127, w) /\
    w_trace w =
      (w_trace (prologue sp (initial env))
       ++ exec_attempt (normalize (sp_command sp))
       ++ [EvStderr (NL ++ "exec failed: " ++ msg ++ NL)])%list /\
    own_status env (normalize (sp_command sp)) (prologue sp (initial env))
      = Some (W_EXITCODE 127 0).
Proof.
  intros L. unfold spin, own_status. cbn [fork_result Z.eqb].
  unfold child_branch, launch_error, exec_attempt in *.
  destruct (normalize (sp_command sp)) as [|file rest].
  - inversion L; subst. eexists. split; [reflexivity|]. split; reflexivity.
  - rewrite L. eexists. split; [reflexivity|]. split; reflexivity.
Qed.

(* ================================================================== *)
(** ** Facts about the sample scripts *)

Lemma ends_at_9_quiet st k : tk_signals (ends_at_9 st k) = [].
Proof. do 10 (destruct k as [|k]; [reflexivity|]). reflexivity. Qed.

Lemma ends_at_9_terminates st env :
  env_ticks env = ends_at_9 st -> terminates_at env 9 st.
Proof.
  intros E. unfold terminates_at. rewrite E. split; [reflexivity|].
  intros k H. do 9 (destruct k as [|k]; [reflexivity|]). lia.
Qed.

Lemma no_timeout_configured env sp :
  max_duration sp = None -> never_times_out env sp.
Proof. intros N m k H. congruence. Qed.

(** The main line of the sample run of the [__main__] block: two turns of
    the animation, then the poll that collects the child. *)
Example demo_main_line :
  exists w,
    spin 10 demo_env demo_spinner Parent = Some (Returned 3, w) /\
    mainline (w_trace w) =
      [EvStdout "Hehe Waitin "; EvStdout HIDE_CURSOR; EvFork 4242;
       EvClock 0; EvSignalSet SIGINT SigHandler; EvSignalSet SIGTERM SigHandler;
       EvSignalSet SIGQUIT SigHandler;
       EvWait WNOHANG 0 0; EvStdout "-"; EvSleep (1 # 5); EvStdout BS;
       EvWait WNOHANG 0 0; EvStdout "\"; EvSleep (1 # 5); EvStdout BS;
       EvWait WNOHANG 4242 768;
       EvSignalSet SIGINT (Caller 2); EvSignalSet SIGTERM (Caller 15);
       EvSignalSet SIGQUIT (Caller 3); EvStdout SHOW_CURSOR; EvStdout NL].
Proof. eexists. split; vm_compute; reflexivity. Qed.

(** Ctrl-C during the animation: the signal is forwarded, the loop drains
    and [spin] returns 128 + 2. *)
Example ctrl_c_run :
  exists w,
    spin 10 ctrl_c_env demo_spinner Parent = Some (Returned 130, w) /\
    w_trace w =
      [EvStdout "Hehe Waitin "; EvStdout HIDE_CURSOR; EvFork 4242;
       EvClock 0; EvSignalSet SIGINT SigHandler; EvSignalSet SIGTERM SigHandler;
       EvSignalSet SIGQUIT SigHandler;
       EvWait WNOHANG 0 0; EvStdout "-";
       EvDelivered SIGINT; EvForward SIGINT true; EvSleep (1 # 5);
       EvStdout BS;
       EvSleep (1 # 10); EvWait 0 4242 2;
       EvStderr (NL ++ "Interrupted by SIGINT." ++ NL);
       EvSignalSet SIGINT (Caller 2); EvSignalSet SIGTERM (Caller 15);
       EvSignalSet SIGQUIT (Caller 3); EvStdout SHOW_CURSOR; EvStdout NL].
Proof. eexists. split; vm_compute; reflexivity. Qed.

(** A child that outlives its two seconds and ignores SIGTERM. *)
Example slow_run :
  exists w,
    spin 10 slow_env slow_spinner Parent = Some (Returned 124, w) /\
    mainline (w_trace w) =
      [EvStdout "Hehe Waitin "; EvStdout HIDE_CURSOR; EvFork 4242;
       EvClock (0 # 2); EvSignalSet SIGINT SigHandler; EvSignalSet SIGTERM SigHandler;
       EvSignalSet SIGQUIT SigHandler;
       EvWait WNOHANG 0 0; EvClock (5 # 2);
       EvStderr (NL ++ "Process timed out." ++ NL); EvKill SIGTERM; EvSleep 1;
       EvWait WNOHANG 0 0; EvKill SIGKILL; EvWait 0 4242 9;
       EvSignalSet SIGINT (Caller 2); EvSignalSet SIGTERM (Caller 15);
       EvSignalSet SIGQUIT (Caller 3); EvStdout SHOW_CURSOR; EvStdout NL].
Proof. eexists. split; vm_compute; reflexivity. Qed.

(** The sample run of the [__main__] block's spinner. *)
Lemma demo_run :
  exists w', spin 10 demo_env demo_spinner Parent = Some (Returned 3, w').
Proof.
  destruct (spin_quiet_run demo_env demo_spinner 9 (W_EXITCODE 3 0) 10)
    as [w' R].
  - intros k. apply ends_at_9_quiet.
  - now apply no_timeout_configured.
  - now apply ends_at_9_terminates.
  - lia.
  - exists w'. exact R.
Qed.

Lemma ctrl_c_child_ends : child_ends ctrl_c_env (at_loop true (Some SIGINT)) 7.
Proof.
  right. exists None. split; [reflexivity|]. split; [simpl; lia | discriminate].
Qed.

(** A finished guarded block that started with [interrupted] set. *)
Lemma ctrl_c_drain :
  exists w',
    guarded ctrl_c_env demo_spinner 5 7 0 (Caller 2) (Caller 15) (Caller 3)
            (at_loop true (Some SIGINT)) = Some (Ok 130, w').
Proof. eexists. vm_compute. reflexivity. Qed.

(* ================================================================== *)
(** ** The exit-code contract *)

(** C1.  When the child exits normally with code [c], [0 <= c <= 255],
    in a run that no signal interrupts and in which the timeout test never
    succeeds, [spin] returns exactly [c] (for any fuel that covers the
    ticks until the child ends). *)
Theorem normal_exit_returns_code env sp n s c fuel :
  0 <= c <= 255 ->
  quiet env -> never_times_out env sp -> terminates_at env n s ->
  child_status env sp s = W_EXITCODE c 0 ->
  (n < fuel)%nat ->
  exists w', spin fuel env sp Parent = Some (Returned c, w').
Proof.
  intros C Q P E St F.
  destruct (spin_quiet_run env sp n s fuel Q P E F) as [w' R].
  exists w'. rewrite R. unfold child_status in St.
  now rewrite St, exit_code_exited.
Qed.

Lemma normal_exit_returns_code_witness :
  exists w', spin 10 demo_env demo_spinner Parent = Some (Returned 3, w').
Proof.
  apply (normal_exit_returns_code demo_env demo_spinner 9 (W_EXITCODE 3 0) 3 10).
  - lia.
  - intros k. apply ends_at_9_quiet.
  - now apply no_timeout_configured.
  - now apply ends_at_9_terminates.
  - reflexivity.
  - lia.
Defined.

(** C2.  In a run that no signal interrupts and that does not time out,
    a child whose status says "terminated by signal [sig]" makes [spin]
    return [128 + sig], and a status that is neither a normal exit nor a
    signal termination makes it return 128. *)
Theorem signaled_exit_returns_128_plus env sp n s fuel :
  quiet env -> never_times_out env sp -> terminates_at env n s ->
  (n < fuel)%nat ->
  let st := child_status env sp s in
  (forall sig, WIFSIGNALED st = true -> WTERMSIG st = sig ->
     exists w', spin fuel env sp Parent = Some (Returned (128 + sig), w')) /\
  (WIFEXITED st = false -> WIFSIGNALED st = false ->
     exists w', spin fuel env sp Parent = Some (Returned 128, w')).
Proof.
  intros Q P E F st.
  destruct (spin_quiet_run env sp n s fuel Q P E F) as [w' R].
  fold (child_status env sp s) in R. fold st in R. split.
  - intros sig Sg Tm. exists w'. rewrite R, exit_code_signaled by exact Sg.
    now rewrite Tm.
  - intros Ex Sg. exists w'. now rewrite R, exit_code_other.
Qed.

Lemma signaled_exit_returns_128_plus_witness :
  (exists w', spin 10 killed_env demo_spinner Parent = Some (Returned 143, w')) /\
  (exists w', spin 10 stopped_env demo_spinner Parent = Some (Returned 128, w')).
Proof.
  split.
  - apply (proj1 (signaled_exit_returns_128_plus killed_env demo_spinner 9
                    (W_EXITCODE 0 SIGTERM) 10
                    (fun k => ends_at_9_quiet _ k)
                    (no_timeout_configured killed_env demo_spinner eq_refl)
                    (ends_at_9_terminates _ killed_env eq_refl)
                    (Nat.lt_succ_diag_r 9)) SIGTERM); reflexivity.
  - apply (proj2 (signaled_exit_returns_128_plus stopped_env demo_spinner 9
                    4991 10
                    (fun k => ends_at_9_quiet _ k)
                    (no_timeout_configured stopped_env demo_spinner eq_refl)
                    (ends_at_9_terminates _ stopped_env eq_refl)
                    (Nat.lt_succ_diag_r 9))); reflexivity.
Defined.

(* ================================================================== *)
(** ** The timeout *)



(* ================================================================== *)
(** ** Reaping *)

Lemma emits_member ev e w w' : emits ev w w' -> In e ev -> In e (w_trace w').
Proof.
  intros [l [t m]] I. rewrite t. apply in_or_app. right.
  rewrite <- m in I. unfold mainline in I. now apply filter_In in I.
Qed.

(** A way out of the loop that has collected the child is a way out of the
    guarded block: the [finally] clause does not undo it. *)
Lemma guarded_return env sp fuel i start oi ot oq w x w1 e :
  spin_loop env sp fuel i start w = Some (Ok x, w1) ->
  reaped env w1 -> In e (w_trace w1) ->
  exists w',
    guarded env sp fuel i start oi ot oq w = Some (Ok (code_of x), w') /\
    reaped env w' /\ In e (w_trace w').
Proof.
  intros L Rd I.
  assert (B : guarded_body env sp fuel i start w = Some (Ok (code_of x), w1)).
  { unfold guarded_body. rewrite (bind_ok _ _ _ _ _ L). now destruct x. }
  destruct (guarded_finish env sp _ _ _ oi ot oq _ _ _ B)
    as [w' [G [_ [_ [K _]]]]].
  exists w'. split; [exact G|]. split; [exact (reaped_keeps env _ _ Rd K)|].
  destruct (keeps_trace _ _ K) as [l t]. rewrite t. apply in_or_app. now left.
Qed.

(** C4.  The child is collected by a [waitpid] of the parent before [spin]
    returns.  Whatever code [spin] returns, no child process is left and
    the trace holds the successful wait.  And each of the three paths does
    return, with the child collected: the normal one at the non-blocking
    poll that finds the child ended; the interrupted one at its blocking
    wait, once the child ends; the timed-out one at the non-blocking
    re-check or at the blocking wait that follows SIGKILL. *)
Theorem child_reaped_before_return env sp :
  (forall fuel code w',
     spin fuel env sp Parent = Some (Returned code, w') -> reaped env w') /\
  (forall fuel i start oi ot oq w st,
     w_interrupted w = false ->
     w_child (async env w) = Zombie st ->
     exists w',
       guarded env sp (S fuel) i start oi ot oq w
         = Some (Ok (exit_code st), w') /\
       reaped env w' /\
       In (EvWait WNOHANG (pid env) st) (w_trace w')) /\
  (forall fuel i start oi ot oq w n,
     w_interrupted w = true ->
     child_ends env w n -> (n - w_time w < fuel)%nat ->
     exists code st w',
       guarded env sp (S fuel) i start oi ot oq w = Some (Ok code, w') /\
       reaped env w' /\
       In (EvWait 0 (pid env) st) (w_trace w')) /\
  (forall fuel i start oi ot oq w own m,
     max_duration sp = Some m ->
     w_interrupted w = false ->
     w_child (async env w) = Running own ->
     timed_out start (tk_now (env_ticks env (S (w_time w)))) m = true ->
     exists options st w',
       guarded env sp (S (S fuel)) i start oi ot oq w = Some (Ok 124, w') /\
       reaped env w' /\
       (options = WNOHANG \/ options = 0) /\
       In (EvWait options (pid env) st) (w_trace w')).
Proof.
  split; [|split; [|split]].
  - intros fuel code w'. unfold spin. cbn [fork_result Z.eqb].
    set (w1 := emit _ _).
    destruct (supervise env sp fuel w1) as [[[c|e] w2]|] eqn:S; intros H;
      inversion H; subst.
    eapply supervise_reaps; eauto.
  - intros fuel i start oi ot oq w st I C.
    destruct (reap_zombie env WNOHANG (async env w) st C)
      as [Rp [Rd [_ [Em _]]]].
    assert (L : spin_loop env sp (S fuel) i start w
                = Some (Ok (Break st),
                        emit (EvWait WNOHANG (pid env) st)
                          (set_child Gone (async env w)))).
    { cbn [spin_loop]. rewrite I. unfold bind at 1, waitpid_nohang.
      rewrite Rp. cbn [fst snd]. unfold pid. cbn [Z.eqb negb]. reflexivity. }
    exact (guarded_return env sp _ i start oi ot oq w _ _ _ L Rd
             (emits_member _ _ _ _ Em (or_introl eq_refl))).
  - intros fuel i start oi ot oq w n I CE F.
    destruct (interrupted_path_returns env fuel w n CE F)
      as [code [st [msg [w1 [P [Rd [_ [Em _]]]]]]]].
    assert (L : spin_loop env sp (S fuel) i start w
                = Some (Ok (Return code), w1)).
    { cbn [spin_loop]. rewrite I. exact P. }
    exists code, st.
    exact (guarded_return env sp _ i start oi ot oq w _ _ _ L Rd
             (emits_member _ _ _ _ Em (or_intror (or_introl eq_refl)))).
  - intros fuel i start oi ot oq w own m MD I C TO.
    set (now := tk_now (env_ticks env (S (w_time w)))) in *.
    set (w1 := emit (EvWait WNOHANG 0 0) (async env w)).
    set (w2 := emit (EvClock now) (async env w1)).
    assert (A2 : w_child w2 <> Gone).
    { eapply drift_alive; [apply tick_emit_drift|]. unfold w1. simpl.
      congruence. }
    destruct (timeout_path_spec env (S fuel) w2 A2)
      as [[w3 [tail [T3 [R3 [_ [E3 Esc]]]]]]|[Z _]]; [|discriminate].
    assert (L : spin_loop env sp (S (S fuel)) i start w
                = Some (Ok (Return 124), w3)).
    { cbn [spin_loop]. rewrite I. unfold bind at 1, waitpid_nohang, reap.
      rewrite C. cbn [fst snd Z.eqb negb]. rewrite MD.
      unfold bind at 1, monotonic.
      change (w_time (emit (EvWait WNOHANG 0 0) (async env w)))
        with (w_time (async env w)).
      rewrite (async_time env w). fold now. rewrite TO. exact T3. }
    destruct Esc as [[st ->]|[st ->]].
    + exists WNOHANG, st.
      destruct (guarded_return env sp _ i start oi ot oq w _ _
                  (EvWait WNOHANG (pid env) st) L R3) as [w' [G [Rd In']]].
      { apply (emits_member _ _ _ _ E3). apply in_or_app. right. now left. }
      exists w'. auto.
    + exists 0, st.
      destruct (guarded_return env sp _ i start oi ot oq w _ _
                  (EvWait 0 (pid env) st) L R3) as [w' [G [Rd In']]].
      { apply (emits_member _ _ _ _ E3). apply in_or_app. right.
        simpl. auto. }
      exists w'. auto.
Qed.

Lemma child_reaped_before_return_witness :
  (exists w', spin 10 demo_env demo_spinner Parent = Some (Returned 3, w') /\
              reaped demo_env w') /\
  (exists w',
     guarded demo_env demo_spinner 1 0 0 (Caller 2) (Caller 15) (Caller 3)
             (ended_at_loop (W_EXITCODE 3 0)) = Some (Ok 3, w') /\
     reaped demo_env w' /\
     In (EvWait WNOHANG (pid demo_env) (W_EXITCODE 3 0)) (w_trace w')) /\
  (exists code st w',
     guarded ctrl_c_env demo_spinner 5 0 0 (Caller 2) (Caller 15) (Caller 3)
             (at_loop true (Some SIGINT)) = Some (Ok code, w') /\
     reaped ctrl_c_env w' /\
     In (EvWait 0 (pid ctrl_c_env) st) (w_trace w')) /\
  (exists options st w',
     guarded slow_env slow_spinner 2 0 0 (Caller 2) (Caller 15) (Caller 3)
             (at_loop false None) = Some (Ok 124, w') /\
     reaped slow_env w' /\
     (options = WNOHANG \/ options = 0) /\
     In (EvWait options (pid slow_env) st) (w_trace w')).
Proof.
  destruct (child_reaped_before_return demo_env demo_spinner) as [A [B _]].
  destruct (child_reaped_before_return ctrl_c_env demo_spinner)
    as [_ [_ [C _]]].
  destruct (child_reaped_before_return slow_env slow_spinner)
    as [_ [_ [_ D]]].
  split; [|split; [|split]].
  - destruct demo_run as [w' R]. exists w'. split; [exact R|].
    exact (A 10%nat 3 w' R).
  - apply (B 0%nat 0%nat 0%Q (Caller 2) (Caller 15) (Caller 3)
             (ended_at_loop (W_EXITCODE 3 0)) (W_EXITCODE 3 0));
      reflexivity.
  - apply (C 4%nat 0%nat 0%Q (Caller 2) (Caller 15) (Caller 3)
             (at_loop true (Some SIGINT)) 7%nat);
      [reflexivity | exact ctrl_c_child_ends | simpl; lia].
  - apply (D 0%nat 0%nat 0%Q (Caller 2) (Caller 15) (Caller 3)
             (at_loop false None) None 2); reflexivity.
Defined.

(* ================================================================== *)
(** ** Interruption *)



(** C8.  Once the loop finds [interrupted] set at the top of an iteration,
    nothing that follows until the guarded block is left (whatever way it
    is left) is animation output, a reading of the clock for the timeout
    test, or a signal sent by the timeout escalation: only the drain and
    the clean-up remain. *)
Theorem no_animation_after_interrupt env sp fuel i start oi ot oq w r w' :
  w_interrupted w = true ->
  guarded env sp fuel i start oi ot oq w = Some (r, w') ->
  trace_ext draining w w'.
Proof.
  intros I H. destruct (guarded_inv env sp _ _ _ _ _ _ _ _ _ H) as [w1 [B Rs]].
  eapply trace_ext_trans; [|eapply restore_draining; eauto].
  destruct fuel as [|fuel]; [discriminate|].
  unfold guarded_body, bind in B. simpl in B. rewrite I in B.
  destruct (interrupted_path env fuel w) as [[[x|e] w0]|] eqn:P;
    try discriminate.
  - assert (w0 = w1) by (destruct x; inversion B; reflexivity). subst.
    eapply interrupted_path_draining; eauto.
  - inversion B; subst. eapply interrupted_path_draining; eauto.
Qed.

Lemma no_animation_after_interrupt_witness :
  exists w',
    guarded ctrl_c_env demo_spinner 5 7 0 (Caller 2) (Caller 15) (Caller 3)
            (at_loop true (Some SIGINT)) = Some (Ok 130, w') /\
    trace_ext draining (at_loop true (Some SIGINT)) w'.
Proof.
  destruct ctrl_c_drain as [w' G]. exists w'. split; [exact G|].
  exact (no_animation_after_interrupt ctrl_c_env demo_spinner 5 7 0
           (Caller 2) (Caller 15) (Caller 3) (at_loop true (Some SIGINT))
           (Ok 130) w' eq_refl G).
Defined.

(* ================================================================== *)
(** ** Launch failure *)

(** C6.  When the launch fails ([execvp] raises, or [argv] is empty), the
    child writes one line, "exec failed: ...", on its error stream and
    leaves through [_exit(127)]: it returns nothing and runs none of the
    parent's code.  In the parent, a run that no signal interrupts and
    that does not time out then returns 127. *)
Theorem launch_failure_yields_127 env sp msg :
  launch_error env (normalize (sp_command sp)) = Some msg ->
  (forall fuel, exists w,
     spin fuel env sp Child = Some (Exited 127, w) /\
     w_trace w =
       (w_trace (prologue sp (initial env))
        ++ exec_attempt (normalize (sp_command sp))
        ++ [EvStderr (NL ++ "exec failed: " ++ msg ++ NL)])%list) /\
  (forall n s fuel,
     quiet env -> never_times_out env sp -> terminates_at env n s ->
     (n < fuel)%nat ->
     exists w', spin fuel env sp Parent = Some (Returned 127, w')).
Proof.
  intros L. split.
  - intros fuel. destruct (child_launch_failure fuel env sp msg L) as [w [R [T _]]].
    eauto.
  - intros n s fuel Q P E F.
    destruct (child_launch_failure fuel env sp msg L) as [_ [_ [_ O]]].
    destruct (spin_quiet_run env sp n s fuel Q P E F) as [w' R].
    exists w'. rewrite R, O. reflexivity.
Qed.

Lemma launch_failure_yields_127_witness :
  (exists w,
     spin 10 missing_env demo_spinner Child = Some (Exited 127, w) /\
     w_trace w =
       [EvStdout "Hehe Waitin "; EvStdout HIDE_CURSOR;
        EvExec "sleep" ["sleep"; "5"];
        EvStderr (NL ++ "exec failed: [Errno 2] No such file or directory" ++ NL)]) /\
  (exists w', spin 10 missing_env demo_spinner Parent = Some (Returned 127, w')).
Proof.
  split.
  - exact (proj1 (launch_failure_yields_127 missing_env demo_spinner
                    "[Errno 2] No such file or directory" eq_refl) 10%nat).
  - exact (proj2 (launch_failure_yields_127 missing_env demo_spinner
                    "[Errno 2] No such file or directory" eq_refl)
             9%nat 0 10%nat (fun k => ends_at_9_quiet _ k)
             (no_timeout_configured missing_env demo_spinner eq_refl)
             (ends_at_9_terminates _ missing_env eq_refl)
             (Nat.lt_succ_diag_r 9)).
Defined.

(* ================================================================== *)
(** ** Clean-up *)

(** No wait message, with the space [spin] puts after it, is one of the
    two cursor sequences. *)
Lemma message_not_cursor text :
  String.eqb (text ++ " ") HIDE_CURSOR = false /\
  String.eqb (text ++ " ") SHOW_CURSOR = false.
Proof.
  split; apply String.eqb_neq; intros E;
    do 6 (destruct text as [|? text]; simpl in E;
          [inversion E | injection E as _ E]);
    destruct text; discriminate E.
Qed.

(** The cursor is hidden when [fork] is reached. *)
Lemma prologue_hides sp w :
  cursor_visible (w_trace (prologue sp w)) = false.
Proof.
  unfold prologue, hide_cursor, cursor_visible. simpl.
  rewrite !fold_left_app. reflexivity.
Qed.




(* ================================================================== *)
(** ** The opening *)

(** C9, as the code has it.  Every call of [spin] first prints the wait
    message (followed by a space) and only then emits the hide-cursor
    sequence: this is all the output before the fork, and these are the
    first two events of every run, on either side of the fork. *)
Theorem message_precedes_hide fuel env sp r o w :
  w_trace (prologue sp (initial env)) =
    [EvStdout (wait_text sp ++ " "); EvStdout HIDE_CURSOR] /\
  (spin fuel env sp r = Some (o, w) -> message_then_hide sp (w_trace w)).
Proof.
  split; [reflexivity|].
  intros H. destruct (spin_opening fuel env sp r o w H) as [rest T].
  unfold message_then_hide. rewrite T. split; reflexivity.
Qed.

Lemma message_precedes_hide_witness :
  exists w',
    spin 10 demo_env demo_spinner Parent = Some (Returned 3, w') /\
    message_then_hide demo_spinner (w_trace w').
Proof.
  destruct demo_run as [w' R]. exists w'. split; [exact R|].
  exact (proj2 (message_precedes_hide 10 demo_env demo_spinner Parent _ w') R).
Defined.

(** C9, as the spec words it, fails: in the sample run the first event is
    the wait message, not the hide sequence. *)
Lemma hide_first_counterexample :
  exists o w,
    spin 10 demo_env demo_spinner Parent = Some (o, w) /\
    ~ hide_then_message demo_spinner (w_trace w).
Proof.
  destruct demo_run as [w R]. exists (Returned 3), w. split; [exact R|].
  destruct (spin_opening _ _ _ _ _ _ R) as [rest T].
  unfold hide_then_message. rewrite T. intros [H _]. discriminate H.
Qed.

(* ================================================================== *)
(** ** A command given as one string *)

(** C10.  When [command] is a single string, [spin] neither rejects nor
    splits it: [argv] is the one-element list holding that string, and the
    child calls [execvp] with the string as the file and as the only
    argument. *)
Theorem string_command_is_one_element_argv fuel env sp cmd :
  sp_command sp = CmdStr cmd ->
  normalize (sp_command sp) = [cmd] /\
  exists o w,
    spin fuel env sp Child = Some (o, w) /\
    In (EvExec cmd [cmd]) (w_trace w) /\
    forall file argv, In (EvExec file argv) (w_trace w) ->
                      file = cmd /\ argv = [cmd].
Proof.
  intros C. rewrite C. split; [reflexivity|].
  unfold spin. rewrite C. cbn [fork_result Z.eqb normalize].
  unfold child_branch, exec_failed.
  destruct (env_execvp env cmd [cmd]); eexists; eexists;
    (split; [reflexivity|]); simpl; split; auto;
    intros file argv H;
    repeat (destruct H as [H|H]; [inversion H; auto|]); contradiction.
Qed.

Lemma string_command_is_one_element_argv_witness :
  normalize (sp_command string_spinner) = ["true"] /\
  exists o w,
    spin 0 demo_env string_spinner Child = Some (o, w) /\
    In (EvExec "true" ["true"]) (w_trace w) /\
    forall file argv, In (EvExec file argv) (w_trace w) ->
                      file = "true" /\ argv = ["true"].
Proof.
  exact (string_command_is_one_element_argv 0 demo_env string_spinner "true"
           eq_refl).
Defined.

(* ================================================================== *)
(** ** Properties every stretch of the trace keeps *)

Lemma deliver_trace w signum :
  w_trace (deliver w signum) = (w_trace w ++ delivery w signum)%list.
Proof.
  unfold deliver, delivery, sig_handler. destruct (w_handlers w signum); simpl;
    [reflexivity|].
  destruct (w_child w); simpl; rewrite <- app_assoc; reflexivity.
Qed.

Lemma glyph_is_animation i : is_animation (EvStdout (glyph i)) = true.
Proof.
  unfold glyph. change (String.length spinner) with 4%nat.
  pose proof (Nat.mod_upper_bound i 4) as B.
  destruct (Nat.modulo i 4) as [|[|[|[|k]]]]; try reflexivity. lia.
Qed.

Section TraceInvariant.

Variable env : Env.
Variable sp : Spinner.

(** [T] is a property of stretches that holds of the empty stretch, of
    what a delivery adds and of each allowed main-line event, and that
    concatenation keeps. *)
Variable T : list event -> Prop.
Variable allowed : event -> bool.

Hypothesis T_nil : T [].
Hypothesis T_app : forall l1 l2, T l1 -> T l2 -> T (l1 ++ l2)%list.
Hypothesis T_delivery : forall w signum, T (delivery w signum).
Hypothesis T_main : forall e, allowed e = true -> T [e].

Lemma stretch_refl w : stretch T w w.
Proof. exists []. now rewrite app_nil_r. Qed.

Lemma stretch_trans w1 w2 w3 :
  stretch T w1 w2 -> stretch T w2 w3 -> stretch T w1 w3.
Proof.
  intros [l1 [t1 p1]] [l2 [t2 p2]]. exists (l1 ++ l2)%list.
  rewrite t2, t1, app_assoc. auto.
Qed.

Lemma stretch_same w w' : w_trace w' = w_trace w -> stretch T w w'.
Proof. intros E. exists []. now rewrite app_nil_r. Qed.

Lemma stretch_emit e w : allowed e = true -> stretch T w (emit e w).
Proof. intros A. exists [e]. split; [reflexivity | auto]. Qed.

Lemma stretch_deliveries sigs : forall w, stretch T w (fold_left deliver sigs w).
Proof.
  induction sigs as [|s sigs IH]; simpl; intros w; [apply stretch_refl|].
  eapply stretch_trans; [|apply IH].
  exists (delivery w s). split; [apply deliver_trace | apply T_delivery].
Qed.

Lemma stretch_async w : stretch T w (async env w).
Proof.
  unfold async. eapply stretch_trans; [|apply stretch_deliveries].
  now apply stretch_same.
Qed.

Lemma stretch_tick_emit e w :
  allowed e = true -> stretch T w (emit e (async env w)).
Proof.
  intros A. eapply stretch_trans; [apply stretch_async | now apply stretch_emit].
Qed.

Lemma print_out_stretch s :
  allowed (EvStdout s) = true -> respects (stretch T) (print_out env s).
Proof. intros A w r w' H. inversion H; subst. now apply stretch_tick_emit. Qed.

Lemma print_err_stretch s :
  allowed (EvStderr (s ++ NL)) = true -> respects (stretch T) (print_err env s).
Proof. intros A w r w' H. inversion H; subst. now apply stretch_tick_emit. Qed.

Lemma sleep_stretch d :
  allowed (EvSleep d) = true -> respects (stretch T) (sleep env d).
Proof. intros A w r w' H. inversion H; subst. now apply stretch_tick_emit. Qed.

Lemma monotonic_stretch :
  (forall t, allowed (EvClock t) = true) -> respects (stretch T) (monotonic env).
Proof. intros A w r w' H. inversion H; subst. now apply stretch_tick_emit. Qed.

Lemma signal_stretch signum h :
  allowed (EvSignalSet signum h) = true ->
  respects (stretch T) (signal env signum h).
Proof.
  intros A w r w' H. inversion H; subst.
  eapply stretch_trans; [apply stretch_async|].
  exists [EvSignalSet signum h]. split; [reflexivity | auto].
Qed.

Lemma kill_stretch signum :
  allowed (EvKill signum) = true -> respects (stretch T) (kill env signum).
Proof.
  intros A w r w' H. unfold kill in H.
  eapply stretch_trans; [apply stretch_async|].
  destruct (w_child (async env w)); inversion H; subst;
    try apply stretch_refl;
    (exists [EvKill signum]; split; [reflexivity | auto]).
Qed.

Lemma reap_stretch options w r w' :
  (forall p st, allowed (EvWait options p st) = true) ->
  allowed (EvWaitFailed options) = true ->
  reap env options w = Some (r, w') -> stretch T w w'.
Proof.
  intros A B H. unfold reap in H.
  destruct (w_child w); inversion H; subst;
    (eexists; split; [reflexivity | auto]).
Qed.

Lemma waitpid_nohang_stretch :
  (forall p st, allowed (EvWait WNOHANG p st) = true) ->
  allowed (EvWaitFailed WNOHANG) = true ->
  respects (stretch T) (waitpid_nohang env).
Proof.
  intros A B w r w' H. unfold waitpid_nohang in H.
  eapply stretch_trans; [apply stretch_async|].
  destruct (reap env WNOHANG (async env w)) as [[r1 w1]|] eqn:Rp.
  - inversion H; subst. eapply reap_stretch; eauto.
  - inversion H; subst. now apply stretch_emit.
Qed.

Lemma waitpid_block_stretch fuel :
  (forall p st, allowed (EvWait 0 p st) = true) ->
  allowed (EvWaitFailed 0) = true ->
  respects (stretch T) (waitpid_block env fuel).
Proof.
  intros A B. induction fuel as [|fuel IH]; intros w r w' H; simpl in H;
    [discriminate|].
  eapply stretch_trans; [apply stretch_async|].
  destruct (reap env 0 (async env w)) as [[r1 w1]|] eqn:Rp.
  - inversion H; subst. eapply reap_stretch; eauto.
  - eapply IH; eauto.
Qed.

(** The timeout path, event by event. *)
Lemma timeout_path_steps fuel :
  allowed (EvStderr ((NL ++ "Process timed out.") ++ NL)) = true ->
  allowed (EvKill SIGTERM) = true -> allowed (EvKill SIGKILL) = true ->
  allowed (EvSleep 1) = true ->
  (forall options p st, allowed (EvWait options p st) = true) ->
  (forall options, allowed (EvWaitFailed options) = true) ->
  respects (stretch T) (timeout_path env fuel).
Proof.
  intros Am At Ak As Aw Af. unfold timeout_path.
  apply (respects_bind _ stretch_trans).
  { now apply print_err_stretch. }
  intros _. apply (respects_bind _ stretch_trans).
  { now apply kill_stretch. }
  intros _. apply (respects_bind _ stretch_trans).
  { now apply sleep_stretch. }
  intros _. apply (respects_bind _ stretch_trans).
  - apply respects_except. apply (respects_bind _ stretch_trans).
    { now apply waitpid_nohang_stretch. }
    intros r. destruct (fst r =? 0).
    + apply (respects_bind _ stretch_trans); [now apply kill_stretch|].
      intros _. apply (respects_bind _ stretch_trans).
      { now apply waitpid_block_stretch. }
      intros _. apply respects_ret, stretch_refl.
    + apply respects_ret, stretch_refl.
  - intros _. apply respects_ret, stretch_refl.
Qed.

Hypothesis loop_allowed :
  forall e, loop_alphabet (has_timeout sp) e = true -> allowed e = true.

Lemma report_stretch : respects (stretch T) (report env).
Proof.
  intros w r w' H. unfold report in H.
  destruct (w_signal_received w).
  - revert H. apply (respects_bind _ stretch_trans).
    + apply print_err_stretch. now apply loop_allowed.
    + intros _ w1 r1 w1' H1. destruct (w_signal_received w1);
        inversion H1; apply stretch_refl.
  - revert H. apply (respects_bind _ stretch_trans).
    + apply print_err_stretch. now apply loop_allowed.
    + intros _. apply respects_ret, stretch_refl.
Qed.

Lemma interrupted_path_stretch fuel :
  respects (stretch T) (interrupted_path env fuel).
Proof.
  rewrite interrupted_path_unfold.
  apply (respects_bind _ stretch_trans).
  { apply sleep_stretch. now apply loop_allowed. }
  intros _. apply (respects_bind _ stretch_trans).
  { apply waitpid_block_stretch; [intros p st|]; now apply loop_allowed. }
  intros _. apply report_stretch.
Qed.

Lemma timeout_path_stretch fuel :
  has_timeout sp = true -> respects (stretch T) (timeout_path env fuel).
Proof.
  intros HT.
  apply timeout_path_steps; intros; apply loop_allowed; simpl;
    now rewrite ?HT.
Qed.

Lemma animate_stretch i : respects (stretch T) (animate env i).
Proof.
  unfold animate.
  apply (respects_bind _ stretch_trans).
  { apply print_out_stretch, loop_allowed. apply glyph_is_animation. }
  intros _. apply (respects_bind _ stretch_trans).
  { apply sleep_stretch. now apply loop_allowed. }
  intros _. apply print_out_stretch. now apply loop_allowed.
Qed.

Lemma spin_loop_stretch fuel : forall i start,
  respects (stretch T) (spin_loop env sp fuel i start).
Proof.
  induction fuel as [|fuel IH]; intros i start w r w' H; simpl in H;
    [discriminate|].
  destruct (w_interrupted w).
  - eapply interrupted_path_stretch; eauto.
  - revert H. apply (respects_bind _ stretch_trans).
    { apply waitpid_nohang_stretch; [intros p st|]; now apply loop_allowed. }
    intros r0. destruct (negb (fst r0 =? 0)).
    + apply respects_ret, stretch_refl.
    + destruct (max_duration sp) as [m|] eqn:MD.
      * assert (HT : has_timeout sp = true)
          by (unfold has_timeout; now rewrite MD).
        apply (respects_bind _ stretch_trans).
        { apply monotonic_stretch. intros t. apply loop_allowed.
          simpl. exact HT. }
        intros now. destruct (timed_out start now m).
        -- now apply timeout_path_stretch.
        -- apply (respects_bind _ stretch_trans); [apply animate_stretch|].
           intros _. apply IH.
      * apply (respects_bind _ stretch_trans); [apply animate_stretch|].
        intros _. apply IH.
Qed.

Lemma guarded_body_stretch fuel i start :
  respects (stretch T) (guarded_body env sp fuel i start).
Proof.
  unfold guarded_body. apply (respects_bind _ stretch_trans);
    [apply spin_loop_stretch|].
  intros [st|code]; apply respects_ret, stretch_refl.
Qed.

Hypothesis parent_allowed :
  forall e, parent_alphabet (has_timeout sp) e = true -> allowed e = true.

Lemma restore_stretch oi ot oq : respects (stretch T) (restore env oi ot oq).
Proof.
  unfold restore.
  apply (respects_bind _ stretch_trans).
  { apply signal_stretch, parent_allowed. apply orb_true_r. }
  intros _. apply (respects_bind _ stretch_trans).
  { apply signal_stretch, parent_allowed. apply orb_true_r. }
  intros _. apply (respects_bind _ stretch_trans).
  { apply signal_stretch, parent_allowed. apply orb_true_r. }
  intros _. apply (respects_bind _ stretch_trans).
  { apply print_out_stretch, parent_allowed. apply orb_true_r. }
  intros _. apply print_out_stretch, parent_allowed. apply orb_true_r.
Qed.

Lemma supervise_stretch fuel : respects (stretch T) (supervise env sp fuel).
Proof.
  unfold supervise.
  apply (respects_bind _ stretch_trans).
  { apply monotonic_stretch. intros t. apply parent_allowed, orb_true_r. }
  intros start. apply (respects_bind _ stretch_trans).
  { intros w r w' H. inversion H; subst. now apply stretch_same. }
  intros _. apply (respects_bind _ stretch_trans).
  { apply signal_stretch, parent_allowed. apply orb_true_r. }
  intros oi. apply (respects_bind _ stretch_trans).
  { apply signal_stretch, parent_allowed. apply orb_true_r. }
  intros ot. apply (respects_bind _ stretch_trans).
  { apply signal_stretch, parent_allowed. apply orb_true_r. }
  intros oq. apply (respects_try_finally _ stretch_refl stretch_trans).
  - apply guarded_body_stretch.
  - apply restore_stretch.
Qed.

End TraceInvariant.

(* ================================================================== *)
(** ** What a finished run of the parent has in its trace *)

(** The trace of the parent splits into the opening and what came after
    the fork. *)
Lemma spin_parent_inv fuel env sp o w' :
  spin fuel env sp Parent = Some (o, w') ->
  exists r,
    supervise env sp fuel
      (emit (EvFork (Zpos (env_pid env)))
         (set_child (Running (own_status env (normalize (sp_command sp))
                                (prologue sp (initial env))))
            (prologue sp (initial env)))) = Some (r, w') /\
    o = match r with Ok code => Returned code | Raise e => Raised e end.
Proof.
  unfold spin. cbn [fork_result Z.eqb]. set (w1 := emit _ _).
  destruct (supervise env sp fuel w1) as [[[c|e] w2]|]; intros H;
    inversion H; subst; eauto.
Qed.

Lemma forwarding_app l1 l2 :
  forwarding l1 = Some None -> forwarding l2 = Some None ->
  forwarding (l1 ++ l2) = Some None.
Proof.
  unfold forwarding. intros H1 H2. now rewrite fold_left_app, H1.
Qed.

Lemma forwarding_delivery w signum : forwarding (delivery w signum) = Some None.
Proof.
  unfold delivery, forwarding. destruct (w_handlers w signum); simpl;
    [reflexivity|]. now rewrite Z.eqb_refl.
Qed.

Lemma forwarding_main e :
  negb (is_async e) = true -> forwarding [e] = Some None.
Proof. destruct e; simpl; intros H; try discriminate H; reflexivity. Qed.

Lemma alphabet_main timeout e :
  parent_alphabet timeout e = true -> negb (is_async e) = true.
Proof. destruct e; simpl; intros H; try discriminate H; reflexivity. Qed.

Lemma loop_in_parent timeout e :
  loop_alphabet timeout e = true -> parent_alphabet timeout e = true.
Proof. intros H. unfold parent_alphabet. now rewrite H. Qed.

(** X1.  Forwarding discipline.  In the trace of every finished run of the
    parent, each delivery of a signal to [sig_handler] is followed at once
    by the [kill] that forwards the same signal to the child, and nothing
    is forwarded without such a delivery: not for a signal taken by the
    caller's own handler, and not twice. *)
Theorem every_handled_signal_is_forwarded fuel env sp o w' :
  spin fuel env sp Parent = Some (o, w') ->
  forwarding (w_trace w') = Some None.
Proof.
  intros H. destruct (spin_parent_inv fuel env sp o w' H) as [r [S _]].
  destruct (supervise_stretch env sp
              (fun l => forwarding l = Some None)
              (fun e => negb (is_async e))
              eq_refl forwarding_app forwarding_delivery forwarding_main
              (fun e A => alphabet_main _ e (loop_in_parent _ e A))
              (fun e A => alphabet_main _ e A)
              fuel _ _ _ S) as [l [t F]].
  rewrite t. apply forwarding_app; [reflexivity | exact F].
Qed.

Lemma every_handled_signal_is_forwarded_witness :
  exists w',
    spin 10 ctrl_c_env demo_spinner Parent = Some (Returned 130, w') /\
    forwarding (w_trace w') = Some None.
Proof.
  destruct ctrl_c_run as [w' [R _]]. exists w'. split; [exact R|].
  exact (every_handled_signal_is_forwarded 10 ctrl_c_env demo_spinner _ w' R).
Defined.

(** After the fork the parent's trace holds deliveries and events of the
    parent's alphabet, nothing else. *)
Lemma spin_alphabet fuel env sp o w' :
  spin fuel env sp Parent = Some (o, w') ->
  exists l,
    w_trace w' =
      ([EvStdout (wait_text sp ++ " "); EvStdout HIDE_CURSOR;
        EvFork (Zpos (env_pid env))] ++ l)%list /\
    forallb (fun e => is_async e || parent_alphabet (has_timeout sp) e) l = true.
Proof.
  intros H. destruct (spin_parent_inv fuel env sp o w' H) as [r [S _]].
  set (P := fun e => is_async e || parent_alphabet (has_timeout sp) e).
  assert (Tn : forallb P [] = true) by reflexivity.
  assert (Ta : forall l1 l2, forallb P l1 = true -> forallb P l2 = true ->
                 forallb P (l1 ++ l2) = true).
  { intros l1 l2 H1 H2. now rewrite forallb_app, H1, H2. }
  assert (Td : forall w s, forallb P (delivery w s) = true).
  { intros w s. unfold delivery. destruct (w_handlers w s); reflexivity. }
  assert (Tm : forall e, parent_alphabet (has_timeout sp) e = true ->
                 forallb P [e] = true).
  { intros e A. simpl. unfold P. now rewrite A, orb_true_r. }
  destruct (supervise_stretch env sp (fun l => forallb P l = true)
              (parent_alphabet (has_timeout sp)) Tn Ta Td Tm
              (loop_in_parent _) (fun e A => A) fuel _ _ _ S) as [l [t F]].
  exists l. split; [exact t | exact F].
Qed.

(** X2.  The supervisor signals the child on its own initiative only to
    enforce the timeout: a [kill] in the main line of a finished run means
    that a maximum duration is configured, and the signal is SIGTERM or
    SIGKILL.  Without [max_duration] the only signals the child gets from
    the supervisor are the forwarded ones. *)
Theorem own_kills_only_for_timeout fuel env sp o w' signum :
  spin fuel env sp Parent = Some (o, w') ->
  In (EvKill signum) (w_trace w') ->
  max_duration sp <> None /\ (signum = SIGTERM \/ signum = SIGKILL).
Proof.
  intros H I. destruct (spin_alphabet fuel env sp o w' H) as [l [t F]].
  rewrite t in I. simpl in I.
  destruct I as [I|[I|[I|I]]]; try discriminate I.
  rewrite forallb_forall in F. specialize (F _ I).
  cbn [is_async orb] in F. unfold parent_alphabet, loop_alphabet in F.
  rewrite orb_false_r in F. apply andb_true_iff in F. destruct F as [HT K].
  split.
  - unfold has_timeout in HT. destruct (max_duration sp); congruence.
  - apply orb_true_iff in K. destruct K as [K|K]; apply Z.eqb_eq in K; auto.
Qed.

Lemma own_kills_only_for_timeout_witness :
  exists w',
    spin 10 slow_env slow_spinner Parent = Some (Returned 124, w') /\
    In (EvKill SIGKILL) (w_trace w') /\
    max_duration slow_spinner <> None /\
    (SIGKILL = SIGTERM \/ SIGKILL = SIGKILL).
Proof.
  destruct slow_run as [w' [R M]]. exists w'. split; [exact R|].
  assert (I : In (EvKill SIGKILL) (w_trace w')).
  { assert (IM : In (EvKill SIGKILL) (mainline (w_trace w'))).
    { rewrite M. simpl. tauto. }
    unfold mainline in IM. apply filter_In in IM. tauto. }
  split; [exact I|].
  exact (own_kills_only_for_timeout 10 slow_env slow_spinner _ w' SIGKILL R I).
Defined.

(** X3.  Everything a finished run of the parent writes to the standard
    output is the wait message followed by a space, one of the two cursor
    sequences, one of the four glyphs, a backspace, or the final newline. *)
Theorem stdout_alphabet fuel env sp o w' s :
  spin fuel env sp Parent = Some (o, w') ->
  In (EvStdout s) (w_trace w') ->
  s = wait_text sp ++ " " \/ s = HIDE_CURSOR \/ s = SHOW_CURSOR \/ s = NL \/
  In s ["-"; "\"; "|"; "/"; BS].
Proof.
  intros H I. destruct (spin_alphabet fuel env sp o w' H) as [l [t F]].
  rewrite t in I. simpl in I.
  destruct I as [I|[I|[I|I]]]; try discriminate I.
  - inversion I. auto.
  - inversion I. auto.
  - rewrite forallb_forall in F. specialize (F _ I).
    cbn [is_async orb] in F. unfold parent_alphabet, loop_alphabet in F.
    apply orb_true_iff in F. destruct F as [F|F].
    + right; right; right; right.
      unfold is_animation in F. apply existsb_exists in F.
      destruct F as [x [Ix E]]. apply String.eqb_eq in E. now subst.
    + apply orb_true_iff in F. destruct F as [F|F]; apply String.eqb_eq in F;
        auto.
Qed.

Lemma stdout_alphabet_witness :
  exists w',
    spin 10 demo_env demo_spinner Parent = Some (Returned 3, w') /\
    forall s, In (EvStdout s) (w_trace w') ->
      s = "Hehe Waitin " \/ s = HIDE_CURSOR \/ s = SHOW_CURSOR \/ s = NL \/
      In s ["-"; "\"; "|"; "/"; BS].
Proof.
  destruct demo_run as [w' R]. exists w'. split; [exact R|].
  intros s. exact (stdout_alphabet 10 demo_env demo_spinner _ w' s R).
Defined.

Lemma count_stdout_app s l1 l2 :
  count_stdout s (l1 ++ l2) = (count_stdout s l1 + count_stdout s l2)%nat.
Proof. unfold count_stdout. now rewrite filter_app, length_app. Qed.

Lemma count_stdout_mainline s l :
  count_stdout s (mainline l) = count_stdout s l.
Proof.
  unfold count_stdout, mainline. induction l as [|e l IH]; [reflexivity|].
  simpl. destruct e; simpl; auto; destruct (String.eqb s0 s); simpl; auto.
Qed.

Lemma count_stdout_emits s ev w w' :
  emits ev w w' ->
  count_stdout s (w_trace w') = (count_stdout s (w_trace w) + count_stdout s ev)%nat.
Proof.
  intros [l [t m]]. now rewrite t, count_stdout_app, <- m, count_stdout_mainline.
Qed.

Lemma no_cursor_app l1 l2 : no_cursor l1 -> no_cursor l2 -> no_cursor (l1 ++ l2).
Proof.
  unfold no_cursor. intros [A1 B1] [A2 B2].
  rewrite !count_stdout_app, A1, A2, B1, B2. auto.
Qed.

Lemma no_cursor_delivery w signum : no_cursor (delivery w signum).
Proof. unfold delivery. destruct (w_handlers w signum); split; reflexivity. Qed.

Lemma no_cursor_loop timeout e :
  loop_alphabet timeout e = true -> no_cursor [e].
Proof.
  destruct e; try (split; reflexivity). simpl. intros A.
  repeat (apply orb_true_iff in A; destruct A as [A|A];
          [apply String.eqb_eq in A; subst; split; reflexivity|]).
  discriminate A.
Qed.

Lemma plain_app s t : plain (s ++ t) = plain s && plain t.
Proof.
  unfold plain. induction s as [|c s IH]; simpl; [reflexivity|].
  now rewrite IH, andb_assoc.
Qed.

(** The writes of a finished run of the parent to the standard output. *)
Lemma stdout_writes fuel env sp o w' s :
  spin fuel env sp Parent = Some (o, w') ->
  In (EvStdout s) (w_trace w') ->
  s = wait_text sp ++ " " \/ s = HIDE_CURSOR \/ s = SHOW_CURSOR \/ s = NL \/
  In s ["-"; "\"; "|"; "/"; BS].
Proof.
  intros H I. destruct (spin_alphabet fuel env sp o w' H) as [l [t F]].
  rewrite t in I. simpl in I.
  destruct I as [I|[I|[I|I]]]; try discriminate I.
  - inversion I. auto.
  - inversion I. auto.
  - rewrite forallb_forall in F. specialize (F _ I).
    cbn [is_async orb] in F. unfold parent_alphabet, loop_alphabet in F.
    apply orb_true_iff in F. destruct F as [F|F].
    + right; right; right; right.
      unfold is_animation in F. apply existsb_exists in F.
      destruct F as [x [Ix E]]. apply String.eqb_eq in E. now subst.
    + apply orb_true_iff in F. destruct F as [F|F]; apply String.eqb_eq in F;
        auto.
Qed.

(** X4.  A call of [spin] that returns a code to its caller, with a wait
    message that holds no escape character, has written the hide-cursor
    sequence in exactly one of its prints and the show-cursor sequence in
    exactly one, and no other print holds an escape character: the
    terminal has seen each sequence once.  (A call that is left by an
    exception ahead of the [try], or whose [finally] clause is cut short,
    does not return a code.) *)
Theorem cursor_sequences_once fuel env sp code w' :
  spin fuel env sp Parent = Some (Returned code, w') ->
  plain (wait_text sp) = true ->
  count_stdout HIDE_CURSOR (w_trace w') = 1%nat /\
  count_stdout SHOW_CURSOR (w_trace w') = 1%nat /\
  forall s, In (EvStdout s) (w_trace w') ->
    s = HIDE_CURSOR \/ s = SHOW_CURSOR \/ plain s = true.
Proof.
  intros H P. split; [|split].
  3: { intros s I.
       destruct (stdout_writes _ _ _ _ _ _ H I) as [->|[->|[->|[->|G]]]];
         [|now left|now (right; left)| |]; right; right.
       - rewrite plain_app, P. reflexivity.
       - reflexivity.
       - simpl in G.
         destruct G as [<-|[<-|[<-|[<-|[<-|[]]]]]]; reflexivity. }
  all: destruct (spin_parent_inv fuel env sp _ w' H) as [r [S _]];
    set (w0 := emit _ _) in S;
    assert (C0 : count_stdout HIDE_CURSOR (w_trace w0) = 1%nat /\
                 count_stdout SHOW_CURSOR (w_trace w0) = 0%nat)
      by (unfold w0, prologue, hide_cursor, initial, count_stdout; simpl;
          destruct (message_not_cursor (wait_text sp)) as [A B];
          rewrite A, B; split; reflexivity);
    destruct (supervise_unfold env sp fuel w0) as [w3 [U [_ [E3 _]]]];
    rewrite U in S;
    destruct (guarded_inv env sp _ _ _ _ _ _ _ _ _ S) as [w1 [B Rs]];
    destruct (restore_spec env (w_handlers w0 SIGINT) (w_handlers w0 SIGTERM)
                (w_handlers w0 SIGQUIT) w1) as [w2 [Rs' [_ [E2 _]]]];
    rewrite Rs in Rs'; inversion Rs'; subst w2;
    destruct (guarded_body_stretch env sp no_cursor
                (loop_alphabet (has_timeout sp))
                (conj eq_refl eq_refl) no_cursor_app no_cursor_delivery
                (no_cursor_loop _) (fun e A => A) fuel _ _ _ _ _ B)
      as [l [t [L1 L2]]];
    rewrite (count_stdout_emits _ _ _ _ E2);
    rewrite t, !count_stdout_app, ?L1, ?L2;
    rewrite (count_stdout_emits _ _ _ _ E3);
    destruct C0 as [C1 C2]; rewrite ?C1, ?C2; reflexivity.
Qed.

Lemma cursor_sequences_once_witness :
  exists w',
    spin 10 ctrl_c_env demo_spinner Parent = Some (Returned 130, w') /\
    plain (wait_text demo_spinner) = true /\
    count_stdout HIDE_CURSOR (w_trace w') = 1%nat /\
    count_stdout SHOW_CURSOR (w_trace w') = 1%nat /\
    forall s, In (EvStdout s) (w_trace w') ->
      s = HIDE_CURSOR \/ s = SHOW_CURSOR \/ plain s = true.
Proof.
  destruct ctrl_c_run as [w' [R _]]. exists w'. split; [exact R|].
  split; [reflexivity|].
  exact (cursor_sequences_once 10 ctrl_c_env demo_spinner 130 w' R eq_refl).
Defined.

(* ================================================================== *)
(** ** What the state of the parent keeps *)

Lemma bind_inv {A B : Type} (m : M A) (k : A -> M B) w r w' :
  bind m k w = Some (r, w') ->
  (exists a w1, m w = Some (Ok a, w1) /\ k a w1 = Some (r, w')) \/
  (exists e, m w = Some (Raise e, w') /\ r = Raise e).
Proof.
  unfold bind. destruct (m w) as [[[a|e] w1]|]; intros H; try discriminate.
  - left. eauto.
  - right. inversion H; subst. eauto.
Qed.

Lemma emits_in e w w' : emits [e] w w' -> In e (w_trace w').
Proof.
  intros [l [t m]]. rewrite t. apply in_or_app. right.
  assert (I : In e (mainline l)) by (rewrite m; now left).
  unfold mainline in I. now apply filter_In in I.
Qed.

Lemma async_alive env w : w_child w <> Gone -> w_child (async env w) <> Gone.
Proof. apply drift_alive, async_drift. Qed.

(** A wait for a child that is still there does not fail. *)
Lemma waitpid_block_alive env fuel : forall w r w',
  w_child w <> Gone -> waitpid_block env fuel w = Some (r, w') ->
  exists v, r = Ok v.
Proof.
  induction fuel as [|fuel IH]; intros w r w' NG H; simpl in H; [discriminate|].
  pose proof (async_alive env w NG) as NG1.
  unfold reap in H. destruct (w_child (async env w)) eqn:C.
  - eapply IH; [|exact H]. rewrite C. discriminate.
  - inversion H; eauto.
  - congruence.
Qed.

(** What every delivery keeps, the asynchronous events of a tick keep. *)
Lemma async_keeps env (J : World -> Prop) :
  (forall w signum, J w -> J (deliver w signum)) ->
  (forall w w',
     w_interrupted w' = w_interrupted w ->
     w_signal_received w' = w_signal_received w ->
     w_handlers w' = w_handlers w -> J w -> J w') ->
  forall w, J w -> J (async env w).
Proof.
  intros Jd Jf w H. unfold async.
  set (w0 := mkWorld _ _ _ _ _ _).
  assert (H0 : J w0) by (revert H; now apply Jf).
  clearbody w0. revert w0 H0.
  induction (tk_signals (env_ticks env (w_time w))) as [|x sigs IH];
    intros w0 H0; simpl; [exact H0|].
  apply IH, Jd, H0.
Qed.

Section WorldInvariant.

Variable env : Env.
Variable sp : Spinner.

(** [J] speaks of the flags and of the handler table, and the
    asynchronous events of the script keep it. *)
Variable J : World -> Prop.

Hypothesis J_async : forall w, J w -> J (async env w).
Hypothesis J_flags : forall w w',
  w_interrupted w' = w_interrupted w ->
  w_signal_received w' = w_signal_received w ->
  w_handlers w' = w_handlers w -> J w -> J w'.

Lemma preserves_refl w : preserves J w w.
Proof. intros H. exact H. Qed.

Lemma preserves_trans w1 w2 w3 :
  preserves J w1 w2 -> preserves J w2 w3 -> preserves J w1 w3.
Proof. unfold preserves. auto. Qed.

Lemma preserves_async w : preserves J w (async env w).
Proof. exact (J_async w). Qed.

Lemma preserves_tick_emit e w : preserves J w (emit e (async env w)).
Proof.
  intros H. apply (J_flags (async env w)); try reflexivity.
  now apply preserves_async.
Qed.

Lemma print_out_preserves s : respects (preserves J) (print_out env s).
Proof. intros w r w' H. inversion H. apply preserves_tick_emit. Qed.

Lemma print_err_preserves s : respects (preserves J) (print_err env s).
Proof. intros w r w' H. inversion H. apply preserves_tick_emit. Qed.

Lemma sleep_preserves d : respects (preserves J) (sleep env d).
Proof. intros w r w' H. inversion H. apply preserves_tick_emit. Qed.

Lemma monotonic_preserves : respects (preserves J) (monotonic env).
Proof. intros w r w' H. inversion H. apply preserves_tick_emit. Qed.

Lemma reap_preserves options w r w' :
  reap env options w = Some (r, w') -> preserves J w w'.
Proof.
  unfold reap. destruct (w_child w); intros H; inversion H; subst;
    intros Hj; revert Hj; now apply J_flags.
Qed.

Lemma waitpid_nohang_preserves : respects (preserves J) (waitpid_nohang env).
Proof.
  intros w r w' H. unfold waitpid_nohang in H.
  destruct (reap env WNOHANG (async env w)) as [[r1 w1]|] eqn:Rp.
  - inversion H; subst. eapply preserves_trans; [apply preserves_async|].
    eapply reap_preserves; eauto.
  - inversion H; subst. apply preserves_tick_emit.
Qed.

Lemma waitpid_block_preserves fuel :
  respects (preserves J) (waitpid_block env fuel).
Proof.
  induction fuel as [|fuel IH]; intros w r w' H; simpl in H; [discriminate|].
  destruct (reap env 0 (async env w)) as [[r1 w1]|] eqn:Rp.
  - inversion H; subst. eapply preserves_trans; [apply preserves_async|].
    eapply reap_preserves; eauto.
  - eapply preserves_trans; [apply preserves_async|]. eapply IH; eauto.
Qed.

Lemma animate_preserves i : respects (preserves J) (animate env i).
Proof.
  unfold animate.
  apply (respects_bind _ preserves_trans); [apply print_out_preserves|].
  intros _. apply (respects_bind _ preserves_trans); [apply sleep_preserves|].
  intros _. apply print_out_preserves.
Qed.

Hypothesis J_agree : forall w, J w -> flags_agree w.

(** With the flags in agreement the report names a recorded signal: the
    branch for an interruption without a signal is not taken, and the sum
    [128 + signal_received] is defined. *)
Lemma report_origin w r w' :
  J w -> w_interrupted w = true -> report env w = Some (r, w') ->
  exists w1 n, J w1 /\ w_signal_received w1 = Some n /\
               r = Ok (Return (128 + n)).
Proof.
  intros Hj I H. unfold report in H.
  pose proof (J_agree w Hj I) as NN.
  destruct (w_signal_received w) as [n|] eqn:SR; [|congruence].
  apply bind_inv in H. destruct H as [[u [w1 [P H]]]|[e [P _]]];
    [|discriminate P].
  assert (J1 : J w1) by (eapply print_err_preserves; eauto).
  assert (N1 : w_signal_received w1 <> None).
  { inversion P; subst.
    apply (drift_signal _ _ (tick_emit_drift env _ w)). congruence. }
  destruct (w_signal_received w1) as [n'|] eqn:SR1; [|congruence].
  inversion H; subst. exists w', n'. auto.
Qed.

Lemma interrupted_path_origin fuel w r w' :
  J w -> w_interrupted w = true -> w_child w <> Gone ->
  interrupted_path env fuel w = Some (r, w') ->
  exists w1 n, J w1 /\ w_signal_received w1 = Some n /\
               r = Ok (Return (128 + n)).
Proof.
  intros Hj I NG H. rewrite interrupted_path_unfold in H.
  apply bind_inv in H. destruct H as [[u [w1 [P H]]]|[e [P _]]];
    [|discriminate P].
  pose proof (sleep_preserves _ _ _ _ P Hj) as J1.
  pose proof (sleep_frame env _ _ _ _ P) as F1.
  assert (NG1 : w_child w1 <> Gone).
  { inversion P; subst. simpl. now apply async_alive. }
  apply bind_inv in H. destruct H as [[v [w2 [W H]]]|[e [W _]]].
  - apply (report_origin w2 r w'); [| |exact H].
    + eapply waitpid_block_preserves; eauto.
    + apply (frame_interrupted _ _ (waitpid_block_frame env _ _ _ _ W)).
      now apply (frame_interrupted _ _ F1).
  - destruct (waitpid_block_alive env _ _ _ _ NG1 W) as [v E]. discriminate E.
Qed.

(** However the loop is left from a state where the child is still there,
    it is left by [break] or [return], never by an exception. *)
Lemma spin_loop_origin fuel : forall i start w r w',
  J w -> w_child w <> Gone ->
  spin_loop env sp fuel i start w = Some (r, w') -> loop_origin env J r w'.
Proof.
  induction fuel as [|fuel IH]; intros i start w r w' Hj NG H; simpl in H;
    [discriminate|].
  destruct (w_interrupted w) eqn:I.
  { right; right. eapply interrupted_path_origin; eauto. }
  assert (Go : forall w2, J w2 -> w_child w2 <> Gone ->
             (animate env i ;;; spin_loop env sp fuel (S i) start) w2
               = Some (r, w') -> loop_origin env J r w').
  { intros w2 J2 NG2 H2.
    destruct (animate_ok env i w2) as [w3 [A [D3 _]]].
    rewrite (bind_ok _ _ _ _ _ A) in H2.
    apply (IH (S i) start w3); [| |exact H2].
    - eapply animate_preserves; eauto.
    - eapply drift_alive; eauto. }
  destruct (waitpid_nohang_cases env w)
    as [[st [w1 [W [_ [_ [_ [Em _]]]]]]]
       |[[w1 [W G]]|[own [w1 [W [C [D _]]]]]]].
  - rewrite (bind_ok _ _ _ _ _ W) in H. cbn [fst snd] in H.
    unfold pid in H. cbn [Z.eqb negb] in H. inversion H; subst.
    left. exists st. split; [reflexivity|]. eapply emits_in; eauto.
  - exfalso. now apply (async_alive env w NG).
  - rewrite (bind_ok _ _ _ _ _ W) in H. cbn [fst snd Z.eqb negb] in H.
    pose proof (waitpid_nohang_preserves _ _ _ W Hj) as J1.
    assert (NG1 : w_child w1 <> Gone) by (rewrite C; discriminate).
    destruct (max_duration sp) as [m|]; [|now apply (Go w1)].
    destruct (monotonic_ok env w1) as [Mo [D2 _]].
    rewrite (bind_ok _ _ _ _ _ Mo) in H.
    pose proof (monotonic_preserves _ _ _ Mo J1) as J2.
    pose proof (drift_alive _ _ D2 NG1) as NG2.
    destruct (timed_out start _ m); [|now apply (Go _ J2 NG2)].
    destruct (timeout_path_spec env fuel _ NG2)
      as [[w4 [tail [TP _]]]|[_ TP]]; rewrite TP in H; [|discriminate].
    inversion H; subst. right; left. reflexivity.
Qed.

Lemma guarded_body_origin fuel i start w r w' :
  J w -> w_child w <> Gone ->
  guarded_body env sp fuel i start w = Some (r, w') ->
  exists code, r = Ok code /\ code_origin env J code w'.
Proof.
  intros Hj NG H. unfold guarded_body in H.
  apply bind_inv in H. destruct H as [[x [w1 [L H]]]|[e [L _]]];
    pose proof (spin_loop_origin _ _ _ _ _ _ Hj NG L)
      as [[st [E I]]|[E|[w2 [n [J2 [S2 E]]]]]];
    try discriminate E; inversion E; subst x; inversion H; subst.
  - exists (exit_code st). split; [reflexivity|]. left. eauto.
  - exists 124. split; [reflexivity|]. right; left. reflexivity.
  - exists (128 + n). split; [reflexivity|]. right; right. eauto.
Qed.

Hypothesis J_install : forall w signum,
  handled signum = true -> J w -> J (set_handler signum SigHandler w).

Lemma signal_install signum w :
  handled signum = true -> J w -> w_child w <> Gone ->
  let w' := emit (EvSignalSet signum SigHandler)
              (set_handler signum SigHandler (async env w)) in
  J w' /\ w_child w' <> Gone.
Proof.
  intros Hs Hj NG. simpl. split; [|now apply async_alive].
  apply (J_flags (set_handler signum SigHandler (async env w)));
    try reflexivity.
  now apply J_install, preserves_async.
Qed.

(** The parent after the fork, started with the child there and [J]
    holding once the flags are initialised. *)
Lemma supervise_origin fuel w r w' :
  (forall w1, w_handlers w1 = w_handlers w -> J (init_flags w1)) ->
  w_child w <> Gone ->
  supervise env sp fuel w = Some (r, w') ->
  exists code, r = Ok code /\ code_origin env J code w'.
Proof.
  intros Init NG H. unfold supervise in H.
  rewrite (bind_ok _ _ _ _ _ (proj1 (monotonic_ok env w))) in H.
  unfold bind at 1 in H. cbn [ret] in H. unfold bind at 1, signal in H.
  unfold bind at 1, signal in H. unfold bind at 1, signal in H.
  set (w0 := init_flags (emit (EvClock (tk_now (env_ticks env (w_time w))))
                           (async env w))) in *.
  assert (J0 : J w0).
  { apply Init. simpl. apply (drift_handlers _ _ (async_drift env w)). }
  assert (NG0 : w_child w0 <> Gone) by (simpl; now apply async_alive).
  destruct (signal_install SIGINT w0 eq_refl J0 NG0) as [J1 NG1].
  set (w1 := emit (EvSignalSet SIGINT SigHandler)
               (set_handler SIGINT SigHandler (async env w0))) in *.
  destruct (signal_install SIGTERM w1 eq_refl J1 NG1) as [J2 NG2].
  set (w2 := emit (EvSignalSet SIGTERM SigHandler)
               (set_handler SIGTERM SigHandler (async env w1))) in *.
  destruct (signal_install SIGQUIT w2 eq_refl J2 NG2) as [J3 NG3].
  set (w3 := emit (EvSignalSet SIGQUIT SigHandler)
               (set_handler SIGQUIT SigHandler (async env w2))) in *.
  destruct (guarded_inv env sp _ _ _ _ _ _ _ _ _ H) as [w4 [B Rs]].
  destruct (guarded_body_origin _ _ _ _ _ _ J3 NG3 B) as [code [E O]].
  exists code. split; [exact E|].
  destruct (restore_spec env (w_handlers (async env w0) SIGINT)
              (w_handlers (async env w1) SIGTERM)
              (w_handlers (async env w2) SIGQUIT) w4)
    as [w5 [Rs' [_ [_ [[_ [l t]] _]]]]].
  rewrite Rs in Rs'. inversion Rs'; subst w5.
  destruct O as [[st [Ec I]]|[Ec|O]].
  - left. exists st. split; [exact Ec|]. rewrite t. apply in_or_app. now left.
  - right; left. exact Ec.
  - right; right. exact O.
Qed.

End WorldInvariant.

Lemma flags_agree_deliver w signum :
  flags_agree w -> flags_agree (deliver w signum).
Proof.
  unfold flags_agree, deliver, sig_handler. intros H.
  destruct (w_handlers w signum); [exact H|].
  simpl. destruct (w_child w); simpl; intros _; discriminate.
Qed.

Lemma flags_agree_flags w w' :
  w_interrupted w' = w_interrupted w ->
  w_signal_received w' = w_signal_received w ->
  w_handlers w' = w_handlers w -> flags_agree w -> flags_agree w'.
Proof. unfold flags_agree. intros -> -> _ H. exact H. Qed.

Lemma handled_cases n :
  handled n = true -> n = SIGINT \/ n = SIGTERM \/ n = SIGQUIT.
Proof.
  unfold handled. intros H.
  apply orb_true_iff in H. destruct H as [H|H].
  - apply orb_true_iff in H. destruct H as [H|H]; apply Z.eqb_eq in H; auto.
  - apply Z.eqb_eq in H; auto.
Qed.

Lemma own_signals_deliver w signum :
  own_signals w -> own_signals (deliver w signum).
Proof.
  intros [A [Hh Hr]]. split; [now apply flags_agree_deliver|].
  rewrite (drift_handlers _ _ (deliver_drift w signum)).
  split; [exact Hh|].
  unfold deliver, sig_handler.
  destruct (w_handlers w signum) eqn:E; [exact Hr|].
  specialize (Hh _ E). simpl.
  destruct (w_child w); simpl; intros n Hn; inversion Hn; subst; exact Hh.
Qed.

Lemma own_signals_flags w w' :
  w_interrupted w' = w_interrupted w ->
  w_signal_received w' = w_signal_received w ->
  w_handlers w' = w_handlers w -> own_signals w -> own_signals w'.
Proof.
  intros I S H [A [Hh Hr]]. split; [now apply (flags_agree_flags w)|].
  rewrite H, S. auto.
Qed.

Lemma own_signals_install w signum :
  handled signum = true -> own_signals w ->
  own_signals (set_handler signum SigHandler w).
Proof.
  intros Hs [A [Hh Hr]]. split; [exact A|]. split; [|exact Hr].
  simpl. intros s. destruct (s =? signum) eqn:E; [|apply Hh].
  apply Z.eqb_eq in E. now subst.
Qed.

(** The run of the parent begins with the child there and with the
    handler table the caller left. *)
Lemma spin_parent_start fuel env sp o w' :
  spin fuel env sp Parent = Some (o, w') ->
  exists w r,
    supervise env sp fuel w = Some (r, w') /\
    o = match r with Ok code => Returned code | Raise e => Raised e end /\
    w_handlers w = env_handlers env /\ w_child w <> Gone.
Proof.
  intros H. destruct (spin_parent_inv fuel env sp o w' H) as [r [S E]].
  eexists. exists r. split; [exact S|]. split; [exact E|].
  split; [reflexivity | discriminate].
Qed.

Lemma exit_code_range st : 0 <= exit_code st <= 255.
Proof.
  unfold exit_code, WIFEXITED, WIFSIGNALED, WEXITSTATUS, WTERMSIG.
  assert (A : 0 <= Z.land st 127 < 128).
  { change 127 with (Z.ones 7). rewrite Z.land_ones by lia.
    apply Z.mod_pos_bound. reflexivity. }
  assert (B : 0 <= Z.shiftr (Z.land st 65280) 8 < 256).
  { rewrite Z.shiftr_land. change (Z.shiftr 65280 8) with (Z.ones 8).
    rewrite Z.land_ones by lia. apply Z.mod_pos_bound. reflexivity. }
  destruct (Z.land st 127 =? 0); [lia|].
  destruct (0 <? _); lia.
Qed.

(** X5.  The errors that [spin]'s own dealings with the child could cause
    never leave it, in any circumstances of the call: no [kill] of the main
    line raises [ProcessLookupError] and no [waitpid] raises
    [ChildProcessError], because the child stays until [spin] has waited
    for it and the loop is left as soon as it has; and
    [128 + signal_received] is never a [TypeError], because
    [signal_received] is set whenever [interrupted] is.  (The exceptions
    the model leaves [spin] by are those of [fork] and [signal].) *)
Theorem own_errors_never_escape fuel env sp r o w' :
  spin fuel env sp r = Some (o, w') ->
  o <> Raised ProcessLookupError /\ o <> Raised ChildProcessError /\
  o <> Raised TypeError.
Proof.
  intros H. destruct r.
  - destruct (spin_parent_start _ _ _ _ _ H) as [w [r [S [E [Hh NG]]]]].
    destruct (supervise_origin env sp flags_agree
                (async_keeps env _ flags_agree_deliver flags_agree_flags)
                flags_agree_flags (fun w A => A) (fun w s _ A => A)
                fuel w r w') as [code [Er _]]; [|exact NG|exact S|].
    + intros w1 _ I. discriminate I.
    + subst r o. repeat split; discriminate.
  - unfold spin in H. cbn [fork_result Z.eqb] in H.
    unfold child_branch, exec_failed in H.
    destruct (normalize (sp_command sp));
      [inversion H; repeat split; discriminate|].
    destruct (env_execvp env _ _); inversion H; repeat split; discriminate.
  - inversion H. repeat split; discriminate.
  - unfold spin in H. cbn [fork_result Z.eqb] in H.
    rewrite supervise_off_main_run in H. inversion H.
    repeat split; discriminate.
Qed.

Lemma own_errors_never_escape_witness :
  exists w',
    spin 10 ctrl_c_env demo_spinner Parent = Some (Returned 130, w') /\
    Returned 130 <> Raised ProcessLookupError /\
    Returned 130 <> Raised ChildProcessError /\
    Returned 130 <> Raised TypeError.
Proof.
  destruct ctrl_c_run as [w' [R _]]. exists w'. split; [exact R|].
  exact (own_errors_never_escape 10 ctrl_c_env demo_spinner Parent _ w' R).
Defined.

(** X6.  When the caller's own handlers are in place at the start, the
    value [spin] returns lies between 0 and 255, and it is the translation
    of a wait status the poll collected, or 124, or 128 plus SIGINT,
    SIGTERM or SIGQUIT: no other signal number is ever recorded. *)
Theorem returned_code_origin fuel env sp code w' :
  (forall signum, env_handlers env signum <> SigHandler) ->
  spin fuel env sp Parent = Some (Returned code, w') ->
  0 <= code <= 255 /\
  ((exists st, In (EvWait WNOHANG (pid env) st) (w_trace w') /\
               code = exit_code st) \/
   code = 124 \/
   code = 128 + SIGINT \/ code = 128 + SIGTERM \/ code = 128 + SIGQUIT).
Proof.
  intros Hc H.
  destruct (spin_parent_start _ _ _ _ _ H) as [w [r [S [E [Hh NG]]]]].
  destruct (supervise_origin env sp own_signals
              (async_keeps env _ own_signals_deliver own_signals_flags)
              own_signals_flags (fun w A => proj1 A) own_signals_install
              fuel w r w') as [c [Er O]]; [|exact NG|exact S|].
  - intros w1 H1. split; [intros I; discriminate I|]. split.
    + simpl. intros s Hs. rewrite H1, Hh in Hs. now apply Hc in Hs.
    + simpl. intros n Hn. discriminate Hn.
  - subst r. inversion E; subst c. clear E.
    destruct O as [[st [Ec I]]|[Ec|[w1 [n [[_ [_ Hr]] [Sr Ec]]]]]].
    + split; [rewrite Ec; apply exit_code_range|]. left. eauto.
    + split; [lia|]. auto.
    + destruct (handled_cases n (Hr n Sr)) as [->|[->| ->]]; subst code;
        (split; [unfold SIGINT, SIGTERM, SIGQUIT; lia|]); auto.
Qed.

Lemma returned_code_origin_witness :
  exists w',
    spin 10 ctrl_c_env demo_spinner Parent = Some (Returned 130, w') /\
    0 <= 130 <= 255 /\
    ((exists st, In (EvWait WNOHANG (pid ctrl_c_env) st) (w_trace w') /\
                 130 = exit_code st) \/
     130 = 124 \/
     130 = 128 + SIGINT \/ 130 = 128 + SIGTERM \/ 130 = 128 + SIGQUIT).
Proof.
  destruct ctrl_c_run as [w' [R _]]. exists w'. split; [exact R|].
  apply (returned_code_origin 10 ctrl_c_env demo_spinner 130 w');
    [intros signum; discriminate | exact R].
Defined.

(* ================================================================== *)
(** ** The trace of a run that nothing interrupts *)

Section ExactRun.

Variable env : Env.
Variable sp : Spinner.
Variable n : nat.
Variable s : Z.
Variable own : option Z.

Hypothesis env_quiet : quiet env.
Hypothesis no_limit : max_duration sp = None.
Hypothesis env_ends : terminates_at env n s.

Lemma async_in_step w :
  in_step n s own w ->
  in_step n s own (async env w) /\
  w_trace (async env w) = w_trace w /\
  w_handlers (async env w) = w_handlers w /\
  w_time (async env w) = S (w_time w).
Proof.
  intros [I C]. rewrite (async_quiet env env_quiet). cbn.
  split; [|auto]. split; [exact I|]. cbn.
  destruct env_ends as [En Eb]. unfold child_update.
  destruct C as [[T R]|[T Z]].
  - rewrite R. destruct (Nat.eq_dec (w_time w) n) as [E|NE].
    + right. rewrite E, En. split; [lia|]. now destruct own.
    + left. rewrite Eb by lia. split; [lia|]. now destruct own.
  - right. rewrite Z. split; [lia|]. reflexivity.
Qed.

Lemma tick_emit_in_step e w :
  in_step n s own w ->
  in_step n s own (emit e (async env w)) /\
  w_trace (emit e (async env w)) = (w_trace w ++ [e])%list /\
  w_time (emit e (async env w)) = S (w_time w).
Proof.
  intros H. destruct (async_in_step w H) as [H1 [T1 [_ Tm]]].
  cbn. rewrite T1. auto.
Qed.

(** The loop: one frame of the animation for every poll that finds the
    child running, then the poll that collects it. *)
Lemma spin_loop_exact start : forall k fuel i w,
  in_step n s own w ->
  (4 * k <= n - w_time w + 3 < 4 * k + 4)%nat -> (k < fuel)%nat ->
  exists w',
    spin_loop env sp fuel i start w
      = Some (Ok (Break (final_status own s)), w') /\
    w_trace w' =
      (w_trace w ++ frames i k
         ++ [EvWait WNOHANG (pid env) (final_status own s)])%list.
Proof.
  induction k as [|k IH]; intros fuel i w H B F;
    (destruct fuel as [|fuel]; [lia|]);
    destruct (async_in_step w H) as [[I1 C1] [T1 [_ Tm]]];
    simpl spin_loop; rewrite (proj1 H);
    unfold bind at 1, waitpid_nohang, reap.
  - destruct C1 as [[L R]|[L Z]]; [lia|]. rewrite Z.
    cbn [fst snd]. unfold pid. cbn [Z.eqb negb ret].
    eexists. split; [reflexivity|]. cbn. now rewrite T1.
  - destruct C1 as [[L R]|[L Z]]; [|lia]. rewrite R.
    cbn [fst snd Z.eqb negb]. rewrite no_limit.
    set (w1 := emit (EvWait WNOHANG 0 0) (async env w)).
    assert (H1 : in_step n s own w1) by (split; [exact I1 | left; auto]).
    assert (Tr1 : w_trace w1 = (w_trace w ++ [EvWait WNOHANG 0 0])%list)
      by (cbn; now rewrite T1).
    assert (Tm1 : w_time w1 = S (w_time w)) by exact Tm.
    unfold animate, bind at 1, print_out.
    destruct (tick_emit_in_step (EvStdout (glyph i)) w1 H1) as [H2 [Tr2 Tm2]].
    set (w2 := emit (EvStdout (glyph i)) (async env w1)) in *.
    unfold bind at 1. unfold bind at 1, sleep.
    destruct (tick_emit_in_step (EvSleep (1 # 5)) w2 H2) as [H3 [Tr3 Tm3]].
    set (w3 := emit (EvSleep (1 # 5)) (async env w2)) in *.
    destruct (tick_emit_in_step (EvStdout BS) w3 H3) as [H4 [Tr4 Tm4]].
    set (w4 := emit (EvStdout BS) (async env w3)) in *.
    destruct (IH fuel (S i) w4 H4) as [w' [L' Tr']]; [lia|lia|].
    exists w'. split; [exact L'|].
    rewrite Tr', Tr4, Tr3, Tr2, Tr1. cbn [frames].
    now rewrite <- !app_assoc.
Qed.

End ExactRun.

Lemma frames_count n : (4 * ((n - 1) / 4) <= n - 4 + 3 < 4 * ((n - 1) / 4) + 4)%nat.
Proof.
  pose proof (Nat.div_mod_eq (n - 1) 4) as E.
  pose proof (Nat.mod_upper_bound (n - 1) 4) as U.
  lia.
Qed.

Lemma async_quiet_trace env w : quiet env -> w_trace (async env w) = w_trace w.
Proof. intros Q. now rewrite (async_quiet env Q). Qed.

Lemma restore_exact env oi ot oq w :
  quiet env ->
  exists w', restore env oi ot oq w = Some (Ok tt, w') /\
             w_trace w' = (w_trace w ++ restore_events oi ot oq)%list.
Proof.
  intros Q. unfold restore, bind, signal, print_out.
  eexists. split; [reflexivity|].
  repeat (rewrite (async_quiet_trace env _ Q) || cbn [w_trace emit set_handler]).
  unfold restore_events. now rewrite <- !app_assoc.
Qed.

Lemma signal_in_step env n s own signum h w :
  quiet env -> terminates_at env n s -> in_step n s own w ->
  let w' := emit (EvSignalSet signum h) (set_handler signum h (async env w)) in
  signal env signum h w = Some (Ok (w_handlers w signum), w') /\
  in_step n s own w' /\
  w_trace w' = (w_trace w ++ [EvSignalSet signum h])%list /\
  w_time w' = S (w_time w) /\
  w_handlers w' = (fun x => if x =? signum then h else w_handlers w x).
Proof.
  intros Q E H. destruct (async_in_step env n s own Q E w H) as [H1 [T1 [Hh Tm]]].
  cbn. unfold signal. rewrite Hh, T1.
  split; [reflexivity|]. split; [exact H1|]. auto.
Qed.

Lemma supervise_exact env sp n s own fuel w :
  quiet env -> max_duration sp = None -> terminates_at env n s ->
  in_step n s own w -> w_time w = 0%nat -> (n < fuel)%nat ->
  exists w',
    supervise env sp fuel w
      = Some (Ok (exit_code (final_status own s)), w') /\
    w_trace w' =
      (w_trace w ++ install_events (tk_now (env_ticks env 0))
         ++ frames 0 ((n - 1) / 4)
         ++ [EvWait WNOHANG (pid env) (final_status own s)]
         ++ restore_events (w_handlers w SIGINT) (w_handlers w SIGTERM)
              (w_handlers w SIGQUIT))%list.
Proof.
  intros Q NL E H T0 F. unfold supervise.
  rewrite (bind_ok _ _ _ _ _ (proj1 (monotonic_ok env w))).
  unfold bind at 1. cbn [ret]. rewrite T0.
  destruct (tick_emit_in_step env n s own Q E
              (EvClock (tk_now (env_ticks env 0))) w H) as [Hc [Trc Tmc]].
  destruct (async_in_step env n s own Q E w H) as [_ [_ [Hhc _]]].
  set (w0 := init_flags (emit (EvClock (tk_now (env_ticks env 0)))
                           (async env w))).
  assert (H0 : in_step n s own w0) by (split; [reflexivity | exact (proj2 Hc)]).
  assert (Tr0 : w_trace w0 = (w_trace w ++ [EvClock (tk_now (env_ticks env 0))])%list)
    by exact Trc.
  assert (Tm0 : w_time w0 = 1%nat) by (rewrite <- T0; exact Tmc).
  assert (Hh0 : w_handlers w0 = w_handlers w) by exact Hhc.
  destruct (signal_in_step env n s own SIGINT SigHandler w0 Q E H0)
    as [S1 [H1 [Tr1 [Tm1 Hh1]]]].
  rewrite (bind_ok _ _ _ _ _ S1).
  set (w1 := emit (EvSignalSet SIGINT SigHandler) _) in *.
  destruct (signal_in_step env n s own SIGTERM SigHandler w1 Q E H1)
    as [S2 [H2 [Tr2 [Tm2 Hh2]]]].
  rewrite (bind_ok _ _ _ _ _ S2).
  set (w2 := emit (EvSignalSet SIGTERM SigHandler) _) in *.
  destruct (signal_in_step env n s own SIGQUIT SigHandler w2 Q E H2)
    as [S3 [H3 [Tr3 [Tm3 Hh3]]]].
  rewrite (bind_ok _ _ _ _ _ S3).
  set (w3 := emit (EvSignalSet SIGQUIT SigHandler) _) in *.
  destruct (spin_loop_exact env sp n s own Q NL E (tk_now (env_ticks env 0))
              ((n - 1) / 4) fuel 0%nat w3 H3) as [w4 [L Tr4]].
  { rewrite Tm3, Tm2, Tm1, Tm0. apply frames_count. }
  { pose proof (Nat.div_mod_eq (n - 1) 4). lia. }
  destruct (restore_exact env (w_handlers w0 SIGINT) (w_handlers w1 SIGTERM)
              (w_handlers w2 SIGQUIT) w4 Q) as [w5 [Rs Tr5]].
  exists w5. split.
  - unfold guarded, try_finally, guarded_body.
    rewrite (bind_ok _ _ _ _ _ L). cbn [ret]. now rewrite Rs.
  - rewrite Tr5, Tr4, Tr3, Tr2, Tr1, Tr0, Hh2, Hh1, Hh0.
    cbn [Z.eqb SIGINT SIGTERM SIGQUIT]. unfold install_events.
    now rewrite <- !app_assoc.
Qed.

(** X7.  A run that no signal reaches, with no [max_duration], of a child
    that ends at tick [n] of the script: the parent polls, shows the
    glyphs [-], [\], [|], [/] in turn, each for a sleep of 0.2 s and
    wiped by a backspace, until the poll collects the child; then it
    puts the caller's handlers back, shows the cursor and ends the line.
    The whole trace is fixed, and so is the number of frames. *)
Theorem uninterrupted_run_trace env sp n s fuel :
  quiet env -> max_duration sp = None -> terminates_at env n s ->
  (n < fuel)%nat ->
  let st := final_status (own_status env (normalize (sp_command sp))
                            (prologue sp (initial env))) s in
  exists w',
    spin fuel env sp Parent = Some (Returned (exit_code st), w') /\
    w_trace w' =
      ([EvStdout (wait_text sp ++ " "); EvStdout HIDE_CURSOR;
        EvFork (pid env)]
         ++ install_events (tk_now (env_ticks env 0))
         ++ frames 0 ((n - 1) / 4)
         ++ [EvWait WNOHANG (pid env) st]
         ++ restore_events (env_handlers env SIGINT)
              (env_handlers env SIGTERM) (env_handlers env SIGQUIT))%list.
Proof.
  intros Q NL E F st. unfold spin. cbn [fork_result Z.eqb].
  set (own := own_status _ _ _) in *. set (w := emit _ _).
  destruct (supervise_exact env sp n s own fuel w Q NL E) as [w' [S Tr]];
    [|reflexivity|exact F|].
  - split; [reflexivity|]. left. split; [simpl; lia | reflexivity].
  - exists w'. rewrite S. split; [reflexivity|]. exact Tr.
Qed.

Lemma uninterrupted_run_trace_witness :
  exists w',
    spin 10 demo_env demo_spinner Parent = Some (Returned 3, w') /\
    w_trace w' =
      [EvStdout "Hehe Waitin "; EvStdout HIDE_CURSOR; EvFork 4242;
       EvClock 0; EvSignalSet SIGINT SigHandler;
       EvSignalSet SIGTERM SigHandler; EvSignalSet SIGQUIT SigHandler;
       EvWait WNOHANG 0 0; EvStdout "-"; EvSleep (1 # 5); EvStdout BS;
       EvWait WNOHANG 0 0; EvStdout "\"; EvSleep (1 # 5); EvStdout BS;
       EvWait WNOHANG 4242 768;
       EvSignalSet SIGINT (Caller 2); EvSignalSet SIGTERM (Caller 15);
       EvSignalSet SIGQUIT (Caller 3); EvStdout SHOW_CURSOR; EvStdout NL].
Proof.
  apply (uninterrupted_run_trace demo_env demo_spinner 9 (W_EXITCODE 3 0) 10).
  - intros k. apply ends_at_9_quiet.
  - reflexivity.
  - now apply ends_at_9_terminates.
  - lia.
Defined.

(* ================================================================== *)
(** ** What the parent writes to stderr *)

Lemma all_pass_app P l1 l2 :
  all_pass P l1 -> all_pass P l2 -> all_pass P (l1 ++ l2).
Proof. unfold all_pass. intros A B. now rewrite forallb_app, A, B. Qed.

Lemma all_pass_one P e : P e = true -> all_pass P [e].
Proof. unfold all_pass. simpl. intros ->. reflexivity. Qed.

(** A trace invariant that depends on the state in one place only: the
    report of an interruption, which is written in a state where [J]
    holds and a signal is recorded. *)
Section ReportInvariant.

Variable env : Env.
Variable sp : Spinner.
Variable J : World -> Prop.
Variable allowed : event -> bool.

Hypothesis J_async : forall w, J w -> J (async env w).
Hypothesis J_flags : forall w w',
  w_interrupted w' = w_interrupted w ->
  w_signal_received w' = w_signal_received w ->
  w_handlers w' = w_handlers w -> J w -> J w'.
Hypothesis J_agree : forall w, J w -> flags_agree w.
Hypothesis J_install : forall w signum,
  handled signum = true -> J w -> J (set_handler signum SigHandler w).

Hypothesis other_allowed : forall e, is_stderr e = false -> allowed e = true.
Hypothesis timeout_allowed :
  has_timeout sp = true -> allowed (EvStderr timeout_line) = true.
Hypothesis report_allowed : forall w n,
  J w -> w_signal_received w = Some n ->
  allowed (EvStderr (interrupt_line n)) = true.

Lemma pass_refl w : stretch (all_pass allowed) w w.
Proof. now apply stretch_refl. Qed.

Lemma pass_trans w1 w2 w3 :
  stretch (all_pass allowed) w1 w2 -> stretch (all_pass allowed) w2 w3 ->
  stretch (all_pass allowed) w1 w3.
Proof. apply stretch_trans, all_pass_app. Qed.

Lemma pass_delivery w signum : all_pass allowed (delivery w signum).
Proof.
  unfold delivery, all_pass.
  destruct (w_handlers w signum); simpl;
    now rewrite ?other_allowed by reflexivity.
Qed.

Ltac pass_prim lem :=
  apply (lem env (all_pass allowed) allowed eq_refl (all_pass_app allowed)
           pass_delivery (all_pass_one allowed)).

Ltac other := intros; apply other_allowed; reflexivity.

Lemma report_pass w r w' :
  J w -> w_interrupted w = true -> report env w = Some (r, w') ->
  stretch (all_pass allowed) w w'.
Proof.
  intros Hj I H. unfold report in H.
  pose proof (J_agree w Hj I) as K.
  destruct (w_signal_received w) as [n|] eqn:SR; [|congruence].
  revert H. apply (respects_bind _ pass_trans).
  - pass_prim print_err_stretch. exact (report_allowed w n Hj SR).
  - intros _ w1 r1 w1' H1. destruct (w_signal_received w1);
      inversion H1; apply pass_refl.
Qed.

Lemma interrupted_path_pass fuel w r w' :
  J w -> w_interrupted w = true ->
  interrupted_path env fuel w = Some (r, w') ->
  stretch (all_pass allowed) w w'.
Proof.
  intros Hj I H. rewrite interrupted_path_unfold in H.
  apply bind_inv in H. destruct H as [[u [w1 [P H]]]|[e [P _]]];
    [|discriminate P].
  assert (S1 : stretch (all_pass allowed) w w1).
  { revert P. pass_prim sleep_stretch. other. }
  pose proof (frame_interrupted _ _ (sleep_frame env _ _ _ _ P) I) as I1.
  pose proof (sleep_preserves env J J_async J_flags _ _ _ _ P Hj) as J1.
  apply (pass_trans _ _ _ S1).
  assert (Wb : respects (stretch (all_pass allowed)) (waitpid_block env fuel)).
  { pass_prim waitpid_block_stretch; other. }
  apply bind_inv in H. destruct H as [[v [w2 [W H]]]|[e [W _]]].
  - apply (pass_trans _ _ _ (Wb _ _ _ W)).
    apply (report_pass w2 r w'); [| |exact H].
    + exact (waitpid_block_preserves env J J_async J_flags _ _ _ _ W J1).
    + exact (frame_interrupted _ _ (waitpid_block_frame env _ _ _ _ W) I1).
  - exact (Wb _ _ _ W).
Qed.

Lemma timeout_path_pass fuel :
  has_timeout sp = true ->
  respects (stretch (all_pass allowed)) (timeout_path env fuel).
Proof.
  intros HT. pass_prim timeout_path_steps; try other.
  now apply timeout_allowed.
Qed.

Lemma animate_pass i : respects (stretch (all_pass allowed)) (animate env i).
Proof.
  unfold animate.
  apply (respects_bind _ pass_trans).
  { pass_prim print_out_stretch. other. }
  intros _. apply (respects_bind _ pass_trans).
  { pass_prim sleep_stretch. other. }
  intros _. pass_prim print_out_stretch. other.
Qed.

(** The loop, entered in a state where [J] holds. *)
Lemma spin_loop_pass fuel : forall i start w r w',
  J w -> spin_loop env sp fuel i start w = Some (r, w') ->
  stretch (all_pass allowed) w w'.
Proof.
  induction fuel as [|fuel IH]; intros i start w r w' Hj H; simpl in H;
    [discriminate|].
  destruct (w_interrupted w) eqn:I.
  { now apply (interrupted_path_pass fuel w r w'). }
  assert (Go : forall w2, J w2 ->
             (animate env i ;;; spin_loop env sp fuel (S i) start) w2
               = Some (r, w') -> stretch (all_pass allowed) w2 w').
  { intros w2 J2 H2.
    apply bind_inv in H2. destruct H2 as [[u [w3 [A H2]]]|[e [A _]]].
    - apply (pass_trans _ _ _ (animate_pass _ _ _ _ A)).
      apply (IH (S i) start w3 r w'); [|exact H2].
      exact (animate_preserves env J J_async J_flags _ _ _ _ A J2).
    - exact (animate_pass _ _ _ _ A). }
  assert (Wn : respects (stretch (all_pass allowed)) (waitpid_nohang env)).
  { pass_prim waitpid_nohang_stretch; other. }
  apply bind_inv in H. destruct H as [[a [w1 [W H]]]|[e [W _]]];
    [|exact (Wn _ _ _ W)].
  apply (pass_trans _ _ _ (Wn _ _ _ W)).
  pose proof (waitpid_nohang_preserves env J J_async J_flags _ _ _ W Hj)
    as J1.
  destruct (negb (fst a =? 0)).
  { inversion H; subst. apply pass_refl. }
  destruct (max_duration sp) as [m|] eqn:MD; [|now apply Go].
  assert (Mn : respects (stretch (all_pass allowed)) (monotonic env)).
  { pass_prim monotonic_stretch. other. }
  apply bind_inv in H. destruct H as [[now [w2 [Mo H]]]|[e [Mo _]]];
    [|exact (Mn _ _ _ Mo)].
  apply (pass_trans _ _ _ (Mn _ _ _ Mo)).
  pose proof (monotonic_preserves env J J_async J_flags _ _ _ Mo J1) as J2.
  destruct (timed_out start now m); [|now apply Go].
  assert (HT : has_timeout sp = true) by (unfold has_timeout; now rewrite MD).
  exact (timeout_path_pass fuel HT _ _ _ H).
Qed.

Lemma guarded_body_pass fuel i start w r w' :
  J w -> guarded_body env sp fuel i start w = Some (r, w') ->
  stretch (all_pass allowed) w w'.
Proof.
  intros Hj H. unfold guarded_body in H.
  apply bind_inv in H. destruct H as [[x [w1 [L H]]]|[e [L _]]].
  - destruct x; inversion H; subst; eapply spin_loop_pass; eauto.
  - eapply spin_loop_pass; eauto.
Qed.

Lemma signal_pass signum h w r w' :
  signal env signum h w = Some (r, w') ->
  stretch (all_pass allowed) w w' /\
  (handled signum = true -> h = SigHandler -> J w -> J w').
Proof.
  intros H. split.
  - revert H. pass_prim signal_stretch. other.
  - inversion H; subst. intros Hs -> Hj.
    apply (J_flags (set_handler signum SigHandler (async env w)));
      try reflexivity.
    now apply J_install, J_async.
Qed.

Lemma restore_pass oi ot oq :
  respects (stretch (all_pass allowed)) (restore env oi ot oq).
Proof.
  unfold restore.
  apply (respects_bind _ pass_trans).
  { intros w r w' H. exact (proj1 (signal_pass _ _ _ _ _ H)). }
  intros _. apply (respects_bind _ pass_trans).
  { intros w r w' H. exact (proj1 (signal_pass _ _ _ _ _ H)). }
  intros _. apply (respects_bind _ pass_trans).
  { intros w r w' H. exact (proj1 (signal_pass _ _ _ _ _ H)). }
  intros _. apply (respects_bind _ pass_trans).
  { pass_prim print_out_stretch. other. }
  intros _. pass_prim print_out_stretch. other.
Qed.

(** The parent from the fork on. *)
Lemma supervise_pass fuel w r w' :
  (forall w1, w_handlers w1 = w_handlers w -> J (init_flags w1)) ->
  supervise env sp fuel w = Some (r, w') ->
  stretch (all_pass allowed) w w'.
Proof.
  intros Init H. unfold supervise in H.
  assert (Mn : respects (stretch (all_pass allowed)) (monotonic env)).
  { pass_prim monotonic_stretch. other. }
  apply bind_inv in H. destruct H as [[start [wa [Mo H]]]|[e [Mo _]]];
    [|exact (Mn _ _ _ Mo)].
  apply (pass_trans _ _ _ (Mn _ _ _ Mo)).
  apply bind_inv in H. destruct H as [[u [w0 [In H]]]|[e [In _]]];
    [|discriminate In].
  inversion In; subst w0. clear In.
  apply (pass_trans _ (init_flags wa)); [apply stretch_same; reflexivity|].
  assert (J0 : J (init_flags wa)).
  { apply Init. inversion Mo; subst. simpl.
    apply (drift_handlers _ _ (async_drift env w)). }
  apply bind_inv in H. destruct H as [[oi [w1 [S1 H]]]|[e [S1 _]]];
    destruct (signal_pass _ _ _ _ _ S1) as [T1 P1]; [|exact T1].
  apply (pass_trans _ _ _ T1).
  apply bind_inv in H. destruct H as [[ot [w2 [S2 H]]]|[e [S2 _]]];
    destruct (signal_pass _ _ _ _ _ S2) as [T2 P2]; [|exact T2].
  apply (pass_trans _ _ _ T2).
  apply bind_inv in H. destruct H as [[oq [w3 [S3 H]]]|[e [S3 _]]];
    destruct (signal_pass _ _ _ _ _ S3) as [T3 P3]; [|exact T3].
  apply (pass_trans _ _ _ T3).
  destruct (guarded_inv env sp _ _ _ _ _ _ _ _ _ H) as [w4 [B Rs]].
  apply (pass_trans _ w4).
  - apply (guarded_body_pass fuel 0%nat start w3 r w4); auto.
  - exact (restore_pass _ _ _ _ _ _ Rs).
Qed.

End ReportInvariant.

Lemma named_other e : is_stderr e = false -> named e = true.
Proof. destruct e; try reflexivity. discriminate. Qed.

Lemma stderr_line_other timeout e :
  is_stderr e = false -> stderr_line timeout e = true.
Proof. destruct e; try reflexivity. discriminate. Qed.

Lemma stderr_line_report timeout w n :
  own_signals w -> w_signal_received w = Some n ->
  stderr_line timeout (EvStderr (interrupt_line n)) = true.
Proof.
  intros [_ [_ Hr]] Sr.
  destruct (handled_cases n (Hr n Sr)) as [->|[->| ->]];
    destruct timeout; reflexivity.
Qed.

(** What a finished run has written passes [allowed] when the stretch
    after the fork does and the opening holds no line of stderr. *)
Lemma spin_parent_pass fuel env sp o w' allowed :
  (forall e, is_stderr e = false -> allowed e = true) ->
  (forall w r,
     supervise env sp fuel w = Some (r, w') ->
     w_handlers w = env_handlers env ->
     stretch (all_pass allowed) w w') ->
  spin fuel env sp Parent = Some (o, w') -> all_pass allowed (w_trace w').
Proof.
  intros Oth Sup H.
  destruct (spin_parent_inv fuel env sp o w' H) as [x [S _]].
  destruct (Sup _ _ S eq_refl) as [l [t N]].
  rewrite t. apply all_pass_app; [|exact N].
  unfold all_pass. simpl. now rewrite !Oth by reflexivity.
Qed.

(** X8.  The report without a signal name is never written: [interrupted]
    and [signal_received] are initialised together and set together by the
    handler, so whenever the loop sees [interrupted] the number is there,
    and the [else] branch of lines 107-109 is not taken. *)
Theorem unnamed_report_never_printed fuel env sp o w' :
  spin fuel env sp Parent = Some (o, w') ->
  ~ In unnamed_report (w_trace w').
Proof.
  intros H I.
  assert (N : all_pass named (w_trace w')).
  { apply (spin_parent_pass fuel env sp o w' named named_other); [|exact H].
    intros w r S _.
    apply (supervise_pass env sp flags_agree named
             (async_keeps env _ flags_agree_deliver flags_agree_flags)
             flags_agree_flags (fun w A => A) (fun w s _ A => A)
             named_other (fun _ => eq_refl) (fun w n _ _ => eq_refl)
             fuel w r w'); [|exact S].
    intros w1 _ F. discriminate F. }
  unfold all_pass in N. rewrite forallb_forall in N.
  specialize (N _ I). vm_compute in N. discriminate N.
Qed.

Lemma unnamed_report_never_printed_witness :
  exists w',
    spin 10 ctrl_c_env demo_spinner Parent = Some (Returned 130, w') /\
    ~ In unnamed_report (w_trace w').
Proof.
  destruct ctrl_c_run as [w' [R _]]. exists w'. split; [exact R|].
  exact (unnamed_report_never_printed 10 ctrl_c_env demo_spinner _ w' R).
Defined.

(** X9.  When the caller's own handlers are in place at the start, a
    line the parent writes to stderr is the timeout message, and then
    [max_duration] is set, or the report of an interruption by SIGINT, by
    SIGTERM or by SIGQUIT: the default of [signal_names.get] is never
    used. *)
Theorem stderr_alphabet fuel env sp o w' s :
  (forall signum, env_handlers env signum <> SigHandler) ->
  spin fuel env sp Parent = Some (o, w') ->
  In (EvStderr s) (w_trace w') ->
  (s = (NL ++ "Process timed out.") ++ NL /\ max_duration sp <> None) \/
  s = (NL ++ "Interrupted by SIGINT.") ++ NL \/
  s = (NL ++ "Interrupted by SIGTERM.") ++ NL \/
  s = (NL ++ "Interrupted by SIGQUIT.") ++ NL.
Proof.
  intros Hc H I.
  assert (N : all_pass (stderr_line (has_timeout sp)) (w_trace w')).
  { apply (spin_parent_pass fuel env sp o w' _ (stderr_line_other _));
      [|exact H].
    intros w r S Hh.
    apply (supervise_pass env sp own_signals (stderr_line (has_timeout sp))
             (async_keeps env _ own_signals_deliver own_signals_flags)
             own_signals_flags (fun w A => proj1 A)
             own_signals_install (stderr_line_other _)
             (fun HT => ltac:(unfold stderr_line; rewrite HT, String.eqb_refl;
                              reflexivity))
             (stderr_line_report _) fuel w r w'); [|exact S].
    intros w1 H1. split; [intros F; discriminate F|]. split.
    - simpl. intros x Hx. rewrite H1, Hh in Hx. now apply Hc in Hx.
    - simpl. intros n Hn. discriminate Hn. }
  unfold all_pass in N. rewrite forallb_forall in N.
  specialize (N _ I). unfold stderr_line in N.
  repeat (apply orb_true_iff in N; destruct N as [N|N]).
  - apply andb_true_iff in N. destruct N as [HT N].
    apply String.eqb_eq in N. left. split; [exact N|].
    unfold has_timeout in HT. destruct (max_duration sp); [discriminate|].
    discriminate HT.
  - apply String.eqb_eq in N. right; left. exact N.
  - apply String.eqb_eq in N. right; right; left. exact N.
  - apply String.eqb_eq in N. right; right; right. exact N.
Qed.

Lemma stderr_alphabet_witness :
  exists w' s,
    spin 10 ctrl_c_env demo_spinner Parent = Some (Returned 130, w') /\
    In (EvStderr s) (w_trace w') /\
    ((s = (NL ++ "Process timed out.") ++ NL /\
      max_duration demo_spinner <> None) \/
     s = (NL ++ "Interrupted by SIGINT.") ++ NL \/
     s = (NL ++ "Interrupted by SIGTERM.") ++ NL \/
     s = (NL ++ "Interrupted by SIGQUIT.") ++ NL).
Proof.
  destruct ctrl_c_run as [w' [R Tr]].
  exists w', (NL ++ "Interrupted by SIGINT." ++ NL).
  assert (I : In (EvStderr (NL ++ "Interrupted by SIGINT." ++ NL)) (w_trace w')).
  { rewrite Tr. do 15 right. left. reflexivity. }
  split; [exact R|]. split; [exact I|].
  apply (stderr_alphabet 10 ctrl_c_env demo_spinner (Returned 130) w');
    [intros signum; discriminate | exact R | exact I].
Defined.

(* ================================================================== *)
(** ** A run that the timeout ends *)

Section TimeoutRun.

Variable env : Env.
Variable sp : Spinner.
Variable m : Z.
Variable own : option Z.

Hypothesis env_quiet : quiet env.
Hypothesis limit : max_duration sp = Some m.

Lemma tick_still e t w :
  tk_child (env_ticks env t) = None ->
  still_running own t w -> still_running own (S t) (emit e (async env w)).
Proof.
  intros N [I [C T]]. rewrite (async_quiet env env_quiet). cbn.
  rewrite I, C, T. unfold child_update. rewrite N.
  split; [reflexivity|]. split; [now destruct own | reflexivity].
Qed.

(** The loop, [j] frames away from the reading of the clock that reaches
    the limit: the child is signalled, collected, and 124 is the result. *)
Lemma spin_loop_until_timeout start : forall j fuel i t w,
  still_running own t w ->
  (forall k, (k <= t + 5 * j)%nat -> tk_child (env_ticks env k) = None) ->
  (forall i', (i' < j)%nat ->
     timed_out start (tk_now (env_ticks env (t + 1 + 5 * i'))) m = false) ->
  timed_out start (tk_now (env_ticks env (t + 1 + 5 * j))) m = true ->
  (j + 1 < fuel)%nat ->
  exists w',
    spin_loop env sp fuel i start w = Some (Ok (Return 124), w') /\
    reaped env w' /\ In (EvKill SIGTERM) (w_trace w').
Proof.
  induction j as [|j IH]; intros fuel i t w H Al Early Late F;
    (destruct fuel as [|fuel]; [lia|]);
    pose proof (tick_still (EvWait WNOHANG 0 0) t w (Al t ltac:(lia)) H) as H1;
    set (w1 := emit (EvWait WNOHANG 0 0) (async env w)) in *;
    pose proof (monotonic_ok env w1) as [Mo _];
    destruct H1 as [I1 [C1 T1]];
    simpl spin_loop; rewrite (proj1 H);
    unfold bind at 1, waitpid_nohang, reap;
    (replace (w_child (async env w)) with (w_child w1) by reflexivity);
    rewrite C1; fold w1; cbn [fst snd Z.eqb negb]; rewrite limit;
    rewrite (bind_ok _ _ _ _ _ Mo); rewrite T1.
  - replace (S t) with (t + 1 + 5 * 0)%nat by lia. rewrite Late.
    set (w2 := emit _ (async env w1)).
    assert (NG2 : w_child w2 <> Gone).
    { apply (drift_alive w1); [apply tick_emit_drift|]. rewrite C1. discriminate. }
    destruct (timeout_path_spec env fuel w2 NG2)
      as [[w' [tail [TP [Rd [_ [[l [t' ml]] _]]]]]]|[Z _]]; [|lia].
    exists w'. split; [exact TP|]. split; [exact Rd|].
    rewrite t'. apply in_or_app. right.
    assert (I : In (EvKill SIGTERM) (mainline l)).
    { rewrite ml. unfold timeout_events. simpl. auto. }
    unfold mainline in I. now apply filter_In in I.
  - replace (S t) with (t + 1 + 5 * 0)%nat by lia.
    rewrite (Early 0%nat) by lia.
    replace (t + 1 + 5 * 0)%nat with (S t) in * by lia.
    set (w2 := emit _ (async env w1)).
    assert (H2 : still_running own (S (S t)) w2).
    { apply tick_still; [apply Al; lia|]. now repeat split. }
    unfold animate, bind at 1, print_out. unfold bind at 1.
    unfold bind at 1, sleep.
    pose proof (tick_still (EvStdout (glyph i)) (S (S t)) w2
                  (Al (S (S t)) ltac:(lia)) H2) as H3.
    set (w3 := emit (EvStdout (glyph i)) (async env w2)) in *.
    pose proof (tick_still (EvSleep (1 # 5)) (S (S (S t))) w3
                  (Al (S (S (S t))) ltac:(lia)) H3) as H4.
    set (w4 := emit (EvSleep (1 # 5)) (async env w3)) in *.
    pose proof (tick_still (EvStdout BS) (S (S (S (S t)))) w4
                  (Al (S (S (S (S t)))) ltac:(lia)) H4) as H5.
    set (w5 := emit (EvStdout BS) (async env w4)) in *.
    apply (IH fuel (S i) _ w5 H5); [| | |lia].
    + intros k Hk. apply Al. lia.
    + intros i' Hi.
      replace (S (S (S (S (S t)))) + 1 + 5 * i')%nat
        with (t + 1 + 5 * S i')%nat by lia.
      apply Early. lia.
    + replace (S (S (S (S (S t)))) + 1 + 5 * j)%nat
        with (t + 1 + 5 * S j)%nat by lia.
      exact Late.
Qed.

End TimeoutRun.

Lemma supervise_until_timeout env sp m own j fuel w :
  quiet env -> max_duration sp = Some m ->
  still_running own 0 w ->
  (forall k, (k <= 4 + 5 * j)%nat -> tk_child (env_ticks env k) = None) ->
  (forall i, (i < j)%nat ->
     timed_out (tk_now (env_ticks env 0))
               (tk_now (env_ticks env (5 + 5 * i))) m = false) ->
  timed_out (tk_now (env_ticks env 0))
            (tk_now (env_ticks env (5 + 5 * j))) m = true ->
  (j + 1 < fuel)%nat ->
  exists w',
    supervise env sp fuel w = Some (Ok 124, w') /\
    reaped env w' /\ In (EvKill SIGTERM) (w_trace w').
Proof.
  intros Q MD H Al Early Late F. unfold supervise.
  rewrite (bind_ok _ _ _ _ _ (proj1 (monotonic_ok env w))).
  unfold bind at 1. cbn [ret]. unfold bind at 1, signal.
  unfold bind at 1, signal. unfold bind at 1, signal.
  rewrite (proj2 (proj2 H)).
  pose proof (tick_still env own Q (EvClock (tk_now (env_ticks env 0))) 0 w
                (Al 0%nat ltac:(lia)) H) as [_ [C0 T0]].
  set (w0 := init_flags (emit (EvClock (tk_now (env_ticks env 0)))
                           (async env w))).
  assert (H0 : still_running own 1 w0) by (split; [reflexivity | auto]).
  pose proof (tick_still env own Q (EvSignalSet SIGINT SigHandler) 1 w0
                (Al 1%nat ltac:(lia)) H0) as H1.
  set (w1 := emit (EvSignalSet SIGINT SigHandler)
               (set_handler SIGINT SigHandler (async env w0))).
  change (still_running own 2 w1) in H1.
  pose proof (tick_still env own Q (EvSignalSet SIGTERM SigHandler) 2 w1
                (Al 2%nat ltac:(lia)) H1) as H2.
  set (w2 := emit (EvSignalSet SIGTERM SigHandler)
               (set_handler SIGTERM SigHandler (async env w1))).
  change (still_running own 3 w2) in H2.
  pose proof (tick_still env own Q (EvSignalSet SIGQUIT SigHandler) 3 w2
                (Al 3%nat ltac:(lia)) H2) as H3.
  set (w3 := emit (EvSignalSet SIGQUIT SigHandler)
               (set_handler SIGQUIT SigHandler (async env w2))).
  change (still_running own 4 w3) in H3.
  destruct (spin_loop_until_timeout env sp m own Q MD
              (tk_now (env_ticks env 0)) j fuel 0%nat 4%nat w3 H3 Al Early Late F)
    as [w4 [L [Rd K]]].
  assert (B : guarded_body env sp fuel 0 (tk_now (env_ticks env 0)) w3
              = Some (Ok 124, w4)).
  { unfold guarded_body. rewrite (bind_ok _ _ _ _ _ L). reflexivity. }
  destruct (guarded_finish env sp _ _ _ (w_handlers (async env w0) SIGINT)
              (w_handlers (async env w1) SIGTERM)
              (w_handlers (async env w2) SIGQUIT) _ _ _ B)
    as [w5 [G [_ [_ [Kp _]]]]].
  exists w5. split; [exact G|]. split; [exact (reaped_keeps env _ _ Rd Kp)|].
  destruct (keeps_trace _ _ Kp) as [l t]. rewrite t.
  apply in_or_app. now left.
Qed.

(** X10.  The timeout bounds the run.  With no signal delivered and a
    child that is still running at the poll of iteration [j] (tick
    [4 + 5 j] of the script), if the clock first reaches [max_duration]
    at the reading of that iteration (tick [5 + 5 j]), then [spin]
    returns 124, whatever the child does from then on: it has been sent
    SIGTERM and it has been collected. *)
Theorem timeout_ends_the_run env sp m j fuel :
  quiet env -> max_duration sp = Some m ->
  (forall k, (k <= 4 + 5 * j)%nat -> tk_child (env_ticks env k) = None) ->
  (forall i, (i < j)%nat ->
     timed_out (tk_now (env_ticks env 0))
               (tk_now (env_ticks env (5 + 5 * i))) m = false) ->
  timed_out (tk_now (env_ticks env 0))
            (tk_now (env_ticks env (5 + 5 * j))) m = true ->
  (j + 1 < fuel)%nat ->
  exists w',
    spin fuel env sp Parent = Some (Returned 124, w') /\
    reaped env w' /\ In (EvKill SIGTERM) (w_trace w').
Proof.
  intros Q MD Al Early Late F. unfold spin. cbn [fork_result Z.eqb].
  set (own := own_status _ _ _). set (w := emit _ _).
  destruct (supervise_until_timeout env sp m own j fuel w Q MD)
    as [w' [S [Rd K]]]; auto.
  - repeat split.
  - exists w'. rewrite S. auto.
Qed.

Lemma timeout_ends_the_run_witness :
  exists w',
    spin 10 crawl_env slow_spinner Parent = Some (Returned 124, w') /\
    reaped crawl_env w' /\ In (EvKill SIGTERM) (w_trace w').
Proof.
  apply (timeout_ends_the_run crawl_env slow_spinner 2 1 10).
  - intros k. reflexivity.
  - reflexivity.
  - intros k _. reflexivity.
  - intros i Hi. destruct i; [reflexivity | lia].
  - reflexivity.
  - lia.
Defined.

(* ================================================================== *)
(** ** A limit of zero seconds or less *)

Lemma still_async e : is_async e = true -> still e = true.
Proof. destruct e; try discriminate; reflexivity. Qed.

Lemma draining_still e : draining e = true -> still e = true.
Proof.
  unfold draining, still. intros H.
  apply andb_true_iff in H. destruct H as [H _].
  apply andb_true_iff in H. now destruct H.
Qed.

Lemma trace_ext_weaken (P P' : event -> bool) w w' :
  (forall e, P e = true -> P' e = true) ->
  trace_ext P w w' -> trace_ext P' w w'.
Proof.
  intros I [l [t F]]. exists l. split; [exact t|].
  rewrite forallb_forall in *. auto.
Qed.

Lemma still_delivery w signum : all_pass still (delivery w signum).
Proof. unfold delivery. destruct (w_handlers w signum); reflexivity. Qed.

(** With a limit that is not positive, a clock that does not run
    backwards has reached it at every reading. *)
Lemma timed_out_at_once start now m :
  m <= 0 -> (start <= now)%Q -> timed_out start now m = true.
Proof.
  intros Hm Hc. unfold timed_out. apply Qle_bool_iff.
  apply Qle_trans with 0%Q.
  - unfold Qle. simpl. lia.
  - unfold Qminus. now apply Qle_minus_iff in Hc.
Qed.

Lemma message_eqb_glyph text a :
  a <> " "%char -> String.eqb (text ++ " ") (String a EmptyString) = false.
Proof.
  intros N. apply String.eqb_neq. intros E.
  destruct text as [|c text]; simpl in E; inversion E as [[E1 E2]].
  - congruence.
  - destruct text; discriminate E2.
Qed.

Lemma message_not_animation text :
  is_animation (EvStdout (text ++ " ")) = false.
Proof.
  unfold is_animation. change BS with (String (ascii_of_nat 8) EmptyString).
  simpl existsb. now rewrite !message_eqb_glyph by discriminate.
Qed.

Section Impatient.

Variable env : Env.
Variable sp : Spinner.
Variable m : Z.

Hypothesis limit : max_duration sp = Some m.

(** When every reading of the clock reaches the limit the loop has one
    iteration, and it shows no glyph. *)
Lemma spin_loop_impatient start fuel i w r w' :
  (forall k, timed_out start (tk_now (env_ticks env k)) m = true) ->
  spin_loop env sp fuel i start w = Some (r, w') ->
  trace_ext still w w'.
Proof.
  intros Late H. destruct fuel as [|fuel]; simpl in H; [discriminate|].
  destruct (w_interrupted w).
  { exact (trace_ext_weaken _ _ _ _ draining_still
             (interrupted_path_draining env fuel _ _ _ H)). }
  assert (Wn : respects (stretch (all_pass still)) (waitpid_nohang env)).
  { apply (waitpid_nohang_stretch env _ still eq_refl (all_pass_app still)
             still_delivery (all_pass_one still)); reflexivity. }
  assert (Mn : respects (stretch (all_pass still)) (monotonic env)).
  { apply (monotonic_stretch env _ still eq_refl (all_pass_app still)
             still_delivery (all_pass_one still)); reflexivity. }
  assert (Tp : respects (stretch (all_pass still)) (timeout_path env fuel)).
  { apply (timeout_path_steps env _ still eq_refl (all_pass_app still)
             still_delivery (all_pass_one still)); reflexivity. }
  apply bind_inv in H. destruct H as [[a [w1 [W H]]]|[e [W _]]];
    [|exact (Wn _ _ _ W)].
  apply (trace_ext_trans still _ w1); [exact (Wn _ _ _ W)|].
  destruct (negb (fst a =? 0)).
  { inversion H; subst. apply trace_ext_refl. }
  rewrite limit in H.
  apply bind_inv in H. destruct H as [[now [w2 [Mo H]]]|[e [Mo _]]];
    [|exact (Mn _ _ _ Mo)].
  apply (trace_ext_trans still _ w2); [exact (Mn _ _ _ Mo)|].
  assert (E : now = tk_now (env_ticks env (w_time w1)))
    by (inversion Mo; reflexivity).
  rewrite E, Late in H. exact (Tp _ _ _ H).
Qed.

Lemma supervise_impatient fuel w r w' :
  (forall k, timed_out (tk_now (env_ticks env (w_time w)))
                       (tk_now (env_ticks env k)) m = true) ->
  supervise env sp fuel w = Some (r, w') -> trace_ext still w w'.
Proof.
  intros Late H.
  destruct (supervise_unfold env sp fuel w) as [w3 [U [_ [E3 _]]]].
  rewrite U in H.
  destruct (guarded_inv env sp _ _ _ _ _ _ _ _ _ H) as [w4 [B Rs]].
  apply (trace_ext_trans still _ w3).
  { apply (emits_trace_ext still _ _ _ still_async) in E3;
      [exact E3 | reflexivity]. }
  apply (trace_ext_trans still _ w4).
  - unfold guarded_body in B. apply bind_inv in B.
    destruct B as [[x [w5 [L B]]]|[e [L _]]].
    + destruct x; inversion B; subst;
        exact (spin_loop_impatient _ _ _ _ _ _ Late L).
    + exact (spin_loop_impatient _ _ _ _ _ _ Late L).
  - exact (trace_ext_weaken _ _ _ _ draining_still
             (restore_draining env _ _ _ _ _ _ Rs)).
Qed.

End Impatient.

(** X11.  A [max_duration] of zero or less leaves no time for the
    animation: under a clock that does not run backwards the first test of
    the timeout succeeds, so a finished run of the parent has written no
    glyph and no backspace. *)
Theorem no_animation_without_patience fuel env sp m o w' e :
  max_duration sp = Some m -> m <= 0 ->
  (forall k, (tk_now (env_ticks env 0) <= tk_now (env_ticks env k))%Q) ->
  spin fuel env sp Parent = Some (o, w') ->
  In e (w_trace w') -> is_animation e = false.
Proof.
  intros MD Hm Clock H I.
  destruct (spin_parent_inv fuel env sp o w' H) as [x [S _]].
  set (w0 := emit _ _) in S.
  destruct (supervise_impatient env sp m MD fuel w0 x w'
              (fun k => timed_out_at_once _ _ m Hm (Clock k)) S) as [l [t F]].
  rewrite t in I. apply in_app_or in I. destruct I as [I|I].
  - simpl in I. destruct I as [<-|[<-|[<-|[]]]];
      [apply message_not_animation | reflexivity | reflexivity].
  - rewrite forallb_forall in F. specialize (F _ I).
    now apply negb_true_iff in F.
Qed.

Lemma no_animation_without_patience_witness :
  exists o w',
    spin 10 slow_env impatient_spinner Parent = Some (o, w') /\
    forall e, In e (w_trace w') -> is_animation e = false.
Proof.
  destruct (spin 10 slow_env impatient_spinner Parent) as [[o w']|] eqn:R;
    [|vm_compute in R; discriminate R].
  exists o, w'. split; [reflexivity|]. intros e.
  apply (no_animation_without_patience 10 slow_env impatient_spinner 0 o w' e).
  - reflexivity.
  - lia.
  - intros k. unfold Qle. simpl. lia.
  - exact R.
Defined.

(* ================================================================== *)
(** ** A run that one signal interrupts *)

(** A tick without signals. *)
Lemma async_calm env w :
  tk_signals (env_ticks env (w_time w)) = [] ->
  async env w =
  mkWorld (child_update (env_ticks env (w_time w)) (w_child w))
          (w_interrupted w) (w_signal_received w) (w_handlers w)
          (S (w_time w)) (w_trace w).
Proof. intros Q. unfold async. now rewrite Q. Qed.

Lemma tick_calm env own e t w :
  tk_signals (env_ticks env t) = [] -> tk_child (env_ticks env t) = None ->
  still_running own t w -> still_running own (S t) (emit e (async env w)).
Proof.
  intros Q N [I [C T]]. subst t. rewrite (async_calm env w Q). cbn.
  rewrite I, C. unfold child_update. rewrite N.
  split; [reflexivity|]. split; [now destruct own | reflexivity].
Qed.

Lemma install_sets env signum w x :
  w_handlers (emit (EvSignalSet signum SigHandler)
                (set_handler signum SigHandler (async env w))) x
  = if x =? signum then SigHandler else w_handlers w x.
Proof. simpl. now rewrite (drift_handlers _ _ (async_drift env w)). Qed.

Lemma handled_not_kill sig : handled sig = true -> (sig =? SIGKILL) = false.
Proof. intros H. destruct (handled_cases sig H) as [->|[->| ->]]; reflexivity. Qed.

Section InterruptedRun.

Variable env : Env.
Variable sp : Spinner.
Variable k n : nat.
Variable s sig : Z.
Variable own : option Z.

Hypothesis sig_handled : handled sig = true.
Hypothesis script : one_signal env k sig.
Hypothesis env_patient : never_times_out env sp.
Hypothesis env_ends : terminates_at env n s.
Hypothesis order : (k < n)%nat.

Lemma recorded_async w : recorded sig w -> recorded sig (async env w).
Proof.
  intros [I R]. unfold async. rewrite script.
  destruct (w_time w =? k)%nat; simpl; [|split; assumption].
  unfold deliver, sig_handler. simpl.
  destruct (w_handlers w sig); [split; assumption|].
  destruct (child_update _ (w_child w)); split; reflexivity.
Qed.

Lemma recorded_flags w w' :
  w_interrupted w' = w_interrupted w ->
  w_signal_received w' = w_signal_received w ->
  w_handlers w' = w_handlers w -> recorded sig w -> recorded sig w'.
Proof. unfold recorded. intros -> -> _ H. exact H. Qed.

Lemma recorded_agree w : recorded sig w -> flags_agree w.
Proof. intros [_ R] _. rewrite R. discriminate. Qed.

Lemma async_awaiting w :
  awaiting k n sig own s w ->
  awaiting k n sig own s (async env w) /\
  w_time (async env w) = S (w_time w).
Proof.
  intros [Hh [F C]]. destruct env_ends as [En Eb].
  assert (Cu : (S (w_time w) <= n)%nat /\
               child_update (env_ticks env (w_time w)) (w_child w)
                 = Running own \/
               (n < S (w_time w))%nat /\
               child_update (env_ticks env (w_time w)) (w_child w)
                 = Zombie (final_status own s)).
  { unfold child_update. destruct C as [[T R]|[T Z]].
    - rewrite R. destruct (Nat.eq_dec (w_time w) n) as [E|NE].
      + right. rewrite E, En. split; [lia|]. now destruct own.
      + left. rewrite Eb by lia. split; [lia|]. now destruct own.
    - right. rewrite Z. split; [lia|]. reflexivity. }
  split; [|apply async_time].
  unfold async. rewrite script.
  destruct (w_time w =? k)%nat eqn:K; simpl fold_left.
  - apply Nat.eqb_eq in K.
    destruct Cu as [[T R]|[T Z]]; [|lia].
    unfold deliver. cbn [w_handlers]. rewrite Hh.
    unfold sig_handler. cbn [w_child record_signal emit]. rewrite R.
    unfold signal_child. rewrite (handled_not_kill sig sig_handled).
    split; [exact Hh|]. split; [reflexivity|]. left. split; [exact T|].
    reflexivity.
  - apply Nat.eqb_neq in K. split; [exact Hh|]. split; [|exact Cu].
    cbn. destruct (w_interrupted w); [exact F | lia].
Qed.

Lemma tick_awaiting e w :
  awaiting k n sig own s w ->
  awaiting k n sig own s (emit e (async env w)) /\
  w_time (emit e (async env w)) = S (w_time w).
Proof. intros H. exact (async_awaiting w H). Qed.

(** The loop: it animates until it sees the flag, waits for the child
    and returns 128 plus the signal. *)
Lemma spin_loop_interrupted fuel : forall i w,
  awaiting k n sig own s w -> (n - w_time w + 1 < fuel)%nat ->
  exists w',
    spin_loop env sp fuel i (tk_now (env_ticks env 0)) w
      = Some (Ok (Return (128 + sig)), w').
Proof.
  induction fuel as [|fuel IH]; intros i w H F; [lia|].
  destruct (tick_awaiting (EvWait WNOHANG 0 0) w H) as [H1 T1].
  destruct H as [Hh [Fl C]]. simpl spin_loop.
  destruct (w_interrupted w) eqn:I.
  - assert (CE : child_ends env w n).
    { destruct C as [[T R]|[T Z]].
      - right. exists own. split; [exact R|]. split; [exact T|].
        rewrite (proj1 env_ends). discriminate.
      - left. eauto. }
    destruct (interrupted_path_returns env fuel w n CE)
      as [code [st [msg [w' [IP _]]]]]; [lia|].
    assert (NG : w_child w <> Gone).
    { destruct C as [[_ R]|[_ Z]]; [rewrite R | rewrite Z]; discriminate. }
    destruct (interrupted_path_origin env (recorded sig) recorded_async
                recorded_flags recorded_agree fuel w _ w'
                (conj I Fl) I NG IP) as [w1 [x [[_ R1] [S1 E]]]].
    exists w'. rewrite IP. rewrite S1 in R1. inversion R1; subst x.
    now rewrite E.
  - assert (R1 : w_child (async env w) = Running own).
    { destruct H1 as [_ [_ [[_ R]|[T _]]]]; [exact R|].
      rewrite T1 in T. lia. }
    unfold bind at 1, waitpid_nohang, reap. rewrite R1.
    cbn [fst snd Z.eqb negb].
    set (w1 := emit (EvWait WNOHANG 0 0) (async env w)) in *.
    assert (Go : forall w2, awaiting k n sig own s w2 ->
              (w_time w < w_time w2)%nat ->
              exists w', (animate env i ;;;
                          spin_loop env sp fuel (S i) (tk_now (env_ticks env 0))) w2
                         = Some (Ok (Return (128 + sig)), w')).
    { intros w2 H2 T2.
      destruct (tick_awaiting (EvStdout (glyph i)) w2 H2) as [H3 T3].
      destruct (tick_awaiting (EvSleep (1 # 5)) _ H3) as [H4 T4].
      destruct (tick_awaiting (EvStdout BS) _ H4) as [H5 T5].
      unfold animate, bind at 1, print_out. unfold bind at 1.
      unfold bind at 1, sleep.
      apply IH; [exact H5 | lia]. }
    destruct (max_duration sp) as [m|] eqn:MD.
    + unfold bind at 1, monotonic.
      rewrite (env_patient m _ MD).
      destruct (tick_awaiting (EvClock (tk_now (env_ticks env (w_time w1))))
                  w1 H1) as [H2 T2].
      apply Go; [exact H2 | lia].
    + apply Go; [exact H1 | lia].
Qed.

Lemma supervise_interrupted fuel w :
  still_running own 0 w -> (4 <= k)%nat -> (n + 1 < fuel)%nat ->
  exists w', supervise env sp fuel w = Some (Ok (128 + sig), w').
Proof.
  intros H K F. unfold supervise.
  rewrite (bind_ok _ _ _ _ _ (proj1 (monotonic_ok env w))).
  unfold bind at 1. cbn [ret]. unfold bind at 1, signal.
  unfold bind at 1, signal. unfold bind at 1, signal.
  rewrite (proj2 (proj2 H)).
  assert (Q : forall t, (t < 4)%nat ->
            tk_signals (env_ticks env t) = [] /\
            tk_child (env_ticks env t) = None).
  { intros t Ht. rewrite script.
    destruct (Nat.eqb_spec t k); [lia|]. split; [reflexivity|].
    apply (proj2 env_ends). lia. }
  pose proof (tick_calm env own (EvClock (tk_now (env_ticks env 0))) 0 w
                (proj1 (Q 0%nat ltac:(lia))) (proj2 (Q 0%nat ltac:(lia))) H)
    as [_ [C0 T0]].
  set (w0 := init_flags (emit (EvClock (tk_now (env_ticks env 0)))
                           (async env w))).
  assert (H0 : still_running own 1 w0) by (split; [reflexivity | auto]).
  pose proof (tick_calm env own (EvSignalSet SIGINT SigHandler) 1 w0
                (proj1 (Q 1%nat ltac:(lia))) (proj2 (Q 1%nat ltac:(lia))) H0)
    as H1.
  pose proof (install_sets env SIGINT w0) as Hh1.
  set (w1 := emit (EvSignalSet SIGINT SigHandler)
               (set_handler SIGINT SigHandler (async env w0))) in *.
  change (still_running own 2 w1) in H1.
  pose proof (tick_calm env own (EvSignalSet SIGTERM SigHandler) 2 w1
                (proj1 (Q 2%nat ltac:(lia))) (proj2 (Q 2%nat ltac:(lia))) H1)
    as H2.
  pose proof (install_sets env SIGTERM w1) as Hh2.
  set (w2 := emit (EvSignalSet SIGTERM SigHandler)
               (set_handler SIGTERM SigHandler (async env w1))) in *.
  change (still_running own 3 w2) in H2.
  pose proof (tick_calm env own (EvSignalSet SIGQUIT SigHandler) 3 w2
                (proj1 (Q 3%nat ltac:(lia))) (proj2 (Q 3%nat ltac:(lia))) H2)
    as H3.
  pose proof (install_sets env SIGQUIT w2) as Hh3.
  set (w3 := emit (EvSignalSet SIGQUIT SigHandler)
               (set_handler SIGQUIT SigHandler (async env w2))) in *.
  change (still_running own 4 w3) in H3.
  destruct H3 as [I3 [C3 T3]].
  assert (A3 : awaiting k n sig own s w3).
  { split; [|split].
    - rewrite Hh3, Hh2, Hh1.
      destruct (handled_cases sig sig_handled) as [->|[->| ->]]; reflexivity.
    - rewrite I3, T3. exact K.
    - left. rewrite T3. split; [lia | exact C3]. }
  destruct (spin_loop_interrupted fuel 0%nat w3 A3) as [w4 L];
    [rewrite T3; lia|].
  assert (B : guarded_body env sp fuel 0 (tk_now (env_ticks env 0)) w3
              = Some (Ok (128 + sig), w4)).
  { unfold guarded_body. rewrite (bind_ok _ _ _ _ _ L). reflexivity. }
  destruct (guarded_finish env sp _ _ _ (w_handlers (async env w0) SIGINT)
              (w_handlers (async env w1) SIGTERM)
              (w_handlers (async env w2) SIGQUIT) _ _ _ B) as [w5 [G _]].
  exists w5. exact G.
Qed.

End InterruptedRun.

(** X12.  One SIGINT, SIGTERM or SIGQUIT, delivered at any moment of the
    loop (tick [k] of the script, the handlers being installed from tick 4
    on) to the supervisor of a child that ends later (tick [n]): if
    nothing else arrives and the timeout does not strike, [spin] returns
    128 plus the signal, whatever status the child ends with. *)
Theorem interrupt_ends_the_run env sp k n s sig fuel :
  handled sig = true -> one_signal env k sig ->
  never_times_out env sp -> terminates_at env n s ->
  (4 <= k < n)%nat -> (n + 1 < fuel)%nat ->
  exists w', spin fuel env sp Parent = Some (Returned (128 + sig), w').
Proof.
  intros Hs Sc P E [K N] F. unfold spin. cbn [fork_result Z.eqb].
  set (own := own_status _ _ _). set (w := emit _ _).
  destruct (supervise_interrupted env sp k n s sig own Hs Sc P E N fuel w)
    as [w' S]; auto.
  - repeat split.
  - exists w'. now rewrite S.
Qed.

Lemma interrupt_ends_the_run_witness :
  exists w', spin 10 ctrl_c_env demo_spinner Parent = Some (Returned 130, w').
Proof.
  apply (interrupt_ends_the_run ctrl_c_env demo_spinner 6 7
           (W_EXITCODE 0 SIGINT) SIGINT 10).
  - reflexivity.
  - intros t. do 8 (destruct t as [|t]; [reflexivity|]). reflexivity.
  - now apply no_timeout_configured.
  - split; [reflexivity|]. intros t Ht.
    do 7 (destruct t as [|t]; [reflexivity|]). lia.
  - lia.
  - lia.
Defined.

(* ================================================================== *)
(** ** The parent does not outlast the child for long *)

Section Liveness.

Variable env : Env.
Variable sp : Spinner.
Variable n : nat.

Lemma tick_emit_child_ends e w :
  child_ends env w n -> child_ends env (emit e (async env w)) n.
Proof. intros H. exact (async_child_ends env w n H). Qed.

Lemma child_ends_alive w : child_ends env w n -> w_child w <> Gone.
Proof. intros [[st Z]|[own [R _]]]; [rewrite Z | rewrite R]; discriminate. Qed.

(** Whatever signals arrive and whatever the clock reads, the loop is
    left once the child has ended. *)
Lemma spin_loop_returns fuel : forall i start w,
  child_ends env w n -> (n - w_time w + 1 < fuel)%nat ->
  exists x w', spin_loop env sp fuel i start w = Some (Ok x, w').
Proof.
  induction fuel as [|fuel IH]; intros i start w CE F; [lia|].
  simpl spin_loop. destruct (w_interrupted w).
  { destruct (interrupted_path_returns env fuel w n CE)
      as [code [st [msg [w' [IP _]]]]]; [lia|]. eauto. }
  pose proof (async_child_ends env w n CE) as CE1.
  assert (Go : forall w2, child_ends env w2 n ->
             (w_time w < w_time w2 <= n)%nat ->
             exists x w', (animate env i ;;; spin_loop env sp fuel (S i) start) w2
                          = Some (Ok x, w')).
  { intros w2 CE2 T2.
    destruct (animate_ok env i w2) as [w3 [A [_ [_ T3]]]].
    rewrite (bind_ok _ _ _ _ _ A). apply IH; [|lia].
    unfold animate, bind, print_out, sleep in A. inversion A; subst.
    now repeat apply tick_emit_child_ends. }
  destruct (waitpid_nohang_cases env w)
    as [[st [w1 [W _]]]|[[w1 [W G]]|[own [w1 [W [C [_ [_ T1]]]]]]]].
  - rewrite (bind_ok _ _ _ _ _ W). cbn [fst snd]. unfold pid.
    cbn [Z.eqb negb]. do 2 eexists. reflexivity.
  - exfalso. exact (child_ends_alive _ CE1 G).
  - rewrite (bind_ok _ _ _ _ _ W). cbn [fst snd Z.eqb negb].
    assert (CE2 : child_ends env w1 n).
    { unfold waitpid_nohang, reap in W.
      destruct (w_child (async env w)) eqn:Ca; inversion W; subst.
      exact CE1. }
    assert (L1 : (w_time w1 <= n)%nat).
    { destruct CE2 as [[st Z]|[o [_ [T _]]]]; [congruence | exact T]. }
    destruct (max_duration sp) as [m|].
    + destruct (monotonic_ok env w1) as [Mo [_ [_ T2]]].
      rewrite (bind_ok _ _ _ _ _ Mo).
      set (w2 := emit _ (async env w1)) in *.
      assert (CE3 : child_ends env w2 n) by now apply tick_emit_child_ends.
      destruct (timed_out start _ m).
      * destruct (timeout_path_spec env fuel w2 (child_ends_alive _ CE3))
          as [[w' [tail [TP _]]]|[Z _]]; [eauto | lia].
      * destruct (Nat.le_gt_cases (w_time w2) n) as [L2|L2].
        -- apply Go; [exact CE3 | lia].
        -- destruct (animate_ok env i w2) as [w3 [A [_ [_ T3]]]].
           rewrite (bind_ok _ _ _ _ _ A). apply IH; [|lia].
           unfold animate, bind, print_out, sleep in A. inversion A; subst.
           now repeat apply tick_emit_child_ends.
    + apply Go; [exact CE2 | lia].
Qed.

Lemma supervise_returns fuel w :
  child_ends env w n -> w_time w = 0%nat -> (n + 1 < fuel)%nat ->
  exists code w', supervise env sp fuel w = Some (Ok code, w').
Proof.
  intros CE T0 F. unfold supervise.
  rewrite (bind_ok _ _ _ _ _ (proj1 (monotonic_ok env w))).
  unfold bind at 1. cbn [ret]. unfold bind at 1, signal.
  unfold bind at 1, signal. unfold bind at 1, signal.
  pose proof (tick_emit_child_ends
                (EvClock (tk_now (env_ticks env (w_time w)))) w CE) as CE0.
  set (w0 := init_flags (emit (EvClock (tk_now (env_ticks env (w_time w))))
                           (async env w))) in *.
  change (child_ends env w0 n) in CE0.
  pose proof (tick_emit_child_ends (EvSignalSet SIGINT SigHandler) w0 CE0)
    as CE1.
  set (w1 := emit (EvSignalSet SIGINT SigHandler)
               (set_handler SIGINT SigHandler (async env w0))) in *.
  change (child_ends env w1 n) in CE1.
  pose proof (tick_emit_child_ends (EvSignalSet SIGTERM SigHandler) w1 CE1)
    as CE2.
  set (w2 := emit (EvSignalSet SIGTERM SigHandler)
               (set_handler SIGTERM SigHandler (async env w1))) in *.
  change (child_ends env w2 n) in CE2.
  pose proof (tick_emit_child_ends (EvSignalSet SIGQUIT SigHandler) w2 CE2)
    as CE3.
  set (w3 := emit (EvSignalSet SIGQUIT SigHandler)
               (set_handler SIGQUIT SigHandler (async env w2))) in *.
  change (child_ends env w3 n) in CE3.
  destruct (spin_loop_returns fuel 0%nat
              (tk_now (env_ticks env (w_time w))) w3 CE3) as [x [w4 L]]; [lia|].
  assert (B : exists code,
            guarded_body env sp fuel 0 (tk_now (env_ticks env (w_time w))) w3
              = Some (Ok code, w4)).
  { unfold guarded_body. rewrite (bind_ok _ _ _ _ _ L).
    destruct x; eexists; reflexivity. }
  destruct B as [code B].
  destruct (guarded_finish env sp _ _ _ (w_handlers (async env w0) SIGINT)
              (w_handlers (async env w1) SIGTERM)
              (w_handlers (async env w2) SIGQUIT) _ _ _ B) as [w5 [G _]].
  exists code, w5. exact G.
Qed.

End Liveness.

(** X13.  The parent does not hang.  If the child ends on its own at tick
    [n] of the script at the latest, then whatever signals arrive and
    whatever the clock reads, the call of [spin] comes to an end: its
    loop, its blocking waits and its [finally] clause all finish.  It ends
    with a code for the caller whenever no handler of the caller has been
    invoked on the way (such a handler may raise, and then ends the call
    itself). *)
Theorem spin_ends_once_child_ends env sp n fuel :
  tk_child (env_ticks env n) <> None -> (n + 1 < fuel)%nat ->
  exists o w',
    spin fuel env sp Parent = Some (o, w') /\
    (undisturbed (w_trace w') -> exists code, o = Returned code).
Proof.
  intros E F. unfold spin. cbn [fork_result Z.eqb].
  set (own := own_status _ _ _). set (w := emit _ _).
  destruct (supervise_returns env sp n fuel w) as [code [w' S]];
    [|reflexivity|exact F|].
  - right. exists own. split; [reflexivity|]. split; [simpl; lia | exact E].
  - exists (Returned code), w'. rewrite S. split; [reflexivity|]. eauto.
Qed.

Lemma spin_ends_once_child_ends_witness :
  exists o w',
    spin 10 ctrl_c_env demo_spinner Parent = Some (o, w') /\
    (undisturbed (w_trace w') -> exists code, o = Returned code).
Proof.
  apply (spin_ends_once_child_ends ctrl_c_env demo_spinner 7 10).
  - discriminate.
  - lia.
Defined.

(* ================================================================== *)
(** ** Failures ahead of the [try] *)

(** X14.  The calls made before the [try] of line 84 are not covered by
    its [finally] clause.  When [fork] raises, [spin] is left by that
    [OSError] with the message written and the cursor hidden, and nothing
    else done.  When [signal] is refused (a call off the main thread),
    [spin] is left by the [ValueError] of line 80 after the fork and the
    reading of the clock: the child is there and has not been waited for,
    the handler table is untouched and the cursor is hidden. *)
Theorem failures_before_the_try env sp fuel :
  (spin fuel env sp Unforked = Some (Raised OSError, prologue sp (initial env)) /\
   w_trace (prologue sp (initial env)) =
     [EvStdout (wait_text sp ++ " "); EvStdout HIDE_CURSOR]) /\
  (exists w',
     spin fuel env sp Worker = Some (Raised ValueError, w') /\
     mainline (w_trace w') =
       [EvStdout (wait_text sp ++ " "); EvStdout HIDE_CURSOR;
        EvFork (pid env); EvClock (tk_now (env_ticks env 0))] /\
     w_child w' <> Gone /\
     (forall s, w_handlers w' s = env_handlers env s) /\
     cursor_visible (w_trace w') = false).
Proof.
  split; [split; reflexivity|].
  unfold spin. cbn [fork_result Z.eqb]. set (w1 := emit _ _).
  rewrite supervise_off_main_run. eexists. split; [reflexivity|].
  change (tk_now (env_ticks env (w_time w1)))
    with (tk_now (env_ticks env 0)).
  set (now := tk_now _).
  assert (E1 : emits [EvFork (pid env)] (prologue sp (initial env)) w1).
  { exists [EvFork (pid env)]. split; reflexivity. }
  assert (E2 : emits [EvClock now] w1 (emit (EvClock now) (async env w1)))
    by now apply tick_emit_emits.
  pose proof (emits_trans _ _ _ _ _ E1 E2) as E.
  split; [|split; [|split]].
  - exact (emits_mainline _ _ _ E).
  - cbn [init_flags w_child emit]. apply async_alive. discriminate.
  - intros s. cbn [init_flags w_handlers emit].
    now rewrite (drift_handlers _ _ (async_drift env w1)).
  - pose proof (cursor_visible_emits _ _ _ E) as V.
    rewrite prologue_hides in V. exact V.
Qed.
